(** * FinSankey: the graph builder (dataParser.ts) and the drag logic of
    the chart (SankeyChart.tsx), embedded in Rocq.

    The sources hold two revisions of [dataParser.ts] and two of
    [SankeyChart.tsx]:

    - [LossRouting]: the parser that sends a negative amount to a shadow
      "loss" node of its target and colours by keyword;
    - [SignCategory]: the parser that always joins the declared source and
      target and colours by sign;
    - [SankeyChart]: the chart whose drag listener moves a node in both
      directions, records the position in [dragState] and lets d3-sankey
      recompute the link positions;
    - [SankeyChartV1]: the earlier chart, with a vertical, clamped drag.

    Conventions of the embedding.

    - A JavaScript [number] is an exact rational, or one of the three
      special values [Infinity], [-Infinity] and [NaN].  Rounding, overflow
      and the sign of zero of IEEE doubles are not modelled.
    - A JavaScript string is a [string] whose characters are the code
      units 0..255; white space is therefore TAB, LF, VT, FF, CR, SP and
      NBSP.
    - [Map<string, _>] keeps insertion order and is an association list
      with unique keys; a plain object used as a dictionary ([dragState])
      is the [gmap] of its own properties together with its prototype.
    - Objects shared by reference (the nodes and links of the laid-out
      graph) live in two arrays and refer to each other by index.
    - A thrown [Error] is the [Throw] outcome of a [completion].
    - d3-sankey is a dependency: its layout generator is a parameter, and
      its [update] and [sankeyLinkHorizontal] are modelled in [D3]. *)

From Stdlib Require Import QArith Qcanon Qcabs ZArith NArith String Ascii Lia.
From stdpp Require Import base option list strings gmap pretty.

Local Open Scope string_scope.

(** ** JavaScript numbers *)

Module Js.

Inductive number : Type :=
| Fin (q : Qc)
| PosInf
| NegInf
| NaN.

#[global] Instance number_eq_dec : EqDecision number.
Proof. solve_decision. Defined.

Definition zero : number := Fin (Q2Qc 0).
Definition ofZ (z : Z) : number := Fin (Q2Qc (inject_Z z)).
(** The literal [0.001]. *)
Definition milli : number := Fin (Q2Qc (1 # 1000)).
Definition hundred : number := ofZ 100.

Definition Qcsign (q : Qc) : comparison := (q ?= Q2Qc 0)%Qc.

Definition neg (x : number) : number :=
  match x with
  | Fin q => Fin (- q)%Qc
  | PosInf => NegInf
  | NegInf => PosInf
  | NaN => NaN
  end.

Definition add (x y : number) : number :=
  match x, y with
  | NaN, _ | _, NaN => NaN
  | Fin a, Fin b => Fin (a + b)%Qc
  | PosInf, NegInf | NegInf, PosInf => NaN
  | PosInf, _ | _, PosInf => PosInf
  | NegInf, _ | _, NegInf => NegInf
  end.

Definition sub (x y : number) : number := add x (neg y).

(** The sign of an infinite product or quotient. *)
Definition signedInf (positive : bool) : number :=
  if positive then PosInf else NegInf.

Definition mulInf (positive : bool) (y : number) : number :=
  match y with
  | NaN => NaN
  | PosInf => signedInf positive
  | NegInf => signedInf (negb positive)
  | Fin b =>
      match Qcsign b with
      | Eq => NaN
      | Gt => signedInf positive
      | Lt => signedInf (negb positive)
      end
  end.

Definition mul (x y : number) : number :=
  match x, y with
  | NaN, _ | _, NaN => NaN
  | Fin a, Fin b => Fin (a * b)%Qc
  | PosInf, _ => mulInf true y
  | NegInf, _ => mulInf false y
  | _, PosInf => mulInf true x
  | _, NegInf => mulInf false x
  end.

Definition div (x y : number) : number :=
  match x, y with
  | NaN, _ | _, NaN => NaN
  | Fin a, Fin b =>
      match Qcsign b with
      | Eq =>
          match Qcsign a with
          | Eq => NaN
          | Gt => PosInf
          | Lt => NegInf
          end
      | _ => Fin (a / b)%Qc
      end
  | Fin _, _ => zero
  | _, Fin b =>
      match Qcsign b with
      | Lt => mulInf false x
      | _ => x
      end
  | _, _ => NaN
  end.

(** [Math.abs]. *)
Definition abs (x : number) : number :=
  match x with
  | Fin q => Fin (Qcabs q)
  | PosInf | NegInf => PosInf
  | NaN => NaN
  end.

(** [x < y]; every comparison with [NaN] is false. *)
Definition ltb (x y : number) : bool :=
  match x, y with
  | NaN, _ | _, NaN => false
  | Fin a, Fin b => match (a ?= b)%Qc with Lt => true | _ => false end
  | NegInf, NegInf => false
  | NegInf, _ => true
  | _, PosInf => match x with PosInf => false | _ => true end
  | _, _ => false
  end.

(** [x > y]. *)
Definition gtb (x y : number) : bool := ltb y x.

(** [x === y] on numbers: [NaN] is not equal to itself. *)
Definition strictEq (x y : number) : bool :=
  match x, y with
  | NaN, _ | _, NaN => false
  | _, _ => bool_decide (x = y)
  end.

(** [x !== y]. *)
Definition strictNeq (x y : number) : bool := negb (strictEq x y).

(** [Math.max] and [Math.min] of two arguments. *)
Definition max (x y : number) : number :=
  match x, y with
  | NaN, _ | _, NaN => NaN
  | _, _ => if ltb x y then y else x
  end.

Definition min (x y : number) : number :=
  match x, y with
  | NaN, _ | _, NaN => NaN
  | _, _ => if ltb y x then y else x
  end.

(** [isNaN] on a number. *)
Definition isNaN (x : number) : bool :=
  match x with NaN => true | _ => false end.

(** ToBoolean on a number: [0] and [NaN] are falsy. *)
Definition truthy (x : number) : bool :=
  match x with
  | NaN => false
  | Fin q => negb (bool_decide (q = Q2Qc 0))
  | _ => true
  end.

(** [a || b] on numbers. *)
Definition orElse (a b : number) : number := if truthy a then a else b.

(** ** JavaScript strings *)

(** [\s] of a regular expression, the white space stripped by [trim] and
    the white space skipped by [parseFloat] (code units below 256). *)
Definition isWhiteSpace (c : ascii) : bool :=
  let n := N_of_ascii c in
  ((9 <=? n) && (n <=? 13) || (n =? 32) || (n =? 160))%N.

Fixpoint trimStart (s : string) : string :=
  match s with
  | String c s' => if isWhiteSpace c then trimStart s' else s
  | EmptyString => EmptyString
  end.

Fixpoint trimEnd (s : string) : string :=
  match s with
  | String c s' =>
      match trimEnd s' with
      | EmptyString => if isWhiteSpace c then EmptyString else String c EmptyString
      | t => String c t
      end
  | EmptyString => EmptyString
  end.

(** [s.trim()]. *)
Definition trim (s : string) : string := trimEnd (trimStart s).

(** [s.replace(/\s/g, "")]. *)
Fixpoint removeWhiteSpace (s : string) : string :=
  match s with
  | String c s' =>
      if isWhiteSpace c then removeWhiteSpace s' else String c (removeWhiteSpace s')
  | EmptyString => EmptyString
  end.

Fixpoint dropChars (n : nat) (s : string) : string :=
  match n, s with
  | S n', String _ s' => dropChars n' s'
  | _, _ => s
  end.

(** [s.startsWith(p)]. *)
Definition startsWith (p s : string) : bool := String.prefix p s.

(** [s.replace(pat, rep)] with a string pattern: the first occurrence only.
    The replacement strings of the program contain no [$]. *)
Fixpoint replace (pat rep s : string) : string :=
  if startsWith pat s then rep ++ dropChars (String.length pat) s
  else match s with
       | String c s' => String c (replace pat rep s')
       | EmptyString => EmptyString
       end.

(** [s.includes(k)]. *)
Fixpoint includes (k s : string) : bool :=
  startsWith k s ||
  match s with
  | String _ s' => includes k s'
  | EmptyString => false
  end.

Definition lowerChar (c : ascii) : ascii :=
  let n := N_of_ascii c in
  if ((65 <=? n) && (n <=? 90) ||
      (192 <=? n) && (n <=? 222) && negb (n =? 215))%N
  then ascii_of_N (n + 32) else c.

(** [s.toLowerCase()]. *)
Fixpoint toLowerCase (s : string) : string :=
  match s with
  | String c s' => String (lowerChar c) (toLowerCase s')
  | EmptyString => EmptyString
  end.

(** ** parseFloat *)

Definition isDigit (c : ascii) : bool :=
  let n := N_of_ascii c in ((48 <=? n) && (n <=? 57))%N.

Definition digitValue (c : ascii) : Z := Z.of_N (N_of_ascii c) - 48.

(** The longest run of decimal digits at the start of [s], and the rest. *)
Fixpoint spanDigits (s : string) : list ascii * string :=
  match s with
  | String c s' =>
      if isDigit c then let '(ds, r) := spanDigits s' in (c :: ds, r)
      else ([], s)
  | EmptyString => ([], EmptyString)
  end.

Definition digitsValue (ds : list ascii) : Z :=
  fold_left (fun acc c => 10 * acc + digitValue c)%Z ds 0%Z.

(** ExponentPart, when one is present at the start of [s]; [0] otherwise. *)
Definition scanExponent (s : string) : Z :=
  match s with
  | String c r =>
      if bool_decide (c = "e"%char) || bool_decide (c = "E"%char) then
        match r with
        | String "-" r' =>
            match spanDigits r' with
            | ([], _) => 0
            | (ds, _) => - digitsValue ds
            end
        | String "+" r' => digitsValue (spanDigits r').1
        | _ => digitsValue (spanDigits r).1
        end%Z
      else 0%Z
  | EmptyString => 0%Z
  end.

(** The value of the longest prefix of [s] that is a
    StrUnsignedDecimalLiteral, or [NaN] when there is none. *)
Definition scanUnsigned (s : string) : number :=
  if startsWith "Infinity" s then PosInf
  else
    let '(ip, r1) := spanDigits s in
    let '(fp, r2) :=
      match r1 with
      | String "." r => spanDigits r
      | _ => ([], r1)
      end in
    match ip, fp with
    | [], [] => NaN
    | _, _ =>
        let m := digitsValue (ip ++ fp) in
        let e := (scanExponent r2 - Z.of_nat (length fp))%Z in
        Fin (Q2Qc (inject_Z m * Qpower (inject_Z 10) e))
    end.

(** [parseFloat(s)]. *)
Definition parseFloat (s : string) : number :=
  match trimStart s with
  | String "-" r => neg (scanUnsigned r)
  | String "+" r => scanUnsigned r
  | t => scanUnsigned t
  end.

End Js.

Definition qc (n : Z) (d : positive) : Js.number := Js.Fin (Q2Qc (n # d)).

(** Closed equalities between values that contain rationals are settled by
    running the decision procedure, since two equal canonical rationals
    need not be convertible. *)
Ltac by_compute :=
  match goal with
  | |- ?P => apply (bool_decide_unpack P); vm_compute; exact I
  end.


(** ** Insertion-ordered maps: JavaScript's [Map<string, V>] *)

Module OMap.
Section omap.
Context {V : Type}.

Fixpoint get (k : string) (m : list (string * V)) : option V :=
  match m with
  | [] => None
  | (k', v) :: m' => if bool_decide (k' = k) then Some v else get k m'
  end.

Definition has (k : string) (m : list (string * V)) : bool :=
  match get k m with Some _ => true | None => false end.

(** In-place update of the value stored under [k]: [m.get(k).f = ...].
    The program only does this for a key it has inserted before. *)
Fixpoint alter (f : V -> V) (k : string) (m : list (string * V)) : list (string * V) :=
  match m with
  | [] => []
  | (k', v) :: m' =>
      if bool_decide (k' = k) then (k', f v) :: m' else (k', v) :: alter f k m'
  end.

(** [m.set(k, v)]: a new key goes last, an old key keeps its place. *)
Definition set (k : string) (v : V) (m : list (string * V)) : list (string * V) :=
  if has k m then alter (fun _ => v) k m else m ++ [(k, v)].

(** [Array.from(m.keys())]. *)
Definition keys (m : list (string * V)) : list string := m.*1.

(** The idiom [if (!m.has(k)) m.set(k, v)]. *)
Definition ensure (k : string) (v : V) (m : list (string * V)) : list (string * V) :=
  if negb (has k m) then set k v m else m.
End omap.
End OMap.

(** ** dataParser.ts: what the two revisions share *)

(** A cell of the selected range: [string | number | boolean]. *)
Inductive cell : Type :=
| CString (s : string)
| CNumber (x : Js.number)
| CBoolean (b : bool).

#[global] Instance cell_eq_dec : EqDecision cell.
Proof. solve_decision. Defined.

(** [typeof c === "string"], for [c = row[i]] (absent when [row] is short). *)
Definition isString (c : option cell) : bool :=
  match c with Some (CString _) => true | _ => false end.

(** ToBoolean of [row[i]]: [undefined], [""], [0], [NaN] and [false] are
    falsy. *)
Definition truthy (c : option cell) : bool :=
  match c with
  | None => false
  | Some (CString s) => negb (bool_decide (s = ""))
  | Some (CNumber x) => Js.truthy x
  | Some (CBoolean b) => b
  end.

Inductive colorClass : Type := profit | cost | neutral.

Record palette : Type := { fill : string; accent : string; link : string }.

Definition COLORS (c : colorClass) : palette :=
  match c with
  | profit => {| fill := "#4CAF50"; accent := "#2E7D32"; link := "rgba(76,175,80,0.5)" |}
  | cost => {| fill := "#E91E63"; accent := "#880E4F"; link := "rgba(233,30,99,0.5)" |}
  | neutral => {| fill := "#9E9E9E"; accent := "#424242"; link := "rgba(158,158,158,0.45)" |}
  end.

Module NodeMeta.
Record t : Type := {
  id : string;
  name : string;
  totalValue : Js.number;
  totalPrior : Js.number;
  yoyPct : option Js.number;
  fillColor : string;
  accentColor : string
}.
#[global] Instance eq_dec : EqDecision t.
Proof. solve_decision. Defined.
End NodeMeta.

Module LinkMeta.
Record t : Type := {
  sourceId : string;
  targetId : string;
  value : Js.number;
  prior : Js.number;
  yoyPct : option Js.number;
  linkColor : string
}.
#[global] Instance eq_dec : EqDecision t.
Proof. solve_decision. Defined.
End LinkMeta.

(** An element of [sankeyLinks], the raw input of d3-sankey. *)
Module SankeyLink.
Record t : Type := {
  source : string;
  target : string;
  value : Js.number
}.
#[global] Instance eq_dec : EqDecision t.
Proof. solve_decision. Defined.
End SankeyLink.

Module GraphData.
Record t : Type := {
  nodeMeta : list (string * NodeMeta.t);
  linkMeta : list LinkMeta.t;
  (* [{ id }] objects, given by their [id] *)
  sankeyNodes : list string;
  sankeyLinks : list SankeyLink.t
}.
#[global] Instance eq_dec : EqDecision t.
Proof. solve_decision. Defined.
End GraphData.

(** The outcome of a call: a value, or a thrown [Error] with its message. *)
Inductive completion (A : Type) : Type :=
| Return (a : A)
| Throw (message : string).
Arguments Return {A} a.
Arguments Throw {A} message.

Definition selectionError : string :=
  "Select at least 2 rows (header + 1 data row) with columns: Source | Target | Amount current | Amount last year".

Section Helpers.
(** [String(x)] for a number [x]: Number::toString prints the shortest
    decimal that reads back as the same double, which the exact numbers
    of this embedding cannot express; it stays a parameter. *)
Variable numberToString : Js.number -> string.

(** [String(c)] for [c = row[i]]. *)
Definition ToString (c : option cell) : string :=
  match c with
  | None => "undefined"
  | Some (CString s) => s
  | Some (CNumber x) => numberToString x
  | Some (CBoolean true) => "true"
  | Some (CBoolean false) => "false"
  end.

(** The argument of [parseFloat] in [parseNum]. *)
Definition normalize (c : option cell) : string :=
  Js.replace "," "." (Js.removeWhiteSpace (Js.trim (ToString c))).

Definition parseNum (raw : option cell) : Js.number :=
  match raw with
  | Some (CNumber x) => x
  | _ => Js.orElse (Js.parseFloat (normalize raw)) Js.zero
  end.

(** [row[3] ?? 0]. *)
Definition orZero (c : option cell) : option cell :=
  match c with None => Some (CNumber Js.zero) | Some _ => c end.

(** Header detection on the first row. *)
Definition hasHeader (first : list cell) : bool :=
  isString (first !! 2%nat) &&
  Js.isNaN (Js.parseFloat (Js.replace "," "." (ToString (first !! 2%nat)))).

(** [hasHeader ? rawValues.slice(1) : rawValues]. *)
Definition dataRows (rawValues : list (list cell)) : list (list cell) :=
  match rawValues with
  | first :: _ => if hasHeader first then drop 1 rawValues else rawValues
  | [] => rawValues
  end.

(** [if (!row[0] || !row[1]) continue;] *)
Definition skipped (row : list cell) : bool :=
  negb (truthy (row !! 0%nat)) || negb (truthy (row !! 1%nat)).

(** The per-row year-over-year percentage of both revisions. *)
Definition rowYoy (val prior : Js.number) : option Js.number :=
  if Js.strictNeq prior Js.zero
  then Some (Js.mul (Js.div (Js.sub val prior) (Js.abs prior)) Js.hundred)
  else None.

(** The per-node year-over-year percentage of both revisions. *)
Definition nodeYoy (value prior : Js.number) : option Js.number :=
  if Js.strictNeq prior Js.zero
  then Some (Js.mul (Js.div (Js.sub value prior) prior) Js.hundred)
  else None.
End Helpers.

(** ** dataParser.ts, loss-routing revision: a negative amount flows into a
    shadow node of the target *)

Module LossRouting.

Definition PROFIT_KW : list string :=
  ["profit"; "revenue"; "income"; "earnings"; "gain"; "net"; "gross"; "ebit"].
Definition COST_KW : list string :=
  ["cost"; "expense"; "tax"; "loss"; "charge"; "r&d"; "sg&a"; "cogs";
   "deprec"; "amort"; "interest"; "other"].

Definition classifyId (id : string) : colorClass :=
  let lo := Js.toLowerCase id in
  if existsb (fun k => Js.includes k lo) COST_KW then cost
  else if existsb (fun k => Js.includes k lo) PROFIT_KW then profit
  else neutral.

(** The value type of [nodeTotals]. *)
Record totals : Type := { value : Js.number; prior : Js.number }.

#[global] Instance totals_eq_dec : EqDecision totals.
Proof. solve_decision. Defined.

(** What the loop over the rows mutates. *)
Record acc : Type := {
  nodeTotals : list (string * totals);
  linkMeta : list LinkMeta.t;
  sankeyLinks : list SankeyLink.t
}.

Definition noTotals : totals := {| value := Js.zero; prior := Js.zero |}.

Definition touch (id : string) (nt : list (string * totals)) : list (string * totals) :=
  if negb (OMap.has id nt) then OMap.set id noTotals nt else nt.

(** [nodeTotals.get(id)!.value += absVal; nodeTotals.get(id)!.prior += absPrior]. *)
Definition accumulate (id : string) (absVal absPrior : Js.number)
    (nt : list (string * totals)) : list (string * totals) :=
  OMap.alter
    (fun t => {| value := Js.add (value t) absVal; prior := Js.add (prior t) absPrior |})
    id nt.

Definition lossPrefix : string := "__loss__".

Section Parser.
Variable numberToString : Js.number -> string.

(** One iteration of [for (const row of rows)]. *)
Definition processRow (st : acc) (row : list cell) : acc :=
  if skipped row then st
  else
    let srcId := Js.trim (ToString numberToString (row !! 0%nat)) in
    let tgtId := Js.trim (ToString numberToString (row !! 1%nat)) in
    let val := parseNum numberToString (row !! 2%nat) in
    let prior := parseNum numberToString (orZero (row !! 3%nat)) in
    let nt := touch tgtId (touch srcId (nodeTotals st)) in
    let absVal := Js.abs val in
    let absPrior := Js.abs prior in
    let yoyPct := rowYoy val prior in
    let nt := accumulate srcId absVal absPrior nt in
    if Js.ltb val Js.zero then
      let lossId := lossPrefix ++ tgtId in
      let nt := accumulate lossId absVal absPrior (touch lossId nt) in
      {| nodeTotals := nt;
         linkMeta := linkMeta st ++
           [ {| LinkMeta.sourceId := srcId; LinkMeta.targetId := lossId;
                LinkMeta.value := absVal; LinkMeta.prior := absPrior;
                LinkMeta.yoyPct := yoyPct; LinkMeta.linkColor := link (COLORS cost) |} ];
         sankeyLinks := sankeyLinks st ++
           [ {| SankeyLink.source := srcId; SankeyLink.target := lossId;
                SankeyLink.value := Js.orElse absVal Js.milli |} ] |}
    else
      let cls := classifyId tgtId in
      {| nodeTotals := accumulate tgtId absVal absPrior nt;
         linkMeta := linkMeta st ++
           [ {| LinkMeta.sourceId := srcId; LinkMeta.targetId := tgtId;
                LinkMeta.value := absVal; LinkMeta.prior := absPrior;
                LinkMeta.yoyPct := yoyPct; LinkMeta.linkColor := link (COLORS cls) |} ];
         sankeyLinks := sankeyLinks st ++
           [ {| SankeyLink.source := srcId; SankeyLink.target := tgtId;
                SankeyLink.value := Js.orElse absVal Js.milli |} ] |}.

Definition initial : acc := {| nodeTotals := []; linkMeta := []; sankeyLinks := [] |}.

Definition processRows (rows : list (list cell)) : acc :=
  fold_left processRow rows initial.

(** The body of the loop that builds [nodeMeta]. *)
Definition metaOf (id : string) (t : totals) : NodeMeta.t :=
  let isLoss := Js.startsWith lossPrefix id in
  let name := if isLoss then Js.replace lossPrefix "" id ++ " (loss)" else id in
  let cls := if isLoss then cost else classifyId id in
  {| NodeMeta.id := id;
     NodeMeta.name := name;
     NodeMeta.totalValue := value t;
     NodeMeta.totalPrior := prior t;
     NodeMeta.yoyPct := nodeYoy (value t) (prior t);
     NodeMeta.fillColor := fill (COLORS cls);
     NodeMeta.accentColor := accent (COLORS cls) |}.

Definition buildNodeMeta (nt : list (string * totals)) : list (string * NodeMeta.t) :=
  fold_left (fun nm '(id, t) => OMap.set id (metaOf id t) nm) nt [].

Definition parseExcelData (rawValues : list (list cell)) : completion GraphData.t :=
  if (length rawValues <? 2)%nat then Throw selectionError
  else
    let st := processRows (dataRows numberToString rawValues) in
    Return {| GraphData.nodeMeta := buildNodeMeta (nodeTotals st);
              GraphData.linkMeta := linkMeta st;
              GraphData.sankeyNodes := OMap.keys (nodeTotals st);
              GraphData.sankeyLinks := sankeyLinks st |}.
End Parser.
End LossRouting.

(** ** dataParser.ts, sign-as-category revision: every link joins the
    declared source and target *)

Module SignCategory.

(** The value type of [nodeTotals]. *)
Record totals : Type := {
  inVal : Js.number;
  outVal : Js.number;
  inPrior : Js.number;
  outPrior : Js.number;
  rawSum : Js.number;
  rawOutSum : Js.number
}.

#[global] Instance totals_eq_dec : EqDecision totals.
Proof. solve_decision. Defined.

Record acc : Type := {
  nodeTotals : list (string * totals);
  linkMeta : list LinkMeta.t;
  sankeyLinks : list SankeyLink.t
}.

Definition noTotals : totals :=
  {| inVal := Js.zero; outVal := Js.zero; inPrior := Js.zero;
     outPrior := Js.zero; rawSum := Js.zero; rawOutSum := Js.zero |}.

Definition touch (id : string) (nt : list (string * totals)) : list (string * totals) :=
  if negb (OMap.has id nt) then OMap.set id noTotals nt else nt.

(** The three [+=] on the source node. *)
Definition accumulateOut (id : string) (absVal absPrior val : Js.number)
    (nt : list (string * totals)) : list (string * totals) :=
  OMap.alter
    (fun t => {| inVal := inVal t;
                 outVal := Js.add (outVal t) absVal;
                 inPrior := inPrior t;
                 outPrior := Js.add (outPrior t) absPrior;
                 rawSum := rawSum t;
                 rawOutSum := Js.add (rawOutSum t) val |})
    id nt.

(** The three [+=] on the target node. *)
Definition accumulateIn (id : string) (absVal absPrior val : Js.number)
    (nt : list (string * totals)) : list (string * totals) :=
  OMap.alter
    (fun t => {| inVal := Js.add (inVal t) absVal;
                 outVal := outVal t;
                 inPrior := Js.add (inPrior t) absPrior;
                 outPrior := outPrior t;
                 rawSum := Js.add (rawSum t) val;
                 rawOutSum := rawOutSum t |})
    id nt.

Section Parser.
Variable numberToString : Js.number -> string.

(** One iteration of [for (const row of rows)]. *)
Definition processRow (st : acc) (row : list cell) : acc :=
  if skipped row then st
  else
    let srcId := Js.trim (ToString numberToString (row !! 0%nat)) in
    let tgtId := Js.trim (ToString numberToString (row !! 1%nat)) in
    let val := parseNum numberToString (row !! 2%nat) in
    let prior := parseNum numberToString (orZero (row !! 3%nat)) in
    let nt := touch tgtId (touch srcId (nodeTotals st)) in
    let absVal := Js.abs val in
    let absPrior := Js.abs prior in
    let yoyPct := rowYoy val prior in
    let nt := accumulateOut srcId absVal absPrior val nt in
    let cls := if Js.ltb val Js.zero then cost else profit in
    {| nodeTotals := accumulateIn tgtId absVal absPrior val nt;
       linkMeta := linkMeta st ++
         [ {| LinkMeta.sourceId := srcId; LinkMeta.targetId := tgtId;
              LinkMeta.value := absVal; LinkMeta.prior := absPrior;
              LinkMeta.yoyPct := yoyPct; LinkMeta.linkColor := link (COLORS cls) |} ];
       sankeyLinks := sankeyLinks st ++
         [ {| SankeyLink.source := srcId; SankeyLink.target := tgtId;
              SankeyLink.value := Js.orElse absVal Js.milli |} ] |}.

Definition initial : acc := {| nodeTotals := []; linkMeta := []; sankeyLinks := [] |}.

Definition processRows (rows : list (list cell)) : acc :=
  fold_left processRow rows initial.

(** The body of the loop that builds [nodeMeta]. *)
Definition metaOf (id : string) (t : totals) : NodeMeta.t :=
  let cls :=
    if Js.gtb (inVal t) Js.zero then
      (if Js.ltb (rawSum t) Js.zero then cost else profit)
    else if Js.gtb (outVal t) Js.zero then
      (if Js.ltb (rawOutSum t) Js.zero then cost else profit)
    else profit in
  let nodeVal := Js.max (inVal t) (outVal t) in
  let nodePrior := Js.max (inPrior t) (outPrior t) in
  {| NodeMeta.id := id;
     NodeMeta.name := id;
     NodeMeta.totalValue := nodeVal;
     NodeMeta.totalPrior := nodePrior;
     NodeMeta.yoyPct := nodeYoy nodeVal nodePrior;
     NodeMeta.fillColor := fill (COLORS cls);
     NodeMeta.accentColor := accent (COLORS cls) |}.

Definition buildNodeMeta (nt : list (string * totals)) : list (string * NodeMeta.t) :=
  fold_left (fun nm '(id, t) => OMap.set id (metaOf id t) nm) nt [].

Definition parseExcelData (rawValues : list (list cell)) : completion GraphData.t :=
  if (length rawValues <? 2)%nat then Throw selectionError
  else
    let st := processRows (dataRows numberToString rawValues) in
    Return {| GraphData.nodeMeta := buildNodeMeta (nodeTotals st);
              GraphData.linkMeta := linkMeta st;
              GraphData.sankeyNodes := OMap.keys (nodeTotals st);
              GraphData.sankeyLinks := sankeyLinks st |}.
End Parser.
End SignCategory.

(** ** SankeyChart.tsx: the laid-out graph *)

(** A node after d3-sankey has decorated it.  [sourceLinks] and
    [targetLinks] hold references to link objects: positions in the array
    of links. *)
Module LNode.
Record t : Type := {
  id : string;
  x0 : Js.number;
  x1 : Js.number;
  y0 : Js.number;
  y1 : Js.number;
  value : Js.number;
  depth : nat;
  sourceLinks : list nat;
  targetLinks : list nat
}.
#[global] Instance eq_dec : EqDecision t.
Proof. solve_decision. Defined.

(** Assignment to the four coordinates of a node. *)
Definition moveTo (nx0 nx1 ny0 ny1 : Js.number) (n : t) : t :=
  {| id := id n; x0 := nx0; x1 := nx1; y0 := ny0; y1 := ny1;
     value := value n; depth := depth n;
     sourceLinks := sourceLinks n; targetLinks := targetLinks n |}.
End LNode.

(** A link after d3-sankey has decorated it.  [source] and [target] hold
    references to node objects: positions in the array of nodes. *)
Module LLink.
Record t : Type := {
  source : nat;
  target : nat;
  value : Js.number;
  width : Js.number;
  y0 : Js.number;
  y1 : Js.number;
  index : nat
}.
#[global] Instance eq_dec : EqDecision t.
Proof. solve_decision. Defined.

(** [link.y0 = v]. *)
Definition setY0 (v : Js.number) (l : t) : t :=
  {| source := source l; target := target l; value := value l;
     width := width l; y0 := v; y1 := y1 l; index := index l |}.

(** [link.y1 = v]. *)
Definition setY1 (v : Js.number) (l : t) : t :=
  {| source := source l; target := target l; value := value l;
     width := width l; y0 := y0 l; y1 := v; index := index l |}.
End LLink.

Module Graph.
Record t : Type := {
  nodes : list LNode.t;
  links : list LLink.t
}.
#[global] Instance eq_dec : EqDecision t.
Proof. solve_decision. Defined.
End Graph.

(** *** d3-sankey *)

Module D3.
Definition two : Js.number := Js.ofZ 2.

(** One step of stacking the links of a node: [set] is the assignment to
    [link.y0] or to [link.y1], [st.1] the running position and [k] the
    link object. *)
Definition stack (set : Js.number -> LLink.t -> LLink.t)
    (st : Js.number * list LLink.t) (k : nat) : Js.number * list LLink.t :=
  match st.2 !! k with
  | Some l =>
      (Js.add st.1 (LLink.width l),
       <[k := set (Js.add st.1 (Js.div (LLink.width l) two)) l]> st.2)
  | None => st
  end.

(** [link.y0 = y0 + link.width / 2; y0 += link.width;] *)
Definition stackSource := stack LLink.setY0.

(** [link.y1 = y1 + link.width / 2; y1 += link.width;] *)
Definition stackTarget := stack LLink.setY1.

(** The body of the loop over the nodes. *)
Definition stackNode (ls : list LLink.t) (node : LNode.t) : list LLink.t :=
  let ls := (fold_left stackSource (LNode.sourceLinks node) (LNode.y0 node, ls)).2 in
  (fold_left stackTarget (LNode.targetLinks node) (LNode.y0 node, ls)).2.

(** Modelled from the spec: [d3Sankey().update(graph)] belongs to the
    d3-sankey package, which the sources import but do not contain.  It
    recomputes the vertical port positions [y0] and [y1] of the links and
    nothing else: at every node the outgoing links are stacked from the
    top of the node in the order of [sourceLinks], each port in the middle
    of its band of the link's width, and the incoming links likewise in
    the order of [targetLinks]. *)
Definition update (g : Graph.t) : Graph.t :=
  {| Graph.nodes := Graph.nodes g;
     Graph.links := fold_left stackNode (Graph.nodes g) (Graph.links g) |}.

(** Modelled from the spec: [sankeyLinkHorizontal()] of d3-sankey draws
    the curve of a link between the port [(source.x1, link.y0)] on the
    right edge of its source and the port [(target.x0, link.y1)] on the
    left edge of its target; the curve is a function of these four
    coordinates. *)
Definition ports (g : Graph.t) (l : LLink.t)
    : option (Js.number * Js.number * Js.number * Js.number) :=
  s ← Graph.nodes g !! LLink.source l;
  t ← Graph.nodes g !! LLink.target l;
  Some (LNode.x1 s, LLink.y0 l, LNode.x0 t, LLink.y1 l).
End D3.

(** *** The component *)

Module SankeyChart.

Inductive ScaleMode : Type := Raw | K | M | B.
Inductive DisplayMode : Type := Blank | Values | YOY.
Inductive DecimalMode : Type := Decimals0 | Decimals1 | Decimals2.

Record Props : Type := {
  data : GraphData.t;
  scale : ScaleMode;
  displayMode : DisplayMode;
  decimals : DecimalMode;
  width : Js.number;
  height : Js.number
}.

Definition NODE_WIDTH : Js.number := Js.ofZ 16.
Definition NODE_PAD : Js.number := Js.ofZ 14.
Definition MARGIN_top : Js.number := Js.ofZ 100.
Definition MARGIN_right : Js.number := Js.ofZ 200.
Definition MARGIN_bottom : Js.number := Js.ofZ 100.
Definition MARGIN_left : Js.number := Js.ofZ 200.

(** A value of [dragState.current]. *)
Record saved : Type := { x0 : Js.number; y0 : Js.number }.

#[global] Instance saved_eq_dec : EqDecision saved.
Proof. solve_decision. Defined.

(** [dragState.current] is a plain object used as a dictionary.  Its own
    properties are the saved positions, and [Object.keys] lists these.  A
    property that the object does not own is looked up in its prototype:
    [Object.prototype], or the object that an assignment to the key
    [__proto__] has put in its place ([proto]). *)
Record dict : Type := {
  own : gmap string saved;
  proto : option saved
}.

#[global] Instance dict_eq_dec : EqDecision dict.
Proof. solve_decision. Defined.

(** The object [{}] that the ref starts with. *)
#[global] Instance dict_empty : Empty dict := {| own := ∅; proto := None |}.

(** The names of the properties of [Object.prototype]. *)
Definition objectPrototypeNames : list string :=
  ["constructor"; "__defineGetter__"; "__defineSetter__"; "hasOwnProperty";
   "__lookupGetter__"; "__lookupSetter__"; "isPrototypeOf"; "propertyIsEnumerable";
   "toString"; "valueOf"; "__proto__"; "toLocaleString"].

(** What [dragState.current[k]] evaluates to: [undefined]; a saved
    position; a number, which is the [x0] or [y0] of the object that has
    become the prototype; or a function or object that [Object.prototype]
    provides, which is truthy and has no [x0] and no [y0]. *)
Inductive found : Type :=
| Undefined
| Position (s : saved)
| Coordinate (x : Js.number)
| Builtin.

Definition inherited (k : string) : found :=
  if bool_decide (k ∈ objectPrototypeNames) then Builtin else Undefined.

(** [dragState.current[k]].  The key [__proto__] is an accessor of
    [Object.prototype], which yields the prototype of the object; no
    assignment makes it an own property. *)
Definition get (o : dict) (k : string) : found :=
  if bool_decide (k = "__proto__") then
    match proto o with
    | Some s => Position s
    | None => Builtin
    end
  else
    match own o !! k with
    | Some s => Position s
    | None =>
        match proto o with
        | Some s =>
            if bool_decide (k = "x0") then Coordinate (x0 s)
            else if bool_decide (k = "y0") then Coordinate (y0 s)
            else inherited k
        | None => inherited k
        end
    end.

(** [dragState.current[k] = s]: an own property, except for the key
    [__proto__], whose setter makes the object [s] the prototype. *)
Definition set (k : string) (s : saved) (o : dict) : dict :=
  if bool_decide (k = "__proto__") then {| own := own o; proto := Some s |}
  else {| own := <[k := s]> (own o); proto := proto o |}.

(** [Object.keys(dragState.current).length]. *)
Definition keyCount (o : dict) : nat := size (own o).

(** What survives between two runs of the effect and between two drag
    events: the graph of the last layout and the [dragState] ref. *)
Record state : Type := {
  graph : Graph.t;
  dragState : dict
}.

(** The body of [graph.nodes.forEach] that re-applies the saved
    positions.  [None]: [saved] is truthy and has no [x0] and no [y0], so
    that the node is given [undefined] for [x0] and [y0] (and [NaN] for
    [x1] and [y1]).  The coordinates of this embedding are numbers; it
    does not follow such a node any further. *)
Definition reapply (ds : dict) (n : LNode.t) : option LNode.t :=
  match get ds (LNode.id n) with
  | Position s =>
      let nodeW := Js.sub (LNode.x1 n) (LNode.x0 n) in
      let nodeH := Js.sub (LNode.y1 n) (LNode.y0 n) in
      Some (LNode.moveTo (x0 s) (Js.add (x0 s) nodeW) (y0 s) (Js.add (y0 s) nodeH) n)
  | Undefined => Some n
  | Coordinate x => if Js.truthy x then None else Some n
  | Builtin => None
  end.

(** What the effect has laid out: a graph, or a graph one of whose nodes
    holds [undefined]. *)
Inductive layout : Type :=
| Laid (g : Graph.t)
| Spoiled.

Section Effect.
(** The layout generator of d3-sankey, configured with a node width, a
    node padding and the extent [[0, 0], [W, H]], applied to copies of
    [sankeyNodes] and [sankeyLinks].  It is a dependency of the
    program; the component only relies on what it returns. *)
Variable d3Sankey :
  Js.number -> Js.number -> Js.number -> Js.number ->
  list string -> list SankeyLink.t -> Graph.t.

(** The layout part of the effect, rerun whenever one of [data],
    [scale], [displayMode], [decimals], [width], [height] changes.
    [None]: the effect returns before laying anything out. *)
Definition layoutPass (p : Props) (ds : dict) : option layout :=
  if bool_decide (length (GraphData.sankeyNodes (data p)) = 0%nat) then None
  else
    let W := Js.sub (Js.sub (width p) MARGIN_left) MARGIN_right in
    let H := Js.sub (Js.sub (height p) MARGIN_top) MARGIN_bottom in
    let graph :=
      d3Sankey NODE_WIDTH NODE_PAD W H
        (GraphData.sankeyNodes (data p)) (GraphData.sankeyLinks (data p)) in
    match mapM (reapply ds) (Graph.nodes graph) with
    | Some nodes =>
        let graph := {| Graph.nodes := nodes; Graph.links := Graph.links graph |} in
        Some (Laid (if (0 <? keyCount ds)%nat then D3.update graph else graph))
    | None => Some Spoiled
    end.
End Effect.

(** The ["drag"] listener, for the node object at position [i] of
    [graph.nodes] and the pointer movement [(dx, dy)]. *)
Definition onDrag (st : state) (i : nat) (dx dy : Js.number) : state :=
  match Graph.nodes (graph st) !! i with
  | None => st
  | Some d =>
      let nodeH := Js.sub (LNode.y1 d) (LNode.y0 d) in
      let nodeW := Js.sub (LNode.x1 d) (LNode.x0 d) in
      let nx0 := Js.add (LNode.x0 d) dx in
      let nx1 := Js.add nx0 nodeW in
      let ny0 := Js.add (LNode.y0 d) dy in
      let ny1 := Js.add ny0 nodeH in
      let d' := LNode.moveTo nx0 nx1 ny0 ny1 d in
      {| graph :=
           D3.update {| Graph.nodes := <[i := d']> (Graph.nodes (graph st));
                        Graph.links := Graph.links (graph st) |};
         dragState := set (LNode.id d) {| x0 := nx0; y0 := ny0 |} (dragState st) |}
  end.
End SankeyChart.

(** *** The earlier revision of the component: vertical drag only, clamped
    to the canvas, without any saved state *)

Module SankeyChartV1.
(** The ["drag"] listener; [H] is the height of the canvas inside the
    margins.  The links are not touched. *)
Definition onDrag (H : Js.number) (g : Graph.t) (i : nat) (dy : Js.number) : Graph.t :=
  match Graph.nodes g !! i with
  | None => g
  | Some d =>
      let nodeH := Js.sub (LNode.y1 d) (LNode.y0 d) in
      let ny0 := Js.max Js.zero (Js.min (Js.sub H nodeH) (Js.add (LNode.y0 d) dy)) in
      let d' := LNode.moveTo (LNode.x0 d) (LNode.x1 d) ny0 (Js.add ny0 nodeH) d in
      {| Graph.nodes := <[i := d']> (Graph.nodes g); Graph.links := Graph.links g |}
  end.
End SankeyChartV1.

(** ** Vocabulary of the statements about the graph builder *)

(** [a_1 + ... + a_n], added in this order to an accumulator that starts
    at [0], as the [+=] of the loop do. *)
Definition total (xs : list Js.number) : Js.number := fold_left Js.add xs Js.zero.

Definition leaves (id : string) (l : LinkMeta.t) : bool :=
  bool_decide (LinkMeta.sourceId l = id).
Definition enters (id : string) (l : LinkMeta.t) : bool :=
  bool_decide (LinkMeta.targetId l = id).

(** The sum of [f] over the edges selected by [p], in the order of the
    rows. *)
Definition flowBy (p f : LinkMeta.t -> _) (ls : list LinkMeta.t) : Js.number :=
  total (f <$> filter (fun l => p l = true) ls).

(** Total outgoing and incoming flow of a node: the recorded values of the
    edges that leave it, and of those that enter it. *)
Definition flowOut (ls : list LinkMeta.t) (id : string) : Js.number :=
  flowBy (leaves id) LinkMeta.value ls.
Definition flowIn (ls : list LinkMeta.t) (id : string) : Js.number :=
  flowBy (enters id) LinkMeta.value ls.
Definition priorOut (ls : list LinkMeta.t) (id : string) : Js.number :=
  flowBy (leaves id) LinkMeta.prior ls.
Definition priorIn (ls : list LinkMeta.t) (id : string) : Js.number :=
  flowBy (enters id) LinkMeta.prior ls.

(** The contributions of an edge to the single accumulator of a node that
    counts both directions: first as its source, then as its target. *)
Definition bothWays (f : LinkMeta.t -> Js.number) (id : string) (l : LinkMeta.t)
    : list Js.number :=
  (if leaves id l then [f l] else []) ++ (if enters id l then [f l] else []).

Definition throughput (f : LinkMeta.t -> Js.number) (ls : list LinkMeta.t) (id : string)
    : Js.number :=
  total (concat (bothWays f id <$> ls)).

(** The element of [sankeyLinks] pushed together with an edge. *)
Definition rendered (l : LinkMeta.t) : SankeyLink.t :=
  {| SankeyLink.source := LinkMeta.sourceId l;
     SankeyLink.target := LinkMeta.targetId l;
     SankeyLink.value := Js.orElse (LinkMeta.value l) Js.milli |}.

Section RowVocabulary.
Variable numberToString : Js.number -> string.

Definition srcOf (row : list cell) : string :=
  Js.trim (ToString numberToString (row !! 0%nat)).
Definition tgtOf (row : list cell) : string :=
  Js.trim (ToString numberToString (row !! 1%nat)).
Definition valOf (row : list cell) : Js.number :=
  parseNum numberToString (row !! 2%nat).
Definition priorOf (row : list cell) : Js.number :=
  parseNum numberToString (orZero (row !! 3%nat)).

(** The rows that the loop does not skip. *)
Definition accepted (rows : list (list cell)) : list (list cell) :=
  filter (fun row => skipped row = false) rows.

(** A numeric cell fails to parse under the lenient rules of [parseNum]. *)
Definition unparseable (c : option cell) : Prop :=
  (forall x, c <> Some (CNumber x)) /\
  Js.parseFloat (normalize numberToString c) = Js.NaN.

(** The third cell of the first row parses as a number: it is one, or
    [parseFloat] reads one from its text with the first comma taken as
    the decimal point. *)
Definition numeric (c : option cell) : bool :=
  match c with
  | Some (CNumber _) => true
  | _ => negb (Js.isNaN (Js.parseFloat (Js.replace "," "." (ToString numberToString c))))
  end.

(** The edge recorded for an accepted row, in each revision. *)
Definition lossLinkOf (row : list cell) : LinkMeta.t :=
  let negative := Js.ltb (valOf row) Js.zero in
  {| LinkMeta.sourceId := srcOf row;
     LinkMeta.targetId :=
       if negative then LossRouting.lossPrefix ++ tgtOf row else tgtOf row;
     LinkMeta.value := Js.abs (valOf row);
     LinkMeta.prior := Js.abs (priorOf row);
     LinkMeta.yoyPct := rowYoy (valOf row) (priorOf row);
     LinkMeta.linkColor :=
       link (COLORS (if negative then cost else LossRouting.classifyId (tgtOf row))) |}.

Definition signLinkOf (row : list cell) : LinkMeta.t :=
  {| LinkMeta.sourceId := srcOf row;
     LinkMeta.targetId := tgtOf row;
     LinkMeta.value := Js.abs (valOf row);
     LinkMeta.prior := Js.abs (priorOf row);
     LinkMeta.yoyPct := rowYoy (valOf row) (priorOf row);
     LinkMeta.linkColor :=
       link (COLORS (if Js.ltb (valOf row) Js.zero then cost else profit)) |}.
End RowVocabulary.

(** A label cell that is falsy although it is not [NaN]: absent, the empty
    text, the number [0] or [false]. *)
Definition falsyLabel (c : option cell) : Prop :=
  c = None \/ c = Some (CString "") \/ c = Some (CNumber Js.zero) \/
  c = Some (CBoolean false).

(** The year-over-year percentage of the program: no value exactly for a
    prior of [0], otherwise the change relative to the magnitude of the
    prior. *)
Definition yoyLaw (current prior : Js.number) (yoy : option Js.number) : Prop :=
  (yoy = None <-> prior = Js.zero) /\
  (prior <> Js.zero ->
   yoy = Some (Js.mul (Js.div (Js.sub current prior) (Js.abs prior)) Js.hundred)).

(** The same with the signed prior as the divisor. *)
Definition signedYoyLaw (current prior : Js.number) (yoy : option Js.number) : Prop :=
  (yoy = None <-> prior = Js.zero) /\
  (prior <> Js.zero ->
   yoy = Some (Js.mul (Js.div (Js.sub current prior) prior) Js.hundred)).

(** ** Invariants of the loop over the rows *)

(** No edge mentions [id]. *)
Definition unmentioned (ls : list LinkMeta.t) (id : string) : Prop :=
  forall l, l ∈ ls -> LinkMeta.sourceId l <> id /\ LinkMeta.targetId l <> id.

(** Sign-as-category revision: the keys of [nodeTotals] are distinct, every
    entry holds the flows of the edges recorded so far, and a missing
    entry means that no edge mentions the node. *)
Definition signTallied (st : SignCategory.acc) : Prop :=
  NoDup (OMap.keys (SignCategory.nodeTotals st)) /\
  forall id,
    match OMap.get id (SignCategory.nodeTotals st) with
    | Some t =>
        SignCategory.inVal t = flowIn (SignCategory.linkMeta st) id /\
        SignCategory.outVal t = flowOut (SignCategory.linkMeta st) id /\
        SignCategory.inPrior t = priorIn (SignCategory.linkMeta st) id /\
        SignCategory.outPrior t = priorOut (SignCategory.linkMeta st) id
    | None => unmentioned (SignCategory.linkMeta st) id
    end.

(** Loss-routing revision: one accumulator per node and period, fed by both
    directions. *)
Definition lossTallied (st : LossRouting.acc) : Prop :=
  NoDup (OMap.keys (LossRouting.nodeTotals st)) /\
  forall id,
    match OMap.get id (LossRouting.nodeTotals st) with
    | Some t =>
        LossRouting.value t = throughput LinkMeta.value (LossRouting.linkMeta st) id /\
        LossRouting.prior t = throughput LinkMeta.prior (LossRouting.linkMeta st) id
    | None => unmentioned (LossRouting.linkMeta st) id
    end.

(** ** Vocabulary of the statements about the chart *)

(** What d3-sankey guarantees of the graph it lays out: the links listed
    at a node as outgoing have that node as their source, those listed as
    incoming have it as their target. *)
Definition wellLinked (g : Graph.t) : Prop :=
  forall j n k,
    Graph.nodes g !! j = Some n ->
    (k ∈ LNode.sourceLinks n ->
     exists l, Graph.links g !! k = Some l /\ LLink.source l = j) /\
    (k ∈ LNode.targetLinks n ->
     exists l, Graph.links g !! k = Some l /\ LLink.target l = j).

(** The link positions are those that [update] computes from the nodes. *)
Definition settled (g : Graph.t) : Prop := D3.update g = g.

(** The fields of a link that [update] never assigns. *)
Definition shape (l : LLink.t) : nat * nat * Js.number * Js.number * nat :=
  (LLink.source l, LLink.target l, LLink.value l, LLink.width l, LLink.index l).

(** Two arrays of links agree on the field [f] wherever [X] does not
    exempt the position. *)
Definition fieldAgree (f : LLink.t -> Js.number) (X : nat -> Prop)
    (ls1 ls2 : list LLink.t) : Prop :=
  forall k l1 l2, ls1 !! k = Some l1 -> ls2 !! k = Some l2 -> ~ X k -> f l1 = f l2.

(** Two arrays of links with the same shapes, whose [y0] agree outside
    [X0] and whose [y1] agree outside [X1]. *)
Definition portsAgree (X0 X1 : nat -> Prop) (ls1 ls2 : list LLink.t) : Prop :=
  shape <$> ls1 = shape <$> ls2 /\
  fieldAgree LLink.y0 X0 ls1 ls2 /\
  fieldAgree LLink.y1 X1 ls1 ls2.

(** Two nodes that stack the same links from the same position, or stack
    the same links, all of them exempt. *)
Definition sameStacking (T0 T1 : nat -> Prop) (n1 n2 : LNode.t) : Prop :=
  LNode.sourceLinks n1 = LNode.sourceLinks n2 /\
  LNode.targetLinks n1 = LNode.targetLinks n2 /\
  (LNode.y0 n1 = LNode.y0 n2 \/
   (forall k, k ∈ LNode.sourceLinks n1 -> T0 k) /\
   (forall k, k ∈ LNode.targetLinks n1 -> T1 k)).

(** The links still to be stacked as outgoing, and as incoming. *)
Definition pendingSources (ns : list LNode.t) : list nat :=
  concat (LNode.sourceLinks <$> ns).
Definition pendingTargets (ns : list LNode.t) : list nat :=
  concat (LNode.targetLinks <$> ns).

(** ** Sample data for the examples *)

(** An instance of [numberToString]: the decimal digits of an integer, as
    JavaScript prints them; other values get a stand-in. *)
Definition showNumber (x : Js.number) : string :=
  match x with
  | Js.Fin q =>
      if bool_decide (Qden q = 1%positive) then pretty.pretty (Qnum q)
      else pretty.pretty (Qnum q) ++ "/" ++ pretty.pretty (Zpos (Qden q))
  | Js.PosInf => "Infinity"
  | Js.NegInf => "-Infinity"
  | Js.NaN => "NaN"
  end.

Definition txt (s : string) : cell := CString s.
Definition num (z : Z) : cell := CNumber (Js.ofZ z).

Definition headerRow : list cell := [txt "Source"; txt "Target"; txt "Amount"; txt "Prior"].
Definition plainRow : list cell := [txt "A"; txt "B"; num 100; num 90].
(** Rows whose source label is the number [0], and whose target label is
    [false]. *)
Definition zeroLabelRow : list cell := [num 0; txt "B"; num 5; num 4].
Definition falseLabelRow : list cell := [txt "A"; CBoolean false; num 5; num 4].
(** A row whose amount is a text without a number and whose prior amount is
    a boolean. *)
Definition malformedRow : list cell := [txt "A"; txt "B"; txt "n/a"; CBoolean true].
(** A first row whose third cell is a boolean. *)
Definition booleanAmountRow : list cell := [txt "A"; txt "B"; CBoolean true; num 90].
(** A row with a negative prior amount. *)
Definition negativePriorRow : list cell := [txt "A"; txt "B"; num 100; num (-50)].
(** A row with a zero amount. *)
Definition zeroAmountRow : list cell := [txt "A"; txt "B"; num 0; num 7].
(** A chain: B both receives and passes on. *)
Definition chainRows : list (list cell) :=
  [headerRow; [txt "A"; txt "B"; num 100; num 80]; [txt "B"; txt "C"; num 60; num 50]].
(** A loss on X, and a row whose target label spells the shadow node of
    X. *)
Definition lossRow : list cell := [txt "A"; txt "X"; num (-5); num 0].
Definition shadowLabelRow : list cell := [txt "B"; txt "__loss__X"; num 5; num 0].
Definition collidingRows : list (list cell) := [headerRow; lossRow; shadowLabelRow].

(** A laid-out graph: A feeds B through link 0 (width 10) and C through
    link 1 (width 20). *)
Definition nodeA : LNode.t :=
  {| LNode.id := "A"; LNode.x0 := Js.ofZ 0; LNode.x1 := Js.ofZ 16;
     LNode.y0 := Js.ofZ 0; LNode.y1 := Js.ofZ 30; LNode.value := Js.ofZ 30;
     LNode.depth := 0; LNode.sourceLinks := [0; 1]%nat; LNode.targetLinks := [] |}.
Definition nodeB : LNode.t :=
  {| LNode.id := "B"; LNode.x0 := Js.ofZ 100; LNode.x1 := Js.ofZ 116;
     LNode.y0 := Js.ofZ 0; LNode.y1 := Js.ofZ 10; LNode.value := Js.ofZ 10;
     LNode.depth := 1; LNode.sourceLinks := []; LNode.targetLinks := [0%nat] |}.
Definition nodeC : LNode.t :=
  {| LNode.id := "C"; LNode.x0 := Js.ofZ 100; LNode.x1 := Js.ofZ 116;
     LNode.y0 := Js.ofZ 24; LNode.y1 := Js.ofZ 44; LNode.value := Js.ofZ 20;
     LNode.depth := 1; LNode.sourceLinks := []; LNode.targetLinks := [1%nat] |}.
Definition sampleNodes : list LNode.t := [nodeA; nodeB; nodeC].

Definition linkAB : LLink.t :=
  {| LLink.source := 0; LLink.target := 1; LLink.value := Js.ofZ 10;
     LLink.width := Js.ofZ 10; LLink.y0 := Js.ofZ 5; LLink.y1 := Js.ofZ 5;
     LLink.index := 0 |}.
Definition linkAC : LLink.t :=
  {| LLink.source := 0; LLink.target := 2; LLink.value := Js.ofZ 20;
     LLink.width := Js.ofZ 20; LLink.y0 := Js.ofZ 20; LLink.y1 := Js.ofZ 34;
     LLink.index := 1 |}.

Definition sampleGraph : Graph.t :=
  {| Graph.nodes := sampleNodes; Graph.links := [linkAB; linkAC] |}.


(** A stand-in for the layout generator: it returns [sampleGraph] whatever
    it is given. *)
Definition sampleLayout (nodeWidth nodePadding W H : Js.number)
    (nodes : list string) (links : list SankeyLink.t) : Graph.t := sampleGraph.

Definition sampleData : GraphData.t :=
  {| GraphData.nodeMeta := []; GraphData.linkMeta := [];
     GraphData.sankeyNodes := ["A"; "B"; "C"];
     GraphData.sankeyLinks :=
       [ {| SankeyLink.source := "A"; SankeyLink.target := "B"; SankeyLink.value := Js.ofZ 10 |};
         {| SankeyLink.source := "A"; SankeyLink.target := "C"; SankeyLink.value := Js.ofZ 20 |} ] |}.

Definition sampleProps (s : SankeyChart.ScaleMode) (d : SankeyChart.DecimalMode)
    : SankeyChart.Props :=
  {| SankeyChart.data := sampleData; SankeyChart.scale := s;
     SankeyChart.displayMode := SankeyChart.Values; SankeyChart.decimals := d;
     SankeyChart.width := Js.ofZ 860; SankeyChart.height := Js.ofZ 800 |}.

(** ** Further vocabulary: signed sums over the rows *)

Section SignedSums.
Variable numberToString : Js.number -> string.

(** The signed amounts of the accepted rows that end in [id], and of those
    that start from it, added in the order of the rows. *)
Definition netIn (rows : list (list cell)) (id : string) : Js.number :=
  total (valOf numberToString <$>
         filter (fun r => tgtOf numberToString r = id) (accepted rows)).
Definition netOut (rows : list (list cell)) (id : string) : Js.number :=
  total (valOf numberToString <$>
         filter (fun r => srcOf numberToString r = id) (accepted rows)).

(** The colour class that the sign-as-category revision gives to a node
    with the flows [fin], [fout] and the signed sums [nin], [nout]. *)
Definition signClass (fin fout nin nout : Js.number) : colorClass :=
  if Js.gtb fin Js.zero then (if Js.ltb nin Js.zero then cost else profit)
  else if Js.gtb fout Js.zero then (if Js.ltb nout Js.zero then cost else profit)
  else profit.
End SignedSums.

(** ** Further sample data *)

(** A row whose source label is two blanks. *)
Definition blankLabelRow : list cell := [txt "  "; txt "B"; num 5; num 4].
(** Revenue is split into a profit and a loss. *)
Definition mixedRows : list (list cell) :=
  [headerRow; [txt "Sales"; txt "Result"; num 100; num 90];
   [txt "Fees"; txt "Result"; num (-140); num (-120)]].

(** * Number formatting: [formatValue] and [formatYoy] of dataParser.ts *)

From Stdlib Require Import Qround Qpower.
From Stdlib Require DecimalString DecimalN DecimalPos.

(** ** [Number.prototype.toFixed] *)

Module JsFixed.

(** [x >= y]; false when one side is [NaN]. *)
Definition geb (x y : Js.number) : bool :=
  match x, y with
  | Js.NaN, _ | _, Js.NaN => false
  | _, _ => negb (Js.ltb x y)
  end.

Fixpoint zeros (k : nat) : string :=
  match k with
  | O => ""
  | S k' => String "0" (zeros k')
  end.

(** The first [n] code units of [s]; [Js.dropChars n s] are the others. *)
Fixpoint takeChars (n : nat) (s : string) : string :=
  match n, s with
  | S n', String c s' => String c (takeChars n' s')
  | _, _ => ""
  end.

(** The digits of the decimal representation of [n], in order, with no
    leading zeros; ["0"] for [0]. *)
Definition digitsOf (n : N) : string :=
  DecimalString.NilEmpty.string_of_uint (N.to_uint n).

Definition tenTo (f : nat) : Q := inject_Z (10 ^ Z.of_nat f).

(** The integer [n] for which [n / 10^f - q] is as close to zero as
    possible, the larger one if there are two; [q] is not negative. *)
Definition nearest (f : nat) (q : Q) : N :=
  Z.to_N (Qfloor (q * tenTo f + (1 # 2))).

(** The digits [m] of that integer with the decimal point put in: [m] is
    filled up with zeros on the left to [f + 1] digits, and the point
    goes before the last [f] digits.  No point for [f = 0]. *)
Definition pointed (f : nat) (m : string) : string :=
  match f with
  | O => m
  | _ =>
      let k := String.length m in
      let '(k, m) := if (k <=? f)%nat then (f + 1, zeros (f + 1 - k) ++ m)%nat else (k, m) in
      takeChars (k - f) m ++ "." ++ Js.dropChars (k - f) m
  end.

(** The numbers that [toFixed] prints in fixed notation: the finite ones
    below [10^21] in magnitude. *)
Definition fixedRange (x : Js.number) : bool :=
  match x with
  | Js.Fin q => negb (Qle_bool (tenTo 21) (Qcabs q))
  | _ => false
  end.

Definition rangeError : string :=
  "toFixed() digits argument must be between 0 and 100".

Section ToFixed.
Variable numberToString : Js.number -> string.

(** [x.toFixed(fractionDigits)] for an integer [fractionDigits >= 0], step
    by step as ECMAScript defines it: a [RangeError] above 100 digits;
    [String(x)] for a number that is not finite; a minus sign for a
    negative number; [String] of the magnitude from [10^21] on; otherwise
    the digits of the nearest multiple of [10^-fractionDigits] with the
    decimal point put in. *)
Definition toFixed (fractionDigits : nat) (x : Js.number) : completion string :=
  if (100 <? fractionDigits)%nat then Throw rangeError
  else
    match x with
    | Js.Fin q =>
        let s := if Js.ltb x Js.zero then "-" else "" in
        if fixedRange x
        then Return (s ++ pointed fractionDigits (digitsOf (nearest fractionDigits (Qcabs q))))
        else Return (s ++ numberToString (Js.abs x))
    | _ => Return (numberToString x)
    end.
End ToFixed.
End JsFixed.

(** ** The two formatting functions *)

(** The [switch] on the scale: the scaled value and the suffix.  The
    quotient is the exact one, where the code has the double nearest to
    it; statements about the digits that [toFixed] prints for a scaled
    value are about the exact quotient. *)
Definition scaledBy (scale : SankeyChart.ScaleMode) (value : Js.number) : Js.number :=
  match scale with
  | SankeyChart.K => Js.div value (Js.ofZ 1000)
  | SankeyChart.M => Js.div value (Js.ofZ 1000000)
  | SankeyChart.B => Js.div value (Js.ofZ 1000000000)
  | SankeyChart.Raw => value
  end.

Definition suffixOf (scale : SankeyChart.ScaleMode) : string :=
  match scale with
  | SankeyChart.K => "K"
  | SankeyChart.M => "M"
  | SankeyChart.B => "B"
  | SankeyChart.Raw => ""
  end.

Section Formatting.
Variable numberToString : Js.number -> string.

(** [x.toFixed(decimals).replace(".", ",")]. *)
Definition fixedComma (decimals : nat) (x : Js.number) : completion string :=
  match JsFixed.toFixed numberToString decimals x with
  | Return s => Return (Js.replace "." "," s)
  | Throw e => Throw e
  end.

(** [formatValue(value, scale, decimals)] of the sign-as-category
    revision. *)
Definition formatValue (value : Js.number) (scale : SankeyChart.ScaleMode)
    (decimals : nat) : completion string :=
  match fixedComma decimals (scaledBy scale value) with
  | Return s => Return (s ++ suffixOf scale)
  | Throw e => Throw e
  end.

(** [formatYoy(pct, decimals)] of the sign-as-category revision; [None] is
    [null]. *)
Definition formatYoy (pct : option Js.number) (decimals : nat) : completion string :=
  match pct with
  | None => Return ""
  | Some pct =>
      let sign := if JsFixed.geb pct Js.zero then "+" else "" in
      match fixedComma decimals pct with
      | Return s => Return (sign ++ s ++ "% Y/Y")
      | Throw e => Throw e
      end
  end.

(** The loss-routing revision has no parameter [decimals]: one decimal
    for a value, none for a percentage. *)
Definition formatValue1 (value : Js.number) (scale : SankeyChart.ScaleMode)
    : completion string :=
  match fixedComma 1 (scaledBy scale value) with
  | Return s => Return (s ++ suffixOf scale)
  | Throw e => Throw e
  end.

Definition formatYoy1 (pct : option Js.number) : completion string :=
  match pct with
  | None => Return ""
  | Some pct =>
      let sign := if JsFixed.geb pct Js.zero then "+" else "" in
      match fixedComma 0 pct with
      | Return s => Return (sign ++ s ++ "% Y/Y")
      | Throw e => Throw e
      end
  end.
End Formatting.

(** ** Vocabulary of the statements about formatting *)

(** Every code unit of [s] passes the test [p]. *)
Fixpoint every (p : ascii -> bool) (s : string) : bool :=
  match s with
  | String c s' => p c && every p s'
  | EmptyString => true
  end.

Definition allDigits (s : string) : bool := every Js.isDigit s.

(** ["-"] in front of a negative number. *)
Definition minusOf (x : Js.number) : string :=
  if Js.ltb x Js.zero then "-" else "".

(** The decimal comma, when there are decimals. *)
Definition commaOf (decimals : nat) : string :=
  match decimals with O => "" | _ => "," end.

(** [x] rounded to [f] decimals, a half away from zero; the [n] is that of
    [toFixed]. *)
Definition roundedTo (f : nat) (x : Js.number) : Js.number :=
  match x with
  | Js.Fin q =>
      let r := Q2Qc (inject_Z (Z.of_N (JsFixed.nearest f (Qcabs q))) / JsFixed.tenTo f) in
      Js.Fin (if Js.ltb x Js.zero then - r else r)%Qc
  | _ => x
  end.

(** The code unit [c] does not occur in [s]. *)
Definition lacks (c : ascii) (s : string) : bool :=
  every (fun x => negb (bool_decide (x = c))) s.

(** The decimal point of [toFixed], when there are decimals. *)
Definition pointOf (decimals : nat) : string :=
  match decimals with O => "" | _ => "." end.

(** * SankeyChart.tsx: the three label lines of a node *)

Module SankeyLabels.

(** The value of the [decimals] property. *)
Definition decimalsOf (m : SankeyChart.DecimalMode) : nat :=
  match m with
  | SankeyChart.Decimals0 => 0
  | SankeyChart.Decimals1 => 1
  | SankeyChart.Decimals2 => 2
  end.

(** [data.nodeMeta.get(d.id)]. *)
Definition metaOf (p : SankeyChart.Props) (d : LNode.t) : option NodeMeta.t :=
  OMap.get (LNode.id d) (GraphData.nodeMeta (SankeyChart.data p)).

(** [data.nodeMeta.get(d.id)?.yoyPct ?? null]. *)
Definition pctOf (p : SankeyChart.Props) (d : LNode.t) : option Js.number :=
  m ← metaOf p d; NodeMeta.yoyPct m.

(** Line 1: the name. *)
Definition nameLine (p : SankeyChart.Props) (d : LNode.t) : string :=
  match metaOf p d with
  | Some m => NodeMeta.name m
  | None => LNode.id d
  end.

(** The [y] attribute of line 2 and of line 3. *)
Definition valueLineY : Z := 14.
Definition yoyLineY (p : SankeyChart.Props) : Z :=
  match SankeyChart.displayMode p with
  | SankeyChart.YOY => 14
  | _ => 27
  end.

(** The fill of line 3. *)
Definition yoyLineFill (p : SankeyChart.Props) (d : LNode.t) : string :=
  match pctOf p d with
  | None => "#999"
  | Some pct => if JsFixed.geb pct Js.zero then "#2E7D32" else "#C62828"
  end.

Section Lines.
Variable numberToString : Js.number -> string.

(** Line 2: the formatted value. *)
Definition valueLine (p : SankeyChart.Props) (d : LNode.t) : completion string :=
  match SankeyChart.displayMode p with
  | SankeyChart.Blank | SankeyChart.YOY => Return ""
  | SankeyChart.Values =>
      formatValue numberToString
        (match metaOf p d with
         | Some m => NodeMeta.totalValue m
         | None => LNode.value d
         end)
        (SankeyChart.scale p) (decimalsOf (SankeyChart.decimals p))
  end.

(** Line 3: the percentage. *)
Definition yoyLine (p : SankeyChart.Props) (d : LNode.t) : completion string :=
  match SankeyChart.displayMode p with
  | SankeyChart.Blank | SankeyChart.Values => Return ""
  | SankeyChart.YOY =>
      formatYoy numberToString (pctOf p d) (decimalsOf (SankeyChart.decimals p))
  end.
End Lines.
End SankeyLabels.

(** * Taskpane.tsx: loading the selection *)

Module Taskpane.

(** The state of the component that [loadData] writes. *)
Record state : Type := {
  graphData : option GraphData.t;
  loading : bool;
  error : option string
}.

(** What [Excel.run] hands to the callback: the values of the selected
    range, or a rejection whose [message] may be missing. *)
Inductive selection : Type :=
| Values (rawValues : list (list cell))
| Rejected (message : option string).

Definition fallbackMessage : string := "Failed to read Excel selection.".

(** The state while the selection is being read: [setLoading(true)] and
    [setError(null)]. *)
Definition loadStart (st : state) : state :=
  {| graphData := graphData st; loading := true; error := None |}.

Section Load.
Variable numberToString : Js.number -> string.

(** The body of the [try]: the parsed graph, or the [message] of what
    was thrown. *)
Definition tryBody (sel : selection) : GraphData.t + option string :=
  match sel with
  | Values rawValues =>
      match SignCategory.parseExcelData numberToString rawValues with
      | Return parsed => inl parsed
      | Throw message => inr (Some message)
      end
  | Rejected message => inr message
  end.

(** The state after [loadData] has run to its end. *)
Definition loadData (sel : selection) (st : state) : state :=
  let st := loadStart st in
  match tryBody sel with
  | inl parsed =>
      {| graphData := Some parsed; loading := false; error := error st |}
  | inr message =>
      {| graphData := graphData st; loading := false;
         error := Some (default fallbackMessage message) |}
  end.
End Load.
End Taskpane.

(** A graph as the task pane shows it: the chart is drawn with the loaded
    data. *)
Definition propsOf (g : GraphData.t) (s : SankeyChart.ScaleMode)
    (m : SankeyChart.DisplayMode) (d : SankeyChart.DecimalMode) : SankeyChart.Props :=
  {| SankeyChart.data := g; SankeyChart.scale := s; SankeyChart.displayMode := m;
     SankeyChart.decimals := d;
     SankeyChart.width := Js.ofZ 860; SankeyChart.height := Js.ofZ 800 |}.

(** Rows that are all skipped. *)
Definition skippedRows : list (list cell) := [headerRow; zeroLabelRow; falseLabelRow].

(** The graph that the sign-as-category revision builds from the chain. *)
Definition chainGraph : GraphData.t :=
  match SignCategory.parseExcelData showNumber chainRows with
  | Return g => g
  | Throw _ => sampleData
  end.

(** ** Sample data: a node whose label is [__proto__] *)






(** [sampleGraph] with the node C under the label [constructor]. *)
Definition nodeK : LNode.t :=
  {| LNode.id := "constructor"; LNode.x0 := Js.ofZ 100; LNode.x1 := Js.ofZ 116;
     LNode.y0 := Js.ofZ 24; LNode.y1 := Js.ofZ 44; LNode.value := Js.ofZ 20;
     LNode.depth := 1; LNode.sourceLinks := []; LNode.targetLinks := [1%nat] |}.

Definition constructorGraph : Graph.t :=
  {| Graph.nodes := [nodeA; nodeB; nodeK]; Graph.links := [linkAB; linkAC] |}.

Definition constructorLayout (nodeWidth nodePadding W H : Js.number)
    (nodes : list string) (links : list SankeyLink.t) : Graph.t := constructorGraph.

(** A first row without a header: its amount is a text that holds no
    number. *)
Definition malformedFirstRows : list (list cell) :=
  [[txt "X"; txt "Y"; txt "n/a"; num 1]; plainRow].

(** * Properties *)

Local Open Scope list_scope.

(** ** Numbers *)

Module JsFacts.
Import Js.

(** A magnitude: what [Math.abs] returns, and what sums and maxima of such
    values are. *)
Definition magnitude (x : number) : Prop := abs x = x.

Lemma add_zero_r x : add x zero = x.
Proof.
  destruct x; try reflexivity.
  unfold add, zero. f_equal. apply Qcplus_0_r.
Qed.

Lemma add_zero_l x : add zero x = x.
Proof.
  destruct x; try reflexivity.
  unfold add, zero. f_equal. apply Qcplus_0_l.
Qed.

Lemma abs_zero : abs zero = zero.
Proof. by_compute. Qed.

Lemma abs_abs x : abs (abs x) = abs x.
Proof.
  destruct x; try reflexivity.
  cbn. f_equal. apply Qcabs_pos, Qcabs_nonneg.
Qed.

Lemma magnitude_abs x : magnitude (abs x).
Proof. apply abs_abs. Qed.

Lemma magnitude_zero : magnitude zero.
Proof. apply abs_zero. Qed.

Lemma magnitude_cases x :
  magnitude x <-> x = NaN \/ x = PosInf \/ exists q, x = Fin q /\ (Q2Qc 0 <= q)%Qc.
Proof.
  unfold magnitude. split.
  - destruct x as [q| | |]; cbn; intros H; try discriminate; auto.
    right; right. exists q. split; [done|].
    injection H as H. rewrite <- H. apply Qcabs_nonneg.
  - intros [->|[->|(q & -> & Hq)]]; cbn; try reflexivity.
    f_equal. by apply Qcabs_pos.
Qed.

Lemma magnitude_add x y : magnitude x -> magnitude y -> magnitude (add x y).
Proof.
  rewrite !magnitude_cases.
  intros [->|[->|(a & -> & Ha)]] [->|[->|(b & -> & Hb)]]; cbn; auto.
  right; right. eexists; split; [done|]. by apply Qcplus_nonneg_nonneg.
Qed.

Lemma Qccompare_zero_nonneg q : (Q2Qc 0 <= q)%Qc -> (Q2Qc 0 ?= q)%Qc <> Gt.
Proof. intros H. exact H. Qed.

Lemma max_zero_l x : magnitude x -> max zero x = x.
Proof.
  rewrite magnitude_cases.
  intros [->|[->|(q & -> & Hq)]]; try reflexivity.
  unfold max, zero, ltb.
  destruct (Q2Qc 0 ?= q)%Qc eqn:E; try reflexivity.
  - apply Qceq_alt in E. by rewrite E.
  - by destruct (Qccompare_zero_nonneg q Hq).
Qed.

Lemma max_zero_r x : magnitude x -> max x zero = x.
Proof.
  rewrite magnitude_cases.
  intros [->|[->|(q & -> & Hq)]]; try reflexivity.
  unfold max, zero, ltb.
  destruct (q ?= Q2Qc 0)%Qc eqn:E; try reflexivity.
  apply Qclt_alt in E. exfalso. by apply (Qcle_not_lt _ _ Hq).
Qed.

Lemma magnitude_max x y : magnitude x -> magnitude y -> magnitude (max x y).
Proof.
  intros Hx Hy. unfold max.
  destruct x, y; try done; by destruct (ltb _ _).
Qed.

(** [prior !== 0] fails exactly at [0]. *)
Lemma strictNeq_zero x : strictNeq x zero = false <-> x = zero.
Proof.
  unfold strictNeq, strictEq. destruct x; cbn; try (split; [done | discriminate]).
  rewrite negb_false_iff, bool_decide_eq_true. done.
Qed.

(** [x || 0.001] is the floor exactly for the falsy [x]. *)
Lemma orElse_zero : orElse zero milli = milli.
Proof. by_compute. Qed.

Lemma milli_positive : ltb zero milli = true.
Proof. reflexivity. Qed.

Lemma orElse_NaN_zero : orElse NaN zero = zero.
Proof. reflexivity. Qed.
End JsFacts.

Example string_examples :
  Js.trim "  Cost of  Revenue  " = "Cost of  Revenue" /\
  Js.trim "   " = "" /\
  Js.removeWhiteSpace " 1 234 567,5 " = "1234567,5" /\
  Js.replace "," "." "1,234,5" = "1.234,5" /\
  Js.replace "__loss__" "" "__loss__Tax" = "Tax" /\
  Js.toLowerCase "Cost of Revenue" = "cost of revenue" /\
  Js.includes "cost" "cost of revenue" = true /\
  Js.includes "tax" "cost of revenue" = false /\
  Js.startsWith "__loss__" "__loss__Tax" = true /\
  LossRouting.classifyId "Cost of Revenue" = cost /\
  LossRouting.classifyId "Net Income" = profit /\
  LossRouting.classifyId "Assets" = neutral.
Proof. repeat split; reflexivity. Qed.

Example parseNum_examples :
  parseNum showNumber (Some (txt " 1 234,5 ")) = qc 2469 2 /\
  parseNum showNumber (Some (txt "12.5")) = qc 25 2 /\
  parseNum showNumber (Some (txt "n/a")) = Js.zero /\
  parseNum showNumber (Some (txt "")) = Js.zero /\
  parseNum showNumber (Some (CBoolean true)) = Js.zero /\
  parseNum showNumber None = Js.zero /\
  parseNum showNumber (Some (num (-7))) = Js.ofZ (-7).
Proof. repeat split; by_compute. Qed.

Example parseFloat_examples :
  Js.parseFloat "12.5" = qc 25 2 /\
  Js.parseFloat "  -3e2xyz" = qc (-300) 1 /\
  Js.parseFloat ".5" = qc 1 2 /\
  Js.parseFloat "5." = qc 5 1 /\
  Js.parseFloat "5e" = qc 5 1 /\
  Js.parseFloat "1.25e-2" = qc 1 80 /\
  Js.parseFloat "Amount" = Js.NaN /\
  Js.parseFloat "." = Js.NaN /\
  Js.parseFloat "- 5" = Js.NaN /\
  Js.parseFloat "" = Js.NaN /\
  Js.parseFloat "-Infinity" = Js.NegInf /\
  Js.parseFloat "1 000" = qc 1 1.
Proof. repeat split; by_compute. Qed.

(** ** Insertion-ordered maps *)

Module OMapFacts.
Section facts.
Context {V : Type}.
Implicit Types (m : list (string * V)) (k : string) (v : V).

Lemma get_app k m1 m2 :
  OMap.get k (m1 ++ m2) =
  match OMap.get k m1 with Some v => Some v | None => OMap.get k m2 end.
Proof.
  induction m1 as [|[k' v'] m1 IH]; cbn; [done|].
  by case_bool_decide.
Qed.

Lemma get_None_keys k m : OMap.get k m = None <-> k ∉ OMap.keys m.
Proof.
  unfold OMap.keys. induction m as [|[k' v'] m IH]; cbn.
  - split; [intros _; apply not_elem_of_nil | done].
  - rewrite not_elem_of_cons. case_bool_decide; subst.
    + split; [done | intros [? _]; done].
    + rewrite IH. split; [by intros | by intros [_ ?]].
Qed.

Lemma get_Some_elem k v m : OMap.get k m = Some v -> (k, v) ∈ m.
Proof.
  induction m as [|[k' v'] m IH]; cbn; [done|].
  case_bool_decide; subst.
  - intros [= ->]. apply list_elem_of_here.
  - intros Hg. apply list_elem_of_further. auto.
Qed.

Lemma elem_get k v m : NoDup (OMap.keys m) -> (k, v) ∈ m -> OMap.get k m = Some v.
Proof.
  unfold OMap.keys. induction m as [|[k' v'] m IH]; cbn.
  - intros _ H. by apply elem_of_nil in H.
  - intros Hnd H. apply NoDup_cons in Hnd as [Hk Hnd].
    apply elem_of_cons in H as [[= -> ->]|H].
    + by rewrite bool_decide_eq_true_2.
    + case_bool_decide; subst.
      * exfalso. apply Hk. apply list_elem_of_fmap. by exists (k, v).
      * auto.
Qed.

Lemma has_true k m : OMap.has k m = true <-> is_Some (OMap.get k m).
Proof.
  unfold OMap.has. destruct (OMap.get k m); split; done.
Qed.

Lemma has_false k m : OMap.has k m = false <-> OMap.get k m = None.
Proof. unfold OMap.has. by destruct (OMap.get k m). Qed.

Lemma keys_alter f k m : OMap.keys (OMap.alter f k m) = OMap.keys m.
Proof.
  unfold OMap.keys. induction m as [|[k' v'] m IH]; cbn; [done|].
  case_bool_decide; cbn; [done | by rewrite IH].
Qed.

Lemma get_alter f k k' m :
  OMap.get k' (OMap.alter f k m) =
  if bool_decide (k = k') then f <$> OMap.get k m else OMap.get k' m.
Proof.
  induction m as [|[k0 v0] m IH]; cbn.
  - by case_bool_decide.
  - destruct (decide (k0 = k)) as [->|Hk0].
    + rewrite (bool_decide_eq_true_2 (k = k)) by done. cbn.
      by case_bool_decide.
    + rewrite (bool_decide_eq_false_2 (k0 = k)) by done. cbn.
      rewrite IH. repeat case_bool_decide; congruence.
Qed.

Lemma get_alter_eq f k m : OMap.get k (OMap.alter f k m) = f <$> OMap.get k m.
Proof. rewrite get_alter. by rewrite bool_decide_eq_true_2. Qed.

Lemma get_alter_ne f k k' m : k ≠ k' -> OMap.get k' (OMap.alter f k m) = OMap.get k' m.
Proof. intros. rewrite get_alter. by rewrite bool_decide_eq_false_2. Qed.

Lemma ensure_unfold k v m :
  OMap.ensure k v m = if OMap.has k m then m else m ++ [(k, v)].
Proof. unfold OMap.ensure, OMap.set. by destruct (OMap.has k m). Qed.

Lemma get_ensure k v k' m :
  OMap.get k' (OMap.ensure k v m) =
  match OMap.get k' m with
  | Some x => Some x
  | None => if bool_decide (k = k') then Some v else None
  end.
Proof.
  rewrite ensure_unfold. destruct (OMap.has k m) eqn:Hh.
  - destruct (OMap.get k' m) eqn:E; [done|].
    case_bool_decide; [subst|done].
    apply has_true in Hh as [? Hh]. congruence.
  - rewrite get_app. cbn. destruct (OMap.get k' m); [done|]. done.
Qed.

Lemma keys_ensure_NoDup k v m : NoDup (OMap.keys m) -> NoDup (OMap.keys (OMap.ensure k v m)).
Proof.
  intros Hnd. rewrite ensure_unfold. destruct (OMap.has k m) eqn:Hh; [done|].
  unfold OMap.keys. rewrite fmap_app. cbn.
  apply NoDup_app. split; [done|]. split.
  - intros x Hx Hin. apply list_elem_of_singleton in Hin as ->.
    apply has_false, get_None_keys in Hh. done.
  - apply NoDup_singleton.
Qed.

Lemma ensure_is_Some k v m : is_Some (OMap.get k (OMap.ensure k v m)).
Proof.
  rewrite get_ensure. destruct (OMap.get k m); [by eexists|].
  rewrite bool_decide_eq_true_2 by done. by eexists.
Qed.

(** A key that has been inserted stays: [m.get(k)!] does not fail on it. *)
Lemma has_ensure k v m : OMap.has k (OMap.ensure k v m) = true.
Proof. apply has_true, ensure_is_Some. Qed.

Lemma has_ensure_mono k k' v m : OMap.has k m = true -> OMap.has k (OMap.ensure k' v m) = true.
Proof.
  rewrite !has_true, get_ensure. intros [x ->]. by eexists.
Qed.

Lemma has_alter_mono f k k' m : OMap.has k m = true -> OMap.has k (OMap.alter f k' m) = true.
Proof.
  rewrite !has_true, get_alter. intros [x Hx].
  case_bool_decide; subst; rewrite Hx; by eexists.
Qed.
End facts.

Section build.
Context {V W : Type}.

(** Filling a second map from the entries of a first one, whose keys are
    distinct, keeps the entries in order. *)
Lemma fold_set_fmap (f : string -> V -> W) (m : list (string * V)) (acc : list (string * W)) :
  NoDup (OMap.keys acc ++ OMap.keys m) ->
  fold_left (fun nm '(k, v) => OMap.set k (f k v) nm) m acc =
  acc ++ ((fun '(k, v) => (k, f k v)) <$> m).
Proof.
  revert acc. induction m as [|[k v] m IH]; intros acc Hnd; cbn.
  - by rewrite app_nil_r.
  - assert (OMap.has k acc = false) as Hh.
    { apply has_false, get_None_keys. apply NoDup_app in Hnd as (_ & Hd & _).
      intros Hin. apply (Hd _ Hin). cbn. apply list_elem_of_here. }
    unfold OMap.set at 2. rewrite Hh. rewrite IH.
    + by rewrite <- app_assoc.
    + unfold OMap.keys in *. rewrite fmap_app. cbn. rewrite <- app_assoc. done.
Qed.
End build.
End OMapFacts.

(** ** Sums over the recorded edges *)

Section Flows.
Implicit Types (ls : list LinkMeta.t) (l : LinkMeta.t) (id : string).

Lemma total_nil : total [] = Js.zero.
Proof. reflexivity. Qed.

Lemma total_snoc xs x : total (xs ++ [x]) = Js.add (total xs) x.
Proof. unfold total. by rewrite fold_left_app. Qed.

Lemma total_app xs ys : total (xs ++ ys) = fold_left Js.add ys (total xs).
Proof. unfold total. by rewrite fold_left_app. Qed.

Lemma total_magnitude xs : Forall JsFacts.magnitude xs -> JsFacts.magnitude (total xs).
Proof.
  induction xs as [|x xs IH] using rev_ind; intros H.
  - apply JsFacts.magnitude_zero.
  - apply Forall_app in H as [Hxs Hx]. rewrite total_snoc.
    apply JsFacts.magnitude_add; [auto|]. by rewrite Forall_singleton in Hx.
Qed.

Lemma flowBy_snoc (p : LinkMeta.t -> bool) f ls l :
  flowBy p f (ls ++ [l]) =
  if p l then Js.add (flowBy p f ls) (f l) else flowBy p f ls.
Proof.
  unfold flowBy. rewrite filter_app. cbn.
  destruct (p l) eqn:E; cbn.
  - rewrite fmap_app. apply total_snoc.
  - by rewrite app_nil_r.
Qed.

Lemma flowBy_none (p : LinkMeta.t -> bool) f ls :
  (forall l, l ∈ ls -> p l = false) -> flowBy p f ls = Js.zero.
Proof.
  intros H. unfold flowBy.
  replace (filter (fun l => p l = true) ls) with (@nil LinkMeta.t); [done|].
  symmetry. induction ls as [|l ls IH]; [done|].
  rewrite filter_cons_False.
  - apply IH. intros l' Hl'. apply H. by apply list_elem_of_further.
  - rewrite (H l) by apply list_elem_of_here. done.
Qed.

Lemma flowBy_magnitude (p : LinkMeta.t -> bool) f ls :
  (forall l, l ∈ ls -> JsFacts.magnitude (f l)) -> JsFacts.magnitude (flowBy p f ls).
Proof.
  intros H. apply total_magnitude. apply Forall_fmap, Forall_forall.
  intros l Hl. apply H. apply list_elem_of_filter in Hl. tauto.
Qed.

Lemma unmentioned_leaves ls id l :
  unmentioned ls id -> l ∈ ls -> leaves id l = false.
Proof. intros H Hl. apply bool_decide_eq_false_2. by apply H. Qed.

Lemma unmentioned_enters ls id l :
  unmentioned ls id -> l ∈ ls -> enters id l = false.
Proof. intros H Hl. apply bool_decide_eq_false_2. by apply H. Qed.

Lemma unmentioned_snoc ls l id :
  unmentioned ls id -> LinkMeta.sourceId l <> id -> LinkMeta.targetId l <> id ->
  unmentioned (ls ++ [l]) id.
Proof.
  intros H Hs Ht l' Hl'. apply elem_of_app in Hl' as [Hl'|Hl'].
  - by apply H.
  - by apply list_elem_of_singleton in Hl' as ->.
Qed.

Lemma throughput_snoc f ls l id :
  throughput f (ls ++ [l]) id =
  fold_left Js.add (bothWays f id l) (throughput f ls id).
Proof.
  unfold throughput. rewrite fmap_app, concat_app. cbn.
  rewrite app_nil_r. apply total_app.
Qed.

Lemma throughput_none f ls id : unmentioned ls id -> throughput f ls id = Js.zero.
Proof.
  intros H. unfold throughput.
  replace (concat (bothWays f id <$> ls)) with (@nil Js.number); [done|].
  symmetry. induction ls as [|l ls IH]; [done|]. cbn.
  unfold bothWays at 1.
  rewrite (unmentioned_leaves _ _ l H), (unmentioned_enters _ _ l H)
    by apply list_elem_of_here.
  cbn. apply IH. intros l' Hl'. apply H. by apply list_elem_of_further.
Qed.

Lemma throughput_magnitude f ls id :
  (forall l, l ∈ ls -> JsFacts.magnitude (f l)) ->
  JsFacts.magnitude (throughput f ls id).
Proof.
  intros H. apply total_magnitude. apply Forall_concat, Forall_fmap, Forall_forall.
  intros l Hl. unfold bothWays. cbn.
  apply Forall_app. split; [destruct (leaves id l) | destruct (enters id l)];
    try apply Forall_nil_2; apply Forall_singleton; auto.
Qed.
End Flows.

(** ** Rows *)

Lemma accepted_cons row rows :
  accepted (row :: rows) =
  if skipped row then accepted rows else row :: accepted rows.
Proof.
  unfold accepted. destruct (skipped row) eqn:E.
  - by rewrite filter_cons_False by (rewrite E; done).
  - by rewrite filter_cons_True.
Qed.

Lemma accepted_app rows1 rows2 :
  accepted (rows1 ++ rows2) = accepted rows1 ++ accepted rows2.
Proof. apply filter_app. Qed.

(** ** The loop of the sign-as-category revision *)

Module SignCategoryFacts.
Import SignCategory.
Section facts.
Variable nts : Js.number -> string.

Lemma sign_processRow_skipped st row : skipped row = true -> processRow nts st row = st.
Proof. intros H. unfold processRow. by rewrite H. Qed.

Lemma sign_processRow_accepted st row :
  skipped row = false ->
  processRow nts st row =
  {| nodeTotals :=
       accumulateIn (tgtOf nts row) (Js.abs (valOf nts row))
         (Js.abs (priorOf nts row)) (valOf nts row)
         (accumulateOut (srcOf nts row) (Js.abs (valOf nts row))
            (Js.abs (priorOf nts row)) (valOf nts row)
            (touch (tgtOf nts row) (touch (srcOf nts row) (nodeTotals st))));
     linkMeta := linkMeta st ++ [signLinkOf nts row];
     sankeyLinks := sankeyLinks st ++ [rendered (signLinkOf nts row)] |}.
Proof. intros H. unfold processRow. by rewrite H. Qed.

Lemma sign_linkMeta_fold rows st :
  linkMeta (fold_left (processRow nts) rows st) =
  linkMeta st ++ (signLinkOf nts <$> accepted rows).
Proof.
  revert st. induction rows as [|row rows IH]; intros st.
  - cbn. by rewrite app_nil_r.
  - rewrite accepted_cons. cbn [fold_left]. rewrite IH.
    destruct (skipped row) eqn:E.
    + by rewrite sign_processRow_skipped.
    + rewrite sign_processRow_accepted by done. cbn. by rewrite <- app_assoc.
Qed.

Lemma sign_sankeyLinks_fold rows st :
  sankeyLinks (fold_left (processRow nts) rows st) =
  sankeyLinks st ++ (rendered <$> (signLinkOf nts <$> accepted rows)).
Proof.
  revert st. induction rows as [|row rows IH]; intros st.
  - cbn. by rewrite app_nil_r.
  - rewrite accepted_cons. cbn [fold_left]. rewrite IH.
    destruct (skipped row) eqn:E.
    + by rewrite sign_processRow_skipped.
    + rewrite sign_processRow_accepted by done. cbn. by rewrite <- app_assoc.
Qed.

Lemma sign_touch_ensure id nt : touch id nt = OMap.ensure id noTotals nt.
Proof. reflexivity. Qed.

(** The entry of [id] after an accepted row. *)
Lemma sign_get_processRow st row id :
  skipped row = false ->
  OMap.get id (nodeTotals (processRow nts st row)) =
  let v := valOf nts row in
  let a := Js.abs v in
  let p := Js.abs (priorOf nts row) in
  let isSrc := bool_decide (srcOf nts row = id) in
  let isTgt := bool_decide (tgtOf nts row = id) in
  let before :=
    match OMap.get id (nodeTotals st) with
    | Some t => Some t
    | None => if isSrc || isTgt then Some noTotals else None
    end in
  (fun t =>
     {| inVal := if isTgt then Js.add (inVal t) a else inVal t;
        outVal := if isSrc then Js.add (outVal t) a else outVal t;
        inPrior := if isTgt then Js.add (inPrior t) p else inPrior t;
        outPrior := if isSrc then Js.add (outPrior t) p else outPrior t;
        rawSum := if isTgt then Js.add (rawSum t) v else rawSum t;
        rawOutSum := if isSrc then Js.add (rawOutSum t) v else rawOutSum t |})
  <$> before.
Proof.
  intros H. rewrite sign_processRow_accepted by done.
  cbv zeta. cbn [nodeTotals]. unfold accumulateIn, accumulateOut.
  rewrite !sign_touch_ensure.
  generalize (srcOf nts row) (tgtOf nts row). intros src tgt.
  destruct (decide (tgt = id)) as [->|Et], (decide (src = id)) as [->|Es];
    rewrite ?OMapFacts.get_alter_eq, ?OMapFacts.get_alter_ne by done;
    rewrite ?OMapFacts.get_alter_eq, ?OMapFacts.get_alter_ne by done;
    rewrite !OMapFacts.get_ensure;
    rewrite ?(bool_decide_eq_true_2 (id = id)) by done;
    rewrite ?(bool_decide_eq_false_2 (tgt = id)) by done;
    rewrite ?(bool_decide_eq_false_2 (src = id)) by done;
    destruct (OMap.get id (nodeTotals st)) as [t|]; cbn; try done;
    by destruct t.
Qed.

Lemma sign_keys_processRow st row :
  NoDup (OMap.keys (nodeTotals st)) ->
  NoDup (OMap.keys (nodeTotals (processRow nts st row))).
Proof.
  intros Hnd. destruct (skipped row) eqn:E.
  - by rewrite sign_processRow_skipped.
  - rewrite sign_processRow_accepted by done. cbn [nodeTotals].
    unfold accumulateIn, accumulateOut.
    rewrite !OMapFacts.keys_alter, !sign_touch_ensure.
    by do 2 apply OMapFacts.keys_ensure_NoDup.
Qed.

Lemma sign_tallied_initial : signTallied initial.
Proof.
  split; [apply NoDup_nil_2|]. intros id. cbn.
  intros l Hl. by apply elem_of_nil in Hl.
Qed.

Lemma sign_tallied_processRow st row :
  signTallied st -> signTallied (processRow nts st row).
Proof.
  intros [Hnd Hst]. split; [by apply sign_keys_processRow|].
  destruct (skipped row) eqn:E.
  { by rewrite sign_processRow_skipped. }
  intros id. rewrite sign_get_processRow by done.
  rewrite sign_processRow_accepted by done.
  cbv zeta. cbn [linkMeta].
  unfold flowIn, flowOut, priorIn, priorOut.
  rewrite !flowBy_snoc.
  specialize (Hst id). unfold flowIn, flowOut, priorIn, priorOut in Hst.
  change (leaves id (signLinkOf nts row)) with (bool_decide (srcOf nts row = id)).
  change (enters id (signLinkOf nts row)) with (bool_decide (tgtOf nts row = id)).
  change (LinkMeta.value (signLinkOf nts row)) with (Js.abs (valOf nts row)).
  change (LinkMeta.prior (signLinkOf nts row)) with (Js.abs (priorOf nts row)).
  destruct (OMap.get id (nodeTotals st)) as [t|].
  - cbn -[flowBy]. by destruct Hst as (-> & -> & -> & ->).
  - rewrite !(flowBy_none (leaves id)) by (intros; by eapply unmentioned_leaves).
    rewrite !(flowBy_none (enters id)) by (intros; by eapply unmentioned_enters).
    destruct (bool_decide (srcOf nts row = id)) eqn:Es,
             (bool_decide (tgtOf nts row = id)) eqn:Et; cbn -[flowBy]; try done.
    apply unmentioned_snoc; [done| |]; cbn.
    + by apply bool_decide_eq_false in Es.
    + by apply bool_decide_eq_false in Et.
Qed.

Lemma sign_tallied_fold rows st :
  signTallied st -> signTallied (fold_left (processRow nts) rows st).
Proof.
  revert st. induction rows as [|row rows IH]; intros st H; cbn; [done|].
  by apply IH, sign_tallied_processRow.
Qed.

Lemma sign_tallied_processRows rows : signTallied (processRows nts rows).
Proof. apply sign_tallied_fold, sign_tallied_initial. Qed.

Lemma sign_buildNodeMeta_fmap nt :
  NoDup (OMap.keys nt) ->
  buildNodeMeta nt = (fun '(id, t) => (id, metaOf id t)) <$> nt.
Proof.
  intros H. unfold buildNodeMeta.
  by rewrite (OMapFacts.fold_set_fmap metaOf nt []).
Qed.

(** The parser returns a graph exactly on two rows or more. *)
Lemma sign_parseExcelData_Return rawValues :
  (2 <= length rawValues)%nat ->
  parseExcelData nts rawValues =
  let st := processRows nts (dataRows nts rawValues) in
  Return {| GraphData.nodeMeta := (fun '(id, t) => (id, metaOf id t)) <$> nodeTotals st;
            GraphData.linkMeta := signLinkOf nts <$> accepted (dataRows nts rawValues);
            GraphData.sankeyNodes := OMap.keys (nodeTotals st);
            GraphData.sankeyLinks :=
              rendered <$> (signLinkOf nts <$> accepted (dataRows nts rawValues)) |}.
Proof.
  intros H. unfold parseExcelData.
  destruct (Nat.ltb_spec (length rawValues) 2) as [?|_]; [lia|].
  cbv zeta. rewrite sign_buildNodeMeta_fmap by apply sign_tallied_processRows.
  unfold processRows. by rewrite sign_linkMeta_fold, sign_sankeyLinks_fold.
Qed.

Lemma sign_parseExcelData_Throw rawValues :
  (length rawValues < 2)%nat -> parseExcelData nts rawValues = Throw selectionError.
Proof.
  intros H. unfold parseExcelData.
  by destruct (Nat.ltb_spec (length rawValues) 2) as [_|?]; [|lia].
Qed.
(** Every [nodeTotals.get(id)!] of the loop finds its entry. *)
Lemma sign_entries_present nt src tgt a p v :
  OMap.has src (touch tgt (touch src nt)) = true /\
  OMap.has tgt (accumulateOut src a p v (touch tgt (touch src nt))) = true.
Proof.
  rewrite !sign_touch_ensure. split.
  - apply OMapFacts.has_ensure_mono, OMapFacts.has_ensure.
  - apply OMapFacts.has_alter_mono, OMapFacts.has_ensure.
Qed.
End facts.
End SignCategoryFacts.

(** ** The loop of the loss-routing revision *)

Module LossRoutingFacts.
Import LossRouting.
Section facts.
Variable nts : Js.number -> string.

Lemma loss_processRow_skipped st row : skipped row = true -> processRow nts st row = st.
Proof. intros H. unfold processRow. by rewrite H. Qed.

Lemma loss_processRow_accepted st row :
  skipped row = false ->
  processRow nts st row =
  let a := Js.abs (valOf nts row) in
  let p := Js.abs (priorOf nts row) in
  let nt :=
    accumulate (srcOf nts row) a p
      (touch (tgtOf nts row) (touch (srcOf nts row) (nodeTotals st))) in
  {| nodeTotals :=
       if Js.ltb (valOf nts row) Js.zero
       then accumulate (lossPrefix ++ tgtOf nts row)%string a p
              (touch (lossPrefix ++ tgtOf nts row)%string nt)
       else accumulate (tgtOf nts row) a p nt;
     linkMeta := linkMeta st ++ [lossLinkOf nts row];
     sankeyLinks := sankeyLinks st ++ [rendered (lossLinkOf nts row)] |}.
Proof.
  intros H. unfold processRow, lossLinkOf, rendered. rewrite H.
  fold (srcOf nts row) (tgtOf nts row) (valOf nts row) (priorOf nts row).
  by destruct (Js.ltb (valOf nts row) Js.zero).
Qed.

Lemma loss_linkMeta_fold rows st :
  linkMeta (fold_left (processRow nts) rows st) =
  linkMeta st ++ (lossLinkOf nts <$> accepted rows).
Proof.
  revert st. induction rows as [|row rows IH]; intros st.
  - cbn. by rewrite app_nil_r.
  - rewrite accepted_cons. cbn [fold_left]. rewrite IH.
    destruct (skipped row) eqn:E.
    + by rewrite loss_processRow_skipped.
    + rewrite loss_processRow_accepted by done. cbn. by rewrite <- app_assoc.
Qed.

Lemma loss_sankeyLinks_fold rows st :
  sankeyLinks (fold_left (processRow nts) rows st) =
  sankeyLinks st ++ (rendered <$> (lossLinkOf nts <$> accepted rows)).
Proof.
  revert st. induction rows as [|row rows IH]; intros st.
  - cbn. by rewrite app_nil_r.
  - rewrite accepted_cons. cbn [fold_left]. rewrite IH.
    destruct (skipped row) eqn:E.
    + by rewrite loss_processRow_skipped.
    + rewrite loss_processRow_accepted by done. cbn. by rewrite <- app_assoc.
Qed.

Lemma loss_touch_ensure id nt : touch id nt = OMap.ensure id noTotals nt.
Proof. reflexivity. Qed.

Ltac lookups :=
  repeat first
    [ rewrite OMapFacts.get_alter_eq
    | rewrite OMapFacts.get_alter_ne by done
    | rewrite OMapFacts.get_ensure ].

(** The entry of [id] after an accepted row. *)
Lemma loss_get_processRow st row id :
  skipped row = false ->
  OMap.get id (nodeTotals (processRow nts st row)) =
  let l := lossLinkOf nts row in
  let before :=
    match OMap.get id (nodeTotals st) with
    | Some t => Some t
    | None =>
        if leaves id l || bool_decide (tgtOf nts row = id) || enters id l
        then Some noTotals else None
    end in
  (fun t =>
     {| value := fold_left Js.add (bothWays LinkMeta.value id l) (value t);
        prior := fold_left Js.add (bothWays LinkMeta.prior id l) (prior t) |})
  <$> before.
Proof.
  intros H. rewrite loss_processRow_accepted by done.
  cbv zeta. cbn [nodeTotals]. unfold bothWays, leaves, enters, lossLinkOf.
  cbn [LinkMeta.sourceId LinkMeta.targetId LinkMeta.value LinkMeta.prior].
  unfold accumulate. rewrite !loss_touch_ensure.
  generalize (lossPrefix ++ tgtOf nts row)%string.
  generalize (srcOf nts row) (tgtOf nts row). intros src tgt loss.
  destruct (Js.ltb (valOf nts row) Js.zero).
  - destruct (decide (loss = id)) as [->|El], (decide (src = id)) as [->|Es],
      (decide (tgt = id)) as [->|Et];
      lookups;
      rewrite ?(bool_decide_eq_true_2 (id = id)) by done;
      rewrite ?(bool_decide_eq_false_2 (tgt = id)) by done;
      rewrite ?(bool_decide_eq_false_2 (src = id)) by done;
      rewrite ?(bool_decide_eq_false_2 (loss = id)) by done;
      destruct (OMap.get id (nodeTotals st)) as [t|]; cbn; try done;
      by destruct t.
  - destruct (decide (src = id)) as [->|Es], (decide (tgt = id)) as [->|Et];
      lookups;
      rewrite ?(bool_decide_eq_true_2 (id = id)) by done;
      rewrite ?(bool_decide_eq_false_2 (tgt = id)) by done;
      rewrite ?(bool_decide_eq_false_2 (src = id)) by done;
      destruct (OMap.get id (nodeTotals st)) as [t|]; cbn; try done;
      by destruct t.
Qed.

Lemma loss_keys_processRow st row :
  NoDup (OMap.keys (nodeTotals st)) ->
  NoDup (OMap.keys (nodeTotals (processRow nts st row))).
Proof.
  intros Hnd. destruct (skipped row) eqn:E.
  - by rewrite loss_processRow_skipped.
  - rewrite loss_processRow_accepted by done. cbv zeta. cbn [nodeTotals].
    unfold accumulate.
    destruct (Js.ltb _ _);
      rewrite !OMapFacts.keys_alter, ?loss_touch_ensure;
      repeat apply OMapFacts.keys_ensure_NoDup;
      rewrite ?OMapFacts.keys_alter;
      repeat apply OMapFacts.keys_ensure_NoDup; done.
Qed.

Lemma loss_tallied_initial : lossTallied initial.
Proof.
  split; [apply NoDup_nil_2|]. intros id. cbn.
  intros l Hl. by apply elem_of_nil in Hl.
Qed.

Lemma loss_tallied_processRow st row :
  lossTallied st -> lossTallied (processRow nts st row).
Proof.
  intros [Hnd Hst]. split; [by apply loss_keys_processRow|].
  destruct (skipped row) eqn:E.
  { by rewrite loss_processRow_skipped. }
  intros id. rewrite loss_get_processRow by done.
  rewrite loss_processRow_accepted by done.
  cbv zeta. cbn [linkMeta]. rewrite !throughput_snoc.
  specialize (Hst id).
  destruct (OMap.get id (nodeTotals st)) as [t|].
  - cbn -[throughput bothWays]. by destruct Hst as (-> & ->).
  - rewrite !throughput_none by done.
    destruct (leaves id (lossLinkOf nts row)) eqn:Es,
             (enters id (lossLinkOf nts row)) eqn:Et;
      cbn -[throughput bothWays]; try done.
    + by rewrite orb_true_r.
    + destruct (bool_decide (tgtOf nts row = id)); [done|].
      apply unmentioned_snoc; [done| |].
      * by apply bool_decide_eq_false in Es.
      * by apply bool_decide_eq_false in Et.
Qed.

Lemma loss_tallied_fold rows st :
  lossTallied st -> lossTallied (fold_left (processRow nts) rows st).
Proof.
  revert st. induction rows as [|row rows IH]; intros st H; cbn; [done|].
  by apply IH, loss_tallied_processRow.
Qed.

Lemma loss_tallied_processRows rows : lossTallied (processRows nts rows).
Proof. apply loss_tallied_fold, loss_tallied_initial. Qed.

Lemma loss_buildNodeMeta_fmap nt :
  NoDup (OMap.keys nt) ->
  buildNodeMeta nt = (fun '(id, t) => (id, metaOf id t)) <$> nt.
Proof.
  intros H. unfold buildNodeMeta.
  by rewrite (OMapFacts.fold_set_fmap metaOf nt []).
Qed.

(** The parser returns a graph exactly on two rows or more. *)
Lemma loss_parseExcelData_Return rawValues :
  (2 <= length rawValues)%nat ->
  parseExcelData nts rawValues =
  let st := processRows nts (dataRows nts rawValues) in
  Return {| GraphData.nodeMeta := (fun '(id, t) => (id, metaOf id t)) <$> nodeTotals st;
            GraphData.linkMeta := lossLinkOf nts <$> accepted (dataRows nts rawValues);
            GraphData.sankeyNodes := OMap.keys (nodeTotals st);
            GraphData.sankeyLinks :=
              rendered <$> (lossLinkOf nts <$> accepted (dataRows nts rawValues)) |}.
Proof.
  intros H. unfold parseExcelData.
  destruct (Nat.ltb_spec (length rawValues) 2) as [?|_]; [lia|].
  cbv zeta. rewrite loss_buildNodeMeta_fmap by apply loss_tallied_processRows.
  unfold processRows. by rewrite loss_linkMeta_fold, loss_sankeyLinks_fold.
Qed.

Lemma loss_parseExcelData_Throw rawValues :
  (length rawValues < 2)%nat -> parseExcelData nts rawValues = Throw selectionError.
Proof.
  intros H. unfold parseExcelData.
  by destruct (Nat.ltb_spec (length rawValues) 2) as [_|?]; [|lia].
Qed.
(** Every [nodeTotals.get(id)!] of the loop finds its entry. *)
Lemma loss_entries_present nt src tgt loss a p :
  OMap.has src (touch tgt (touch src nt)) = true /\
  OMap.has tgt (accumulate src a p (touch tgt (touch src nt))) = true /\
  OMap.has loss (touch loss (accumulate src a p (touch tgt (touch src nt)))) = true.
Proof.
  rewrite !loss_touch_ensure. split; [|split].
  - apply OMapFacts.has_ensure_mono, OMapFacts.has_ensure.
  - apply OMapFacts.has_alter_mono, OMapFacts.has_ensure.
  - apply OMapFacts.has_ensure.
Qed.
End facts.
End LossRoutingFacts.

(** ** Validation of the input *)

(** C6: with fewer than two rows the parser throws the error that asks for
    a header and one data row, in both revisions, and returns no graph. *)
Theorem too_few_rows_throw (nts : Js.number -> string) (rawValues : list (list cell)) :
  (length rawValues < 2)%nat ->
  LossRouting.parseExcelData nts rawValues = Throw selectionError /\
  SignCategory.parseExcelData nts rawValues = Throw selectionError.
Proof.
  intros H. split.
  - by apply LossRoutingFacts.loss_parseExcelData_Throw.
  - by apply SignCategoryFacts.sign_parseExcelData_Throw.
Qed.

(** A single row: the error is thrown. *)
Lemma too_few_rows_throw_one_row :
  (length [plainRow] < 2)%nat /\
  LossRouting.parseExcelData showNumber [plainRow] = Throw selectionError /\
  SignCategory.parseExcelData showNumber [plainRow] = Throw selectionError.
Proof.
  split; [cbn; lia|].
  apply (too_few_rows_throw showNumber [plainRow]).
  cbn; lia.
Defined.

(** ** Rows without a label *)

Lemma falsyLabel_truthy c : falsyLabel c -> truthy c = false.
Proof. by intros [-> | [-> | [-> | ->]]]. Qed.

Lemma falsyLabel_skipped row :
  falsyLabel (row !! 0%nat) \/ falsyLabel (row !! 1%nat) -> skipped row = true.
Proof.
  unfold skipped. intros [H|H]; rewrite (falsyLabel_truthy _ H); cbn; [done|].
  apply orb_true_r.
Qed.

Lemma dataRows_cons nts first rest :
  dataRows nts (first :: rest) = if hasHeader nts first then rest else first :: rest.
Proof. unfold dataRows. by destruct (hasHeader nts first). Qed.

Lemma dataRows_middle nts first before row after :
  exists pre,
    dataRows nts (first :: before ++ row :: after) = pre ++ row :: after /\
    dataRows nts (first :: before ++ after) = pre ++ after.
Proof.
  rewrite !dataRows_cons. destruct (hasHeader nts first).
  - by exists before.
  - by exists (first :: before).
Qed.

(** C10: a row whose first or second cell is absent, the empty text, the
    number 0 or the boolean false leaves the state of the loop as it is, so
    the graph is the graph of the input without that row; both revisions. *)
Theorem falsy_label_row_dropped (nts : Js.number -> string) (row : list cell) :
  falsyLabel (row !! 0%nat) \/ falsyLabel (row !! 1%nat) ->
  (forall st, LossRouting.processRow nts st row = st) /\
  (forall st, SignCategory.processRow nts st row = st) /\
  (forall first before after,
     (1 <= length (before ++ after))%nat ->
     LossRouting.parseExcelData nts (first :: before ++ row :: after) =
       LossRouting.parseExcelData nts (first :: before ++ after) /\
     SignCategory.parseExcelData nts (first :: before ++ row :: after) =
       SignCategory.parseExcelData nts (first :: before ++ after)).
Proof.
  intros H. apply falsyLabel_skipped in H.
  split; [|split].
  - intros st. by apply LossRoutingFacts.loss_processRow_skipped.
  - intros st. by apply SignCategoryFacts.sign_processRow_skipped.
  - intros first before after Hlen.
    destruct (dataRows_middle nts first before row after) as (pre & E1 & E2).
    unfold LossRouting.parseExcelData, SignCategory.parseExcelData.
    rewrite E1, E2. cbn [length]. rewrite !length_app in *. cbn [length].
    destruct (Nat.ltb_spec (S (length before + S (length after))) 2) as [?|_]; [lia|].
    destruct (Nat.ltb_spec (S (length before + length after)) 2) as [?|_]; [lia|].
    unfold LossRouting.processRows, SignCategory.processRows.
    rewrite !fold_left_app. cbn [fold_left].
    rewrite LossRoutingFacts.loss_processRow_skipped by done.
    by rewrite SignCategoryFacts.sign_processRow_skipped by done.
Qed.

(** The number 0 as a source label and [false] as a target label. *)
Lemma falsy_label_row_dropped_zero_and_false :
  ((falsyLabel (zeroLabelRow !! 0%nat) \/ falsyLabel (zeroLabelRow !! 1%nat)) /\
   LossRouting.parseExcelData showNumber (headerRow :: [plainRow] ++ zeroLabelRow :: []) =
     LossRouting.parseExcelData showNumber (headerRow :: [plainRow] ++ []) /\
   SignCategory.parseExcelData showNumber (headerRow :: [plainRow] ++ zeroLabelRow :: []) =
     SignCategory.parseExcelData showNumber (headerRow :: [plainRow] ++ [])) /\
  ((falsyLabel (falseLabelRow !! 0%nat) \/ falsyLabel (falseLabelRow !! 1%nat)) /\
   LossRouting.parseExcelData showNumber (headerRow :: [plainRow] ++ falseLabelRow :: []) =
     LossRouting.parseExcelData showNumber (headerRow :: [plainRow] ++ []) /\
   SignCategory.parseExcelData showNumber (headerRow :: [plainRow] ++ falseLabelRow :: []) =
     SignCategory.parseExcelData showNumber (headerRow :: [plainRow] ++ [])).
Proof.
  assert (falsyLabel (zeroLabelRow !! 0%nat) \/ falsyLabel (zeroLabelRow !! 1%nat)) as Hz.
  { left. right. right. left. reflexivity. }
  assert (falsyLabel (falseLabelRow !! 0%nat) \/ falsyLabel (falseLabelRow !! 1%nat)) as Hf.
  { right. right. right. right. reflexivity. }
  split; (split; [assumption|]).
  - apply (falsy_label_row_dropped showNumber zeroLabelRow Hz); cbn; lia.
  - apply (falsy_label_row_dropped showNumber falseLabelRow Hf); cbn; lia.
Defined.

(** ** Malformed numeric cells *)

Lemma parseNum_unparseable nts c : unparseable nts c -> parseNum nts c = Js.zero.
Proof.
  intros [Hc Hnan]. unfold parseNum.
  destruct c as [[s|x|b]|]; try (by rewrite Hnan).
  by destruct (Hc x).
Qed.

Lemma accepted_elem row rows : row ∈ rows -> skipped row = false -> row ∈ accepted rows.
Proof. intros Hin Hs. unfold accepted. apply list_elem_of_filter. done. Qed.

(** Every row after the first is a data row, and so is the first row
    unless it is taken for a header. *)
Lemma data_row_at nts (rawValues : list (list cell)) i row :
  rawValues !! i = Some row ->
  (i = 0%nat -> hasHeader nts row = false) ->
  row ∈ dataRows nts rawValues.
Proof.
  intros Hrow Hfirst. destruct rawValues as [|first rest]; [done|].
  rewrite dataRows_cons. destruct i as [|i].
  - injection Hrow as ->. rewrite Hfirst by done. apply list_elem_of_here.
  - cbn in Hrow. apply list_elem_of_lookup_2 in Hrow.
    destruct (hasHeader nts first); [done | by apply list_elem_of_further].
Qed.

(** C8, as stated, fails for the first row of a sheet without a header
    row: its amount, a text that holds no number, makes the header test
    take the row for a header, and the row is dropped; its labels X and Y
    are not in the graph. *)
Lemma malformed_amount_in_first_row_drops_it :
  exists gL gS first,
    malformedFirstRows !! 0%nat = Some first /\
    skipped first = false /\
    unparseable showNumber (first !! 2%nat) /\
    hasHeader showNumber first = true /\
    dataRows showNumber malformedFirstRows = [plainRow] /\
    LossRouting.parseExcelData showNumber malformedFirstRows = Return gL /\
    SignCategory.parseExcelData showNumber malformedFirstRows = Return gS /\
    GraphData.sankeyNodes gL = ["A"; "B"]%string /\
    GraphData.sankeyNodes gS = ["A"; "B"]%string /\
    LinkMeta.sourceId <$> GraphData.linkMeta gL = ["A"]%string /\
    LinkMeta.sourceId <$> GraphData.linkMeta gS = ["A"]%string /\
    ~ (forall row,
         row ∈ malformedFirstRows -> skipped row = false ->
         unparseable showNumber (row !! 2%nat) ->
         signLinkOf showNumber row ∈ GraphData.linkMeta gS).
Proof.
  eexists. eexists. eexists.
  split; [reflexivity|]. split; [reflexivity|].
  assert (unparseable showNumber ([txt "X"; txt "Y"; txt "n/a"; num 1] !! 2%nat)) as Hu.
  { split; [intros x; discriminate | reflexivity]. }
  split; [exact Hu|]. split; [reflexivity|]. split; [reflexivity|].
  split; [reflexivity|]. split; [reflexivity|]. split; [reflexivity|].
  split; [reflexivity|]. split; [reflexivity|]. split; [reflexivity|].
  intros H. specialize (H _ (list_elem_of_here _ _) eq_refl Hu).
  apply (list_elem_of_fmap_2 LinkMeta.sourceId) in H.
  cbn in H. apply list_elem_of_singleton in H. discriminate.
Qed.

(** C8, amended: in a data row, which is every row after the first and
    the first row unless the header test takes it for a header, an amount
    or prior-amount cell that is not a number and from which [parseFloat]
    reads none, after trimming, removing white space and turning the first
    comma into a period, counts as 0; the row still yields its edge and
    the parser still returns a graph; both revisions. *)
Theorem unparseable_cell_counts_as_zero
    (nts : Js.number -> string) (rawValues : list (list cell)) (i : nat)
    (row : list cell) :
  (2 <= length rawValues)%nat ->
  rawValues !! i = Some row ->
  (i = 0%nat -> hasHeader nts row = false) ->
  skipped row = false ->
  unparseable nts (row !! 2%nat) \/ unparseable nts (orZero (row !! 3%nat)) ->
  row ∈ dataRows nts rawValues /\
  (unparseable nts (row !! 2%nat) ->
     valOf nts row = Js.zero /\
     LinkMeta.value (lossLinkOf nts row) = Js.zero /\
     LinkMeta.value (signLinkOf nts row) = Js.zero) /\
  (unparseable nts (orZero (row !! 3%nat)) ->
     priorOf nts row = Js.zero /\
     LinkMeta.prior (lossLinkOf nts row) = Js.zero /\
     LinkMeta.prior (signLinkOf nts row) = Js.zero) /\
  (exists g, LossRouting.parseExcelData nts rawValues = Return g /\
             lossLinkOf nts row ∈ GraphData.linkMeta g) /\
  (exists g, SignCategory.parseExcelData nts rawValues = Return g /\
             signLinkOf nts row ∈ GraphData.linkMeta g).
Proof.
  intros Hlen Hrow Hfirst Hs _.
  pose proof (data_row_at nts rawValues i row Hrow Hfirst) as Hin.
  split; [exact Hin|]. repeat split.
  - by apply parseNum_unparseable.
  - cbn. unfold valOf. rewrite parseNum_unparseable by done. apply JsFacts.abs_zero.
  - cbn. unfold valOf. rewrite parseNum_unparseable by done. apply JsFacts.abs_zero.
  - by apply parseNum_unparseable.
  - cbn. unfold priorOf. rewrite parseNum_unparseable by done. apply JsFacts.abs_zero.
  - cbn. unfold priorOf. rewrite parseNum_unparseable by done. apply JsFacts.abs_zero.
  - eexists. split; [by apply LossRoutingFacts.loss_parseExcelData_Return|].
    cbn. apply list_elem_of_fmap. exists row. split; [done|]. by apply accepted_elem.
  - eexists. split; [by apply SignCategoryFacts.sign_parseExcelData_Return|].
    cbn. apply list_elem_of_fmap. exists row. split; [done|]. by apply accepted_elem.
Qed.

Lemma malformedRow_amount : unparseable showNumber (malformedRow !! 2%nat).
Proof. split; [intros x; discriminate | reflexivity]. Qed.

Lemma malformedRow_prior : unparseable showNumber (orZero (malformedRow !! 3%nat)).
Proof. split; [intros x; discriminate | reflexivity]. Qed.

(** A text without a number and a boolean in the numeric columns of the
    row after the header. *)
Lemma unparseable_cell_counts_as_zero_malformedRow :
  (2 <= length [headerRow; malformedRow])%nat /\
  [headerRow; malformedRow] !! 1%nat = Some malformedRow /\
  skipped malformedRow = false /\
  (unparseable showNumber (malformedRow !! 2%nat) \/
   unparseable showNumber (orZero (malformedRow !! 3%nat))) /\
  (valOf showNumber malformedRow = Js.zero /\
   LinkMeta.value (lossLinkOf showNumber malformedRow) = Js.zero /\
   LinkMeta.value (signLinkOf showNumber malformedRow) = Js.zero) /\
  (exists g, SignCategory.parseExcelData showNumber [headerRow; malformedRow] = Return g /\
             signLinkOf showNumber malformedRow ∈ GraphData.linkMeta g).
Proof.
  assert (2 <= length [headerRow; malformedRow])%nat as Hlen by (cbn; lia).
  assert (skipped malformedRow = false) as Hs by reflexivity.
  pose proof (unparseable_cell_counts_as_zero showNumber [headerRow; malformedRow]
                1%nat malformedRow Hlen eq_refl ltac:(discriminate) Hs
                (or_introl malformedRow_amount))
    as (_ & Hval & _ & _ & Hsign).
  repeat split; try assumption;
    try (left; apply malformedRow_amount); apply (Hval malformedRow_amount).
Defined.

(** ** Header detection *)

Lemma isNaN_true x : Js.isNaN x = true <-> x = Js.NaN.
Proof. by destruct x. Qed.

(** C7, as stated, fails: the boolean [true] in the third cell of the first
    row does not parse as a number, and yet the row is not taken for a
    header and stays among the data rows. *)
Lemma header_iff_not_numeric_fails :
  numeric showNumber (booleanAmountRow !! 2%nat) = false /\
  hasHeader showNumber booleanAmountRow = false /\
  dataRows showNumber [booleanAmountRow; plainRow] = [booleanAmountRow; plainRow] /\
  ~ (hasHeader showNumber booleanAmountRow = true <->
     numeric showNumber (booleanAmountRow !! 2%nat) = false).
Proof.
  repeat split; try reflexivity.
  intros [_ H]. discriminate (H eq_refl).
Qed.

(** C7, amended: the first row is a header, and is left out of the data
    rows, exactly when its third cell is a text from which [parseFloat]
    reads no number once the first comma is a period; a number, a boolean
    or no third cell at all keeps the row as data.  The row
    Source, Target, Amount, Prior is left out; the row A, B, 100, 90 is
    kept. *)
Theorem header_iff_text_not_numeric (nts : Js.number -> string)
    (first : list cell) (rest : list (list cell)) :
  (hasHeader nts first = true <->
   exists s, first !! 2%nat = Some (CString s) /\
             Js.parseFloat (Js.replace "," "." s) = Js.NaN) /\
  dataRows nts (first :: rest) = (if hasHeader nts first then rest else first :: rest) /\
  hasHeader nts headerRow = true /\
  dataRows nts (headerRow :: rest) = rest /\
  hasHeader nts plainRow = false /\
  dataRows nts (plainRow :: rest) = plainRow :: rest.
Proof.
  split; [|split; [apply dataRows_cons | repeat split]].
  unfold hasHeader. split.
  - intros H. apply andb_true_iff in H as [Hs Hn].
    destruct (first !! 2%nat) as [[s|x|b]|]; try discriminate.
    exists s. split; [done|]. by apply isNaN_true in Hn.
  - intros (s & -> & Hn). cbn. by rewrite Hn.
Qed.

(** The header test does not remove white space, as [parseNum] does: the
    first row A, B, "- 5", 1 counts as a header although [parseNum] reads
    -5 from its third cell. *)
Lemma header_test_keeps_white_space :
  hasHeader showNumber [txt "A"; txt "B"; txt "- 5"; num 1] = true /\
  parseNum showNumber (Some (txt "- 5")) = Js.ofZ (-5).
Proof. split; [reflexivity | by_compute]. Qed.

(** ** What the returned graph holds *)

Lemma rowYoy_law v p : yoyLaw v p (rowYoy v p).
Proof.
  unfold yoyLaw, rowYoy. destruct (Js.strictNeq p Js.zero) eqn:E.
  - assert (p <> Js.zero) as Hp.
    { intros Hp. apply JsFacts.strictNeq_zero in Hp. congruence. }
    split; [split; [discriminate | done] | done].
  - apply JsFacts.strictNeq_zero in E. split; [done | by intros []].
Qed.

Lemma nodeYoy_law v p : JsFacts.magnitude p -> yoyLaw v p (nodeYoy v p).
Proof.
  intros Hp. unfold JsFacts.magnitude in Hp.
  pose proof (rowYoy_law v p) as H. unfold rowYoy, yoyLaw in H.
  unfold nodeYoy, yoyLaw. rewrite Hp in *. exact H.
Qed.

Lemma sign_links_magnitude nts (rows : list (list cell)) l :
  l ∈ signLinkOf nts <$> rows ->
  JsFacts.magnitude (LinkMeta.value l) /\ JsFacts.magnitude (LinkMeta.prior l).
Proof.
  intros H. apply list_elem_of_fmap in H as (row & -> & _).
  split; apply JsFacts.magnitude_abs.
Qed.

Lemma loss_links_magnitude nts (rows : list (list cell)) l :
  l ∈ lossLinkOf nts <$> rows ->
  JsFacts.magnitude (LinkMeta.value l) /\ JsFacts.magnitude (LinkMeta.prior l).
Proof.
  intros H. apply list_elem_of_fmap in H as (row & -> & _).
  split; apply JsFacts.magnitude_abs.
Qed.

Lemma sign_parse_inv nts rawValues g :
  SignCategory.parseExcelData nts rawValues = Return g ->
  (2 <= length rawValues)%nat /\
  GraphData.linkMeta g = signLinkOf nts <$> accepted (dataRows nts rawValues) /\
  GraphData.sankeyLinks g = rendered <$> GraphData.linkMeta g /\
  GraphData.sankeyNodes g = (GraphData.nodeMeta g).*1.
Proof.
  intros H. destruct (le_lt_dec 2 (length rawValues)) as [Hlen|Hlen].
  - rewrite SignCategoryFacts.sign_parseExcelData_Return in H by done.
    injection H as <-. cbn. repeat split; try done.
    unfold OMap.keys. rewrite <- list_fmap_compose. apply list_fmap_ext.
    by intros ? [? ?].
  - by rewrite SignCategoryFacts.sign_parseExcelData_Throw in H.
Qed.

Lemma loss_parse_inv nts rawValues g :
  LossRouting.parseExcelData nts rawValues = Return g ->
  (2 <= length rawValues)%nat /\
  GraphData.linkMeta g = lossLinkOf nts <$> accepted (dataRows nts rawValues) /\
  GraphData.sankeyLinks g = rendered <$> GraphData.linkMeta g /\
  GraphData.sankeyNodes g = (GraphData.nodeMeta g).*1.
Proof.
  intros H. destruct (le_lt_dec 2 (length rawValues)) as [Hlen|Hlen].
  - rewrite LossRoutingFacts.loss_parseExcelData_Return in H by done.
    injection H as <-. cbn. repeat split; try done.
    unfold OMap.keys. rewrite <- list_fmap_compose. apply list_fmap_ext.
    by intros ? [? ?].
  - by rewrite LossRoutingFacts.loss_parseExcelData_Throw in H.
Qed.

(** The entry of a node in the sign-as-category revision. *)
Lemma sign_node nts rawValues g id m :
  SignCategory.parseExcelData nts rawValues = Return g ->
  (id, m) ∈ GraphData.nodeMeta g ->
  NodeMeta.id m = id /\
  NodeMeta.totalValue m =
    Js.max (flowIn (GraphData.linkMeta g) id) (flowOut (GraphData.linkMeta g) id) /\
  NodeMeta.totalPrior m =
    Js.max (priorIn (GraphData.linkMeta g) id) (priorOut (GraphData.linkMeta g) id) /\
  NodeMeta.yoyPct m = nodeYoy (NodeMeta.totalValue m) (NodeMeta.totalPrior m).
Proof.
  intros H Hin. destruct (sign_parse_inv _ _ _ H) as (Hlen & _).
  rewrite SignCategoryFacts.sign_parseExcelData_Return in H by done.
  injection H as <-. cbn in *.
  apply list_elem_of_fmap in Hin as ([id' t] & [= -> ->] & Hin).
  destruct (SignCategoryFacts.sign_tallied_processRows nts (dataRows nts rawValues))
    as [Hnd Hst].
  specialize (Hst id'). rewrite (OMapFacts.elem_get _ _ _ Hnd Hin) in Hst.
  unfold SignCategory.processRows in Hst.
  rewrite SignCategoryFacts.sign_linkMeta_fold in Hst. cbn in Hst.
  destruct Hst as (Hi & Ho & Hpi & Hpo). cbn.
  by rewrite Hi, Ho, Hpi, Hpo.
Qed.

(** The entry of a node in the loss-routing revision. *)
Lemma loss_node nts rawValues g id m :
  LossRouting.parseExcelData nts rawValues = Return g ->
  (id, m) ∈ GraphData.nodeMeta g ->
  NodeMeta.id m = id /\
  NodeMeta.totalValue m = throughput LinkMeta.value (GraphData.linkMeta g) id /\
  NodeMeta.totalPrior m = throughput LinkMeta.prior (GraphData.linkMeta g) id /\
  NodeMeta.yoyPct m = nodeYoy (NodeMeta.totalValue m) (NodeMeta.totalPrior m).
Proof.
  intros H Hin. destruct (loss_parse_inv _ _ _ H) as (Hlen & _).
  rewrite LossRoutingFacts.loss_parseExcelData_Return in H by done.
  injection H as <-. cbn in *.
  apply list_elem_of_fmap in Hin as ([id' t] & [= -> ->] & Hin).
  destruct (LossRoutingFacts.loss_tallied_processRows nts (dataRows nts rawValues))
    as [Hnd Hst].
  specialize (Hst id'). rewrite (OMapFacts.elem_get _ _ _ Hnd Hin) in Hst.
  unfold LossRouting.processRows in Hst.
  rewrite LossRoutingFacts.loss_linkMeta_fold in Hst. cbn in Hst.
  destruct Hst as (Hv & Hp). cbn.
  by rewrite Hv, Hp.
Qed.

Lemma sign_node_magnitude nts rawValues g id m :
  SignCategory.parseExcelData nts rawValues = Return g ->
  (id, m) ∈ GraphData.nodeMeta g ->
  JsFacts.magnitude (NodeMeta.totalValue m) /\ JsFacts.magnitude (NodeMeta.totalPrior m).
Proof.
  intros H Hin. destruct (sign_node _ _ _ _ _ H Hin) as (_ & -> & -> & _).
  destruct (sign_parse_inv _ _ _ H) as (_ & -> & _).
  split; apply JsFacts.magnitude_max; apply flowBy_magnitude;
    intros l Hl; by apply sign_links_magnitude in Hl as [? ?].
Qed.

Lemma loss_node_magnitude nts rawValues g id m :
  LossRouting.parseExcelData nts rawValues = Return g ->
  (id, m) ∈ GraphData.nodeMeta g ->
  JsFacts.magnitude (NodeMeta.totalValue m) /\ JsFacts.magnitude (NodeMeta.totalPrior m).
Proof.
  intros H Hin. destruct (loss_node _ _ _ _ _ H Hin) as (_ & -> & -> & _).
  destruct (loss_parse_inv _ _ _ H) as (_ & -> & _).
  split; apply throughput_magnitude;
    intros l Hl; by apply loss_links_magnitude in Hl as [? ?].
Qed.

(** ** Year over year *)

(** C1, as stated, fails: for a current amount of 100 and a prior amount of
    -50 the edge carries +300 in both revisions, the change relative to the
    magnitude 50 of the prior; with the signed prior as the divisor it would
    carry -300. *)
Lemma yoy_signed_divisor_fails :
  valOf showNumber negativePriorRow = Js.ofZ 100 /\
  priorOf showNumber negativePriorRow = Js.ofZ (-50) /\
  (exists g l,
     LossRouting.parseExcelData showNumber [headerRow; negativePriorRow] = Return g /\
     GraphData.linkMeta g = [l] /\
     LinkMeta.yoyPct l = Some (Js.ofZ 300) /\
     ~ signedYoyLaw (Js.ofZ 100) (Js.ofZ (-50)) (LinkMeta.yoyPct l)) /\
  (exists g l,
     SignCategory.parseExcelData showNumber [headerRow; negativePriorRow] = Return g /\
     GraphData.linkMeta g = [l] /\
     LinkMeta.yoyPct l = Some (Js.ofZ 300) /\
     ~ signedYoyLaw (Js.ofZ 100) (Js.ofZ (-50)) (LinkMeta.yoyPct l)).
Proof.
  assert (Js.ofZ (-50) <> Js.zero) as Hne by (intros H; by_compute || discriminate H).
  assert (forall y, y = Some (Js.ofZ 300) ->
                    ~ signedYoyLaw (Js.ofZ 100) (Js.ofZ (-50)) y) as Hno.
  { intros y -> [_ H]. specialize (H Hne). revert H. by_compute. }
  split; [by_compute|]. split; [by_compute|]. split.
  - eexists. eexists. split; [reflexivity|]. split; [reflexivity|].
    assert (LinkMeta.yoyPct (lossLinkOf showNumber negativePriorRow) = Some (Js.ofZ 300))
      as Hy by by_compute.
    split; [exact Hy | exact (Hno _ Hy)].
  - eexists. eexists. split; [reflexivity|]. split; [reflexivity|].
    assert (LinkMeta.yoyPct (signLinkOf showNumber negativePriorRow) = Some (Js.ofZ 300))
      as Hy by by_compute.
    split; [exact Hy | exact (Hno _ Hy)].
Qed.

Lemma accepted_lookup_fmap {A} (f : list cell -> A) rows i row :
  accepted rows !! i = Some row -> (f <$> accepted rows) !! i = Some (f row).
Proof. intros H. by rewrite list_lookup_fmap, H. Qed.

(** C1, amended: in both revisions the edge of the i-th accepted row has no
    percentage exactly when the parsed prior amount of the row is 0, and
    otherwise carries (current - prior) / |prior| * 100: the signed prior in
    the difference, its magnitude as the divisor.  Every node follows the
    same law on its aggregated totals, whose prior is a magnitude. *)
Theorem yoy_relative_to_prior_magnitude
    (nts : Js.number -> string) (rawValues : list (list cell)) (gL gS : GraphData.t) :
  LossRouting.parseExcelData nts rawValues = Return gL ->
  SignCategory.parseExcelData nts rawValues = Return gS ->
  (forall i row,
     accepted (dataRows nts rawValues) !! i = Some row ->
     (exists l, GraphData.linkMeta gL !! i = Some l /\
                yoyLaw (valOf nts row) (priorOf nts row) (LinkMeta.yoyPct l)) /\
     (exists l, GraphData.linkMeta gS !! i = Some l /\
                yoyLaw (valOf nts row) (priorOf nts row) (LinkMeta.yoyPct l))) /\
  (forall id m,
     (id, m) ∈ GraphData.nodeMeta gL \/ (id, m) ∈ GraphData.nodeMeta gS ->
     Js.abs (NodeMeta.totalPrior m) = NodeMeta.totalPrior m /\
     yoyLaw (NodeMeta.totalValue m) (NodeMeta.totalPrior m) (NodeMeta.yoyPct m)).
Proof.
  intros HL HS. split.
  - intros i row Hrow.
    destruct (loss_parse_inv _ _ _ HL) as (_ & -> & _).
    destruct (sign_parse_inv _ _ _ HS) as (_ & -> & _).
    split; eexists; (split; [by apply accepted_lookup_fmap|]); apply rowYoy_law.
  - intros id m [Hin|Hin].
    + destruct (loss_node_magnitude _ _ _ _ _ HL Hin) as [_ Hp].
      destruct (loss_node _ _ _ _ _ HL Hin) as (_ & _ & _ & ->).
      split; [exact Hp | by apply nodeYoy_law].
    + destruct (sign_node_magnitude _ _ _ _ _ HS Hin) as [_ Hp].
      destruct (sign_node _ _ _ _ _ HS Hin) as (_ & _ & _ & ->).
      split; [exact Hp | by apply nodeYoy_law].
Qed.

(** The law on the row with the negative prior amount. *)
Lemma yoy_relative_to_prior_magnitude_negative_prior :
  exists gL gS,
    LossRouting.parseExcelData showNumber [headerRow; negativePriorRow] = Return gL /\
    SignCategory.parseExcelData showNumber [headerRow; negativePriorRow] = Return gS /\
    accepted (dataRows showNumber [headerRow; negativePriorRow]) !! 0%nat =
      Some negativePriorRow /\
    (exists l, GraphData.linkMeta gS !! 0%nat = Some l /\
               yoyLaw (valOf showNumber negativePriorRow)
                 (priorOf showNumber negativePriorRow) (LinkMeta.yoyPct l)).
Proof.
  eexists. eexists.
  split; [reflexivity|]. split; [reflexivity|]. split; [reflexivity|].
  eapply (yoy_relative_to_prior_magnitude showNumber [headerRow; negativePriorRow]);
    reflexivity.
Defined.

(** ** The floor of the rendered links *)

(** C9: in both revisions the edge of the i-th accepted row records the
    true magnitudes of the current and the prior amount, and only the link
    handed to the layout carries [value || 0.001]: the positive floor 0.001
    for a zero amount.  The totals of every node are sums (and, in the
    sign-as-category revision, the maximum of two sums) of recorded edge
    values, so the floor enters no total. *)
Theorem floor_only_in_rendered_links
    (nts : Js.number -> string) (rawValues : list (list cell)) (gL gS : GraphData.t) :
  LossRouting.parseExcelData nts rawValues = Return gL ->
  SignCategory.parseExcelData nts rawValues = Return gS ->
  (forall i row,
     accepted (dataRows nts rawValues) !! i = Some row ->
     exists lL rL lS rS,
       GraphData.linkMeta gL !! i = Some lL /\ GraphData.sankeyLinks gL !! i = Some rL /\
       GraphData.linkMeta gS !! i = Some lS /\ GraphData.sankeyLinks gS !! i = Some rS /\
       LinkMeta.value lL = Js.abs (valOf nts row) /\
       LinkMeta.prior lL = Js.abs (priorOf nts row) /\
       LinkMeta.value lS = Js.abs (valOf nts row) /\
       LinkMeta.prior lS = Js.abs (priorOf nts row) /\
       SankeyLink.value rL = Js.orElse (Js.abs (valOf nts row)) Js.milli /\
       SankeyLink.value rS = Js.orElse (Js.abs (valOf nts row)) Js.milli /\
       (valOf nts row = Js.zero ->
        SankeyLink.value rL = Js.milli /\ SankeyLink.value rS = Js.milli /\
        LinkMeta.value lL = Js.zero /\ LinkMeta.value lS = Js.zero)) /\
  Js.ltb Js.zero Js.milli = true /\
  (forall id m,
     (id, m) ∈ GraphData.nodeMeta gL ->
     NodeMeta.totalValue m = throughput LinkMeta.value (GraphData.linkMeta gL) id /\
     NodeMeta.totalPrior m = throughput LinkMeta.prior (GraphData.linkMeta gL) id) /\
  (forall id m,
     (id, m) ∈ GraphData.nodeMeta gS ->
     NodeMeta.totalValue m =
       Js.max (flowIn (GraphData.linkMeta gS) id) (flowOut (GraphData.linkMeta gS) id) /\
     NodeMeta.totalPrior m =
       Js.max (priorIn (GraphData.linkMeta gS) id) (priorOut (GraphData.linkMeta gS) id)).
Proof.
  intros HL HS. split; [|split; [reflexivity|split]].
  - intros i row Hrow.
    destruct (loss_parse_inv _ _ _ HL) as (_ & EL & -> & _).
    destruct (sign_parse_inv _ _ _ HS) as (_ & ES & -> & _).
    rewrite EL, ES.
    exists (lossLinkOf nts row), (rendered (lossLinkOf nts row)),
           (signLinkOf nts row), (rendered (signLinkOf nts row)).
    rewrite !list_lookup_fmap, Hrow. cbn.
    repeat split; try done;
      match goal with H : valOf _ _ = Js.zero |- _ => rewrite H end;
      by rewrite ?JsFacts.abs_zero, ?JsFacts.orElse_zero.
  - intros id m Hin. destruct (loss_node _ _ _ _ _ HL Hin) as (_ & ? & ? & _). done.
  - intros id m Hin. destruct (sign_node _ _ _ _ _ HS Hin) as (_ & ? & ? & _). done.
Qed.

(** A row with the amount 0: the edge records 0, the rendered link 0.001. *)
Lemma floor_only_in_rendered_links_zero_amount :
  exists gL gS,
    LossRouting.parseExcelData showNumber [headerRow; zeroAmountRow] = Return gL /\
    SignCategory.parseExcelData showNumber [headerRow; zeroAmountRow] = Return gS /\
    accepted (dataRows showNumber [headerRow; zeroAmountRow]) !! 0%nat = Some zeroAmountRow /\
    valOf showNumber zeroAmountRow = Js.zero /\
    (exists lS rS,
       GraphData.linkMeta gS !! 0%nat = Some lS /\
       GraphData.sankeyLinks gS !! 0%nat = Some rS /\
       SankeyLink.value rS = Js.milli /\ LinkMeta.value lS = Js.zero).
Proof.
  eexists. eexists.
  split; [reflexivity|]. split; [reflexivity|]. split; [reflexivity|].
  assert (valOf showNumber zeroAmountRow = Js.zero) as Hz by by_compute.
  split; [exact Hz|].
  destruct (floor_only_in_rendered_links showNumber [headerRow; zeroAmountRow] _ _
              eq_refl eq_refl) as (Hrows & _).
  destruct (Hrows 0%nat zeroAmountRow eq_refl)
    as (lL & rL & lS & rS & _ & _ & HlS & HrS & _ & _ & _ & _ & _ & _ & Hzero).
  exists lS, rS. destruct (Hzero Hz) as (_ & ? & _ & ?). done.
Defined.

(** ** Node totals *)

Lemma throughput_no_enter f ls id :
  (forall l, l ∈ ls -> enters id l = false) ->
  throughput f ls id = flowBy (leaves id) f ls.
Proof.
  induction ls as [|l ls IH] using rev_ind; intros H; [done|].
  rewrite throughput_snoc, flowBy_snoc.
  rewrite IH by (intros l' Hl'; apply H, elem_of_app; by left).
  unfold bothWays. rewrite (H l) by (apply elem_of_app; right; apply list_elem_of_here).
  by destruct (leaves id l).
Qed.

Lemma throughput_no_leave f ls id :
  (forall l, l ∈ ls -> leaves id l = false) ->
  throughput f ls id = flowBy (enters id) f ls.
Proof.
  induction ls as [|l ls IH] using rev_ind; intros H; [done|].
  rewrite throughput_snoc, flowBy_snoc.
  rewrite IH by (intros l' Hl'; apply H, elem_of_app; by left).
  unfold bothWays. rewrite (H l) by (apply elem_of_app; right; apply list_elem_of_here).
  by destruct (enters id l).
Qed.

(** In the sign-as-category revision the total of every node is the larger
    of its incoming and its outgoing flow; for a node that no edge enters
    it is the outgoing flow, for a node that no edge leaves the incoming
    one. *)
Lemma sign_totalValue_larger_direction nts rawValues g id m :
  SignCategory.parseExcelData nts rawValues = Return g ->
  (id, m) ∈ GraphData.nodeMeta g ->
  NodeMeta.totalValue m =
    Js.max (flowIn (GraphData.linkMeta g) id) (flowOut (GraphData.linkMeta g) id) /\
  ((forall l, l ∈ GraphData.linkMeta g -> LinkMeta.targetId l <> id) ->
   NodeMeta.totalValue m = flowOut (GraphData.linkMeta g) id) /\
  ((forall l, l ∈ GraphData.linkMeta g -> LinkMeta.sourceId l <> id) ->
   NodeMeta.totalValue m = flowIn (GraphData.linkMeta g) id).
Proof.
  intros H Hin. destruct (sign_node _ _ _ _ _ H Hin) as (_ & Hv & _).
  destruct (sign_parse_inv _ _ _ H) as (_ & El & _).
  assert (forall p, JsFacts.magnitude (flowBy p LinkMeta.value (GraphData.linkMeta g))) as Hm.
  { intros p. apply flowBy_magnitude. intros l Hl. rewrite El in Hl.
    by apply sign_links_magnitude in Hl as [? ?]. }
  split; [done|]. rewrite Hv. split; intros Hnone.
  - unfold flowIn at 1. rewrite flowBy_none.
    + apply JsFacts.max_zero_l, Hm.
    + intros l Hl. apply bool_decide_eq_false_2. by apply Hnone.
  - unfold flowOut at 1. rewrite flowBy_none.
    + apply JsFacts.max_zero_r, Hm.
    + intros l Hl. apply bool_decide_eq_false_2. by apply Hnone.
Qed.

(** In the loss-routing revision the same holds for pure sources and pure
    sinks only: the single accumulator of a node adds both directions. *)
Lemma loss_totalValue_pure_source_or_sink nts rawValues g id m :
  LossRouting.parseExcelData nts rawValues = Return g ->
  (id, m) ∈ GraphData.nodeMeta g ->
  ((forall l, l ∈ GraphData.linkMeta g -> LinkMeta.targetId l <> id) ->
   NodeMeta.totalValue m = flowOut (GraphData.linkMeta g) id) /\
  ((forall l, l ∈ GraphData.linkMeta g -> LinkMeta.sourceId l <> id) ->
   NodeMeta.totalValue m = flowIn (GraphData.linkMeta g) id).
Proof.
  intros H Hin. destruct (loss_node _ _ _ _ _ H Hin) as (_ & -> & _).
  split; intros Hnone.
  - apply throughput_no_enter. intros l Hl. apply bool_decide_eq_false_2. by apply Hnone.
  - apply throughput_no_leave. intros l Hl. apply bool_decide_eq_false_2. by apply Hnone.
Qed.

(** C2 at the chain A -> B -> C with amounts 100 and 60, loss-routing
    revision: 100 flows into B and 60 out of it, the larger is 100, and the
    total of B is 160. *)
Lemma loss_routing_counts_both_directions :
  exists g m,
    LossRouting.parseExcelData showNumber chainRows = Return g /\
    OMap.get "B" (GraphData.nodeMeta g) = Some m /\
    flowIn (GraphData.linkMeta g) "B" = Js.ofZ 100 /\
    flowOut (GraphData.linkMeta g) "B" = Js.ofZ 60 /\
    Js.max (flowIn (GraphData.linkMeta g) "B") (flowOut (GraphData.linkMeta g) "B")
      = Js.ofZ 100 /\
    NodeMeta.totalValue m = Js.ofZ 160.
Proof.
  eexists. eexists. split; [reflexivity|]. split; [reflexivity|].
  repeat split; by_compute.
Qed.

(** The same input in the sign-as-category revision: the total of B is
    100. *)
Lemma sign_category_takes_larger_direction :
  exists g m,
    SignCategory.parseExcelData showNumber chainRows = Return g /\
    OMap.get "B" (GraphData.nodeMeta g) = Some m /\
    NodeMeta.totalValue m = Js.ofZ 100.
Proof.
  eexists. eexists. split; [reflexivity|]. split; [reflexivity|]. by_compute.
Qed.

(** ** Loss routing *)

Lemma startsWith_app p s : Js.startsWith p (p ++ s)%string = true.
Proof.
  unfold Js.startsWith. induction p as [|c p IH].
  - by destruct s.
  - change (String.prefix (String c p) (String c (p ++ s)) = true).
    cbn [String.prefix]. by destruct (ascii_dec c c).
Qed.

Lemma string_length_app (p s : string) :
  String.length (p ++ s)%string = (String.length p + String.length s)%nat.
Proof.
  induction p as [|c p IH]; [done|].
  change (S (String.length (p ++ s)%string) = S (String.length p + String.length s)).
  by rewrite IH.
Qed.

Lemma lossId_not_target s : (LossRouting.lossPrefix ++ s)%string <> s.
Proof.
  intros H. apply (f_equal String.length) in H.
  rewrite string_length_app in H. cbn in H. lia.
Qed.

(** C3, as stated, fails: the shadow node of X has the id [__loss__X], and
    a row may carry that very text as a label.  The loss edge of the first
    row and the ordinary edge of the second then end in one and the same
    node, whose total is the sum of both. *)
Lemma loss_id_collides_with_label :
  exists g m,
    LossRouting.parseExcelData showNumber collidingRows = Return g /\
    accepted (dataRows showNumber collidingRows) = [lossRow; shadowLabelRow] /\
    Js.ltb (valOf showNumber lossRow) Js.zero = true /\
    tgtOf showNumber shadowLabelRow = (LossRouting.lossPrefix ++ tgtOf showNumber lossRow)%string /\
    LinkMeta.targetId <$> GraphData.linkMeta g = ["__loss__X"; "__loss__X"]%string /\
    GraphData.sankeyNodes g = ["A"; "X"; "__loss__X"; "B"]%string /\
    OMap.get "__loss__X" (GraphData.nodeMeta g) = Some m /\
    NodeMeta.totalValue m = Js.ofZ 10 /\
    ~ (forall row, row ∈ accepted (dataRows showNumber collidingRows) ->
         tgtOf showNumber row <>
         (LossRouting.lossPrefix ++ tgtOf showNumber lossRow)%string).
Proof.
  eexists. eexists. split; [reflexivity|]. split; [reflexivity|].
  repeat split; try reflexivity; try by_compute.
  intros H. apply (H shadowLabelRow); [|reflexivity].
  apply list_elem_of_further, list_elem_of_here.
Qed.

(** C3, amended: in the loss-routing revision an accepted row with a
    negative amount adds one edge, from the declared source to the node
    whose id is the loss prefix followed by the declared target.  That id
    is not the declared target, and the entry of the declared target is
    created if absent but receives nothing unless the target is also the
    source of the row.  The id differs from every label that does not
    itself begin with the loss prefix. *)
Theorem negative_amount_routed_to_loss_node
    (nts : Js.number -> string) (st : LossRouting.acc) (row : list cell) :
  skipped row = false ->
  Js.ltb (valOf nts row) Js.zero = true ->
  exists l,
    LossRouting.linkMeta (LossRouting.processRow nts st row) =
      LossRouting.linkMeta st ++ [l] /\
    LossRouting.sankeyLinks (LossRouting.processRow nts st row) =
      LossRouting.sankeyLinks st ++ [rendered l] /\
    LinkMeta.sourceId l = srcOf nts row /\
    LinkMeta.targetId l = (LossRouting.lossPrefix ++ tgtOf nts row)%string /\
    LinkMeta.targetId l <> tgtOf nts row /\
    (tgtOf nts row <> srcOf nts row ->
     OMap.get (tgtOf nts row) (LossRouting.nodeTotals (LossRouting.processRow nts st row)) =
     Some (default LossRouting.noTotals
             (OMap.get (tgtOf nts row) (LossRouting.nodeTotals st)))) /\
    (forall label, Js.startsWith LossRouting.lossPrefix label = false ->
                   LinkMeta.targetId l <> label).
Proof.
  intros Hs Hneg. exists (lossLinkOf nts row).
  assert (LinkMeta.targetId (lossLinkOf nts row) =
          (LossRouting.lossPrefix ++ tgtOf nts row)%string) as Ht.
  { unfold lossLinkOf. cbn. by rewrite Hneg. }
  split; [|split; [|split; [|split; [|split; [|split]]]]].
  - by rewrite LossRoutingFacts.loss_processRow_accepted.
  - by rewrite LossRoutingFacts.loss_processRow_accepted.
  - reflexivity.
  - exact Ht.
  - rewrite Ht. apply lossId_not_target.
  - intros Hne. rewrite LossRoutingFacts.loss_get_processRow by done.
    cbv zeta. unfold bothWays, leaves, enters. rewrite Ht.
    cbn [LinkMeta.sourceId lossLinkOf].
    rewrite (bool_decide_eq_false_2 (srcOf nts row = tgtOf nts row)) by congruence.
    rewrite (bool_decide_eq_false_2 (_ = tgtOf nts row)) by apply lossId_not_target.
    rewrite (bool_decide_eq_true_2 (tgtOf nts row = tgtOf nts row)) by done.
    cbn. by destruct (OMap.get (tgtOf nts row) (LossRouting.nodeTotals st)) as [[? ?]|].
  - intros label Hl. rewrite Ht. intros <-.
    by rewrite startsWith_app in Hl.
Qed.

(** The loss row A -> X with the amount -5. *)
Lemma negative_amount_routed_to_loss_node_lossRow :
  skipped lossRow = false /\
  Js.ltb (valOf showNumber lossRow) Js.zero = true /\
  exists l,
    LossRouting.linkMeta (LossRouting.processRow showNumber LossRouting.initial lossRow) =
      LossRouting.linkMeta LossRouting.initial ++ [l] /\
    LinkMeta.sourceId l = "A"%string /\
    LinkMeta.targetId l = "__loss__X"%string /\
    OMap.get "X" (LossRouting.nodeTotals
                    (LossRouting.processRow showNumber LossRouting.initial lossRow)) =
      Some LossRouting.noTotals.
Proof.
  split; [reflexivity|]. split; [reflexivity|].
  destruct (negative_amount_routed_to_loss_node showNumber LossRouting.initial lossRow
              eq_refl eq_refl) as (l & Hl & _ & Hsrc & Htgt & _ & Hx & _).
  exists l. split; [exact Hl|]. split; [exact Hsrc|]. split; [exact Htgt|].
  apply Hx. discriminate.
Defined.

(** ** No dangling references *)

Lemma mentioned_has_entry (ls : list LinkMeta.t) (ks : list string) l :
  (forall id, id ∉ ks -> unmentioned ls id) -> l ∈ ls ->
  LinkMeta.sourceId l ∈ ks /\ LinkMeta.targetId l ∈ ks.
Proof.
  intros H Hl. split.
  - destruct (decide (LinkMeta.sourceId l ∈ ks)) as [?|Hn]; [done|].
    by destruct (H _ Hn l Hl) as [? _].
  - destruct (decide (LinkMeta.targetId l ∈ ks)) as [?|Hn]; [done|].
    by destruct (H _ Hn l Hl) as [_ ?].
Qed.

(** X1: both ends of every edge are nodes of the graph, in both revisions. *)
Lemma edges_end_in_nodes nts rawValues gL gS :
  LossRouting.parseExcelData nts rawValues = Return gL ->
  SignCategory.parseExcelData nts rawValues = Return gS ->
  (forall l, l ∈ GraphData.linkMeta gL ->
     LinkMeta.sourceId l ∈ GraphData.sankeyNodes gL /\
     LinkMeta.targetId l ∈ GraphData.sankeyNodes gL) /\
  (forall l, l ∈ GraphData.linkMeta gS ->
     LinkMeta.sourceId l ∈ GraphData.sankeyNodes gS /\
     LinkMeta.targetId l ∈ GraphData.sankeyNodes gS).
Proof.
  intros HL HS.
  destruct (loss_parse_inv _ _ _ HL) as (HlenL & _).
  destruct (sign_parse_inv _ _ _ HS) as (HlenS & _).
  rewrite LossRoutingFacts.loss_parseExcelData_Return in HL by done.
  rewrite SignCategoryFacts.sign_parseExcelData_Return in HS by done.
  injection HL as <-. injection HS as <-. cbn. split; intros l Hl.
  - destruct (LossRoutingFacts.loss_tallied_processRows nts (dataRows nts rawValues))
      as [_ Hst].
    apply (mentioned_has_entry
             (LossRouting.linkMeta (LossRouting.processRows nts (dataRows nts rawValues)))).
    + intros id Hid. specialize (Hst id).
      apply OMapFacts.get_None_keys in Hid. by rewrite Hid in Hst.
    + unfold LossRouting.processRows. by rewrite LossRoutingFacts.loss_linkMeta_fold.
  - destruct (SignCategoryFacts.sign_tallied_processRows nts (dataRows nts rawValues))
      as [_ Hst].
    apply (mentioned_has_entry
             (SignCategory.linkMeta (SignCategory.processRows nts (dataRows nts rawValues)))).
    + intros id Hid. specialize (Hst id).
      apply OMapFacts.get_None_keys in Hid. by rewrite Hid in Hst.
    + unfold SignCategory.processRows. by rewrite SignCategoryFacts.sign_linkMeta_fold.
Qed.

(** ** Stacking the links of a node *)

Implicit Types (ls : list LLink.t) (ns : list LNode.t).

Lemma shape_lookup ls1 ls2 k l1 :
  shape <$> ls1 = shape <$> ls2 -> ls1 !! k = Some l1 ->
  exists l2, ls2 !! k = Some l2 /\ shape l2 = shape l1.
Proof.
  intros Hs H1. apply (f_equal (fun xs => xs !! k)) in Hs.
  rewrite !list_lookup_fmap, H1 in Hs. cbn in Hs.
  destruct (ls2 !! k) as [l2|]; [|done]. exists l2. split; [done|].
  cbn in Hs. congruence.
Qed.

Lemma shape_lookup_None ls1 ls2 k :
  shape <$> ls1 = shape <$> ls2 -> ls1 !! k = None -> ls2 !! k = None.
Proof.
  intros Hs H1. apply (f_equal (fun xs => xs !! k)) in Hs.
  rewrite !list_lookup_fmap, H1 in Hs. cbn in Hs.
  by destruct (ls2 !! k).
Qed.

Lemma shape_width l1 l2 : shape l1 = shape l2 -> LLink.width l1 = LLink.width l2.
Proof. unfold shape. by intros [= _ _ _ ? _]. Qed.

Lemma fieldAgree_weaken f (X X' : nat -> Prop) ls1 ls2 :
  (forall k, X k -> X' k) -> fieldAgree f X ls1 ls2 -> fieldAgree f X' ls1 ls2.
Proof. intros HX H k l1 l2 H1 H2 Hk. apply (H k); auto. Qed.

Section Stack.
  (** An assignment to one of the two port fields: [f] is the field it
      sets, [g] the other one. *)
  Variables (set : Js.number -> LLink.t -> LLink.t) (f g : LLink.t -> Js.number).
  Hypothesis set_shape : forall v l, shape (set v l) = shape l.
  Hypothesis set_f : forall v l, f (set v l) = v.
  Hypothesis set_g : forall v l, g (set v l) = g l.

Lemma stack_shape st k : shape <$> (D3.stack set st k).2 = shape <$> st.2.
Proof.
  unfold D3.stack. destruct (st.2 !! k) as [l|] eqn:E; [|done]. cbn.
  rewrite list_fmap_insert, set_shape. apply list_insert_id.
  by rewrite list_lookup_fmap, E.
Qed.

Lemma stack_lookup_ne st k k' : k' <> k -> (D3.stack set st k).2 !! k' = st.2 !! k'.
Proof.
  intros Hne. unfold D3.stack. destruct (st.2 !! k) as [l|] eqn:E; [|done]. cbn.
  by apply list_lookup_insert_ne.
Qed.

Lemma stack_lookup_eq st k l' :
  (D3.stack set st k).2 !! k = Some l' ->
  exists l, st.2 !! k = Some l /\
            l' = set (Js.add st.1 (Js.div (LLink.width l) D3.two)) l.
Proof.
  unfold D3.stack. destruct (st.2 !! k) as [l|] eqn:E; cbn.
  - intros H. exists l. split; [done|].
    rewrite list_lookup_insert_eq in H by (by eapply lookup_lt_Some).
    by injection H.
  - by rewrite E.
Qed.

(** The running position depends on the widths only. *)
Lemma stack_position y ls1 ls2 k :
  shape <$> ls1 = shape <$> ls2 ->
  (D3.stack set (y, ls1) k).1 = (D3.stack set (y, ls2) k).1.
Proof.
  intros Hs. unfold D3.stack. cbn. destruct (ls1 !! k) as [l1|] eqn:E1.
  - destruct (shape_lookup _ _ _ _ Hs E1) as (l2 & -> & Hl). cbn.
    by rewrite (shape_width _ _ Hl).
  - by rewrite (shape_lookup_None _ _ _ Hs E1).
Qed.

(** The other field stays as it is. *)
Lemma stack_other X ya yb ls1 ls2 k :
  fieldAgree g X ls1 ls2 ->
  fieldAgree g X (D3.stack set (ya, ls1) k).2 (D3.stack set (yb, ls2) k).2.
Proof.
  intros H k' l1' l2' H1 H2 Hk. destruct (decide (k' = k)) as [->|Hne].
  - apply stack_lookup_eq in H1 as (l1 & H1 & ->).
    apply stack_lookup_eq in H2 as (l2 & H2 & ->).
    rewrite !set_g. by apply (H k).
  - rewrite stack_lookup_ne in H1, H2 by done. by apply (H k').
Qed.

(** Stacked from the same position, the two arrays agree at [k]. *)
Lemma stack_sync (X X' : nat -> Prop) y ls1 ls2 k :
  shape <$> ls1 = shape <$> ls2 ->
  (forall k', ~ X' k' -> k' = k \/ ~ X k') ->
  fieldAgree f X ls1 ls2 ->
  fieldAgree f X' (D3.stack set (y, ls1) k).2 (D3.stack set (y, ls2) k).2.
Proof.
  intros Hs HX H k' l1' l2' H1 H2 Hk. destruct (decide (k' = k)) as [->|Hne].
  - apply stack_lookup_eq in H1 as (l1 & H1 & ->).
    apply stack_lookup_eq in H2 as (l2 & H2 & ->).
    rewrite !set_f. cbn in *.
    destruct (shape_lookup _ _ _ _ Hs H1) as (l2' & E2 & Hl).
    rewrite H2 in E2. injection E2 as <-. by rewrite (shape_width _ _ Hl).
  - rewrite stack_lookup_ne in H1, H2 by done.
    destruct (HX k' Hk) as [?|HXk]; [done|]. by apply (H k').
Qed.

(** Stacked from different positions, they still agree away from [k]. *)
Lemma stack_async (X X' : nat -> Prop) ya yb ls1 ls2 k :
  (forall k', ~ X' k' -> k' <> k /\ ~ X k') ->
  fieldAgree f X ls1 ls2 ->
  fieldAgree f X' (D3.stack set (ya, ls1) k).2 (D3.stack set (yb, ls2) k).2.
Proof.
  intros HX H k' l1' l2' H1 H2 Hk. destruct (HX k' Hk) as [Hne HXk].
  rewrite stack_lookup_ne in H1, H2 by done. by apply (H k').
Qed.

Lemma fold_stack_shape ks st :
  shape <$> (fold_left (D3.stack set) ks st).2 = shape <$> st.2.
Proof.
  revert st. induction ks as [|k ks IH]; intros st; cbn; [done|].
  by rewrite IH, stack_shape.
Qed.

Lemma fold_stack_other X ks ya yb ls1 ls2 :
  shape <$> ls1 = shape <$> ls2 ->
  fieldAgree g X ls1 ls2 ->
  fieldAgree g X (fold_left (D3.stack set) ks (ya, ls1)).2
                 (fold_left (D3.stack set) ks (yb, ls2)).2.
Proof.
  revert ya yb ls1 ls2. induction ks as [|k ks IH]; intros ya yb ls1 ls2 Hs H; cbn; [done|].
  destruct (D3.stack set (ya, ls1) k) as [ya' ls1'] eqn:E1.
  destruct (D3.stack set (yb, ls2) k) as [yb' ls2'] eqn:E2.
  apply IH.
  - change ls1' with (ya', ls1').2. change ls2' with (yb', ls2').2.
    rewrite <- E1, <- E2. by rewrite !stack_shape.
  - change ls1' with (ya', ls1').2. change ls2' with (yb', ls2').2.
    rewrite <- E1, <- E2. by apply stack_other.
Qed.

Lemma fold_stack_sync (T : nat -> Prop) rest ks y ls1 ls2 :
  shape <$> ls1 = shape <$> ls2 ->
  fieldAgree f (fun k => T k \/ k ∈ ks ++ rest) ls1 ls2 ->
  fieldAgree f (fun k => T k \/ k ∈ rest)
    (fold_left (D3.stack set) ks (y, ls1)).2
    (fold_left (D3.stack set) ks (y, ls2)).2.
Proof.
  revert y ls1 ls2. induction ks as [|k ks IH]; intros y ls1 ls2 Hs H; cbn; [done|].
  pose proof (stack_position y ls1 ls2 k Hs) as Hy.
  destruct (D3.stack set (y, ls1) k) as [y1 ls1'] eqn:E1.
  destruct (D3.stack set (y, ls2) k) as [y2 ls2'] eqn:E2.
  cbn in Hy. subst y2. apply IH.
  - change ls1' with (y1, ls1').2. change ls2' with (y1, ls2').2.
    rewrite <- E1, <- E2. by rewrite !stack_shape.
  - change ls1' with (y1, ls1').2. change ls2' with (y1, ls2').2.
    rewrite <- E1, <- E2. eapply stack_sync; [done| |exact H].
    intros k' Hk'. destruct (decide (k' = k)) as [->|Hne]; [by left|right].
    intros [HT|Hin]; apply Hk'; [by left|right].
    cbn in Hin. apply elem_of_cons in Hin as [?|?]; done.
Qed.

Lemma fold_stack_async (X : nat -> Prop) ks ya yb ls1 ls2 :
  (forall k, k ∈ ks -> X k) ->
  fieldAgree f X ls1 ls2 ->
  fieldAgree f X (fold_left (D3.stack set) ks (ya, ls1)).2
                 (fold_left (D3.stack set) ks (yb, ls2)).2.
Proof.
  revert ya yb ls1 ls2. induction ks as [|k ks IH]; intros ya yb ls1 ls2 HX H; cbn; [done|].
  destruct (D3.stack set (ya, ls1) k) as [ya' ls1'] eqn:E1.
  destruct (D3.stack set (yb, ls2) k) as [yb' ls2'] eqn:E2.
  apply IH.
  - intros k' Hk'. apply HX. by apply list_elem_of_further.
  - change ls1' with (ya', ls1').2. change ls2' with (yb', ls2').2.
    rewrite <- E1, <- E2. eapply stack_async; [|exact H].
    intros k' Hk'. split; [|done]. intros ->. apply Hk', HX, list_elem_of_here.
Qed.

(** What one step leaves as it is. *)
Lemma stack_frame st k k' l l' :
  st.2 !! k' = Some l -> (D3.stack set st k).2 !! k' = Some l' ->
  (k' <> k -> f l = f l') /\ g l = g l'.
Proof.
  intros H H'. destruct (decide (k' = k)) as [->|Hne].
  - apply stack_lookup_eq in H' as (l0 & H0 & ->).
    rewrite H in H0. injection H0 as <-. by rewrite set_g.
  - rewrite stack_lookup_ne in H' by done. rewrite H in H'. by injection H' as <-.
Qed.

Lemma fold_stack_frame ks st k' l l' :
  st.2 !! k' = Some l -> (fold_left (D3.stack set) ks st).2 !! k' = Some l' ->
  (k' ∉ ks -> f l = f l') /\ g l = g l'.
Proof.
  revert st l. induction ks as [|k ks IH]; intros st l H H'; cbn in H'.
  - rewrite H in H'. by injection H' as <-.
  - destruct (shape_lookup _ _ k' l (eq_sym (stack_shape st k)) H) as (lm & Hm & _).
    destruct (stack_frame st k k' l lm H Hm) as [Hf Hg].
    destruct (IH _ _ Hm H') as [Hf' Hg'].
    split; [|congruence]. intros Hnot. apply not_elem_of_cons in Hnot as [? ?].
    rewrite Hf by done. auto.
Qed.
End Stack.

Lemma setY0_shape v l : shape (LLink.setY0 v l) = shape l.
Proof. reflexivity. Qed.
Lemma setY1_shape v l : shape (LLink.setY1 v l) = shape l.
Proof. reflexivity. Qed.
Lemma setY0_y0 v l : LLink.y0 (LLink.setY0 v l) = v.
Proof. reflexivity. Qed.
Lemma setY0_y1 v l : LLink.y1 (LLink.setY0 v l) = LLink.y1 l.
Proof. reflexivity. Qed.
Lemma setY1_y1 v l : LLink.y1 (LLink.setY1 v l) = v.
Proof. reflexivity. Qed.
Lemma setY1_y0 v l : LLink.y0 (LLink.setY1 v l) = LLink.y0 l.
Proof. reflexivity. Qed.

Lemma link_eq (l1 l2 : LLink.t) :
  shape l1 = shape l2 -> LLink.y0 l1 = LLink.y0 l2 -> LLink.y1 l1 = LLink.y1 l2 ->
  l1 = l2.
Proof. destruct l1, l2. unfold shape. cbn. intros [= -> -> -> -> ->] -> ->. done. Qed.

Lemma portsAgree_weaken (X0 X1 X0' X1' : nat -> Prop) ls1 ls2 :
  (forall k, X0 k -> X0' k) -> (forall k, X1 k -> X1' k) ->
  portsAgree X0 X1 ls1 ls2 -> portsAgree X0' X1' ls1 ls2.
Proof.
  intros H0 H1 (Hs & Ha & Hb). split; [done|].
  split; eapply fieldAgree_weaken; eauto.
Qed.


Lemma portsAgree_lookup (X0 X1 : nat -> Prop) ls1 ls2 k :
  portsAgree X0 X1 ls1 ls2 -> ~ X0 k -> ~ X1 k -> ls1 !! k = ls2 !! k.
Proof.
  intros (Hs & Ha & Hb) H0 H1. destruct (ls1 !! k) as [l1|] eqn:E1.
  - destruct (shape_lookup _ _ _ _ Hs E1) as (l2 & E2 & Hl). rewrite E2. f_equal.
    apply link_eq; [done | by apply (Ha k) | by apply (Hb k)].
  - by rewrite (shape_lookup_None _ _ _ Hs E1).
Qed.

Lemma portsAgree_eq ls1 ls2 :
  portsAgree (fun _ => False) (fun _ => False) ls1 ls2 -> ls1 = ls2.
Proof. intros H. apply list_eq. intros k. eapply portsAgree_lookup; eauto. Qed.

Lemma stackNode_shape ls n : shape <$> D3.stackNode ls n = shape <$> ls.
Proof.
  unfold D3.stackNode, D3.stackSource, D3.stackTarget. cbv zeta.
  rewrite (fold_stack_shape _ setY1_shape). cbn [snd].
  by rewrite (fold_stack_shape _ setY0_shape).
Qed.

Lemma fold_stackNode_shape ns ls : shape <$> fold_left D3.stackNode ns ls = shape <$> ls.
Proof.
  revert ls. induction ns as [|n ns IH]; intros ls; cbn; [done|].
  by rewrite IH, stackNode_shape.
Qed.

(** Two runs of the body of the loop of [update] on nodes that stack alike. *)
Lemma stackNode_sim (T0 T1 : nat -> Prop) rest0 rest1 n1 n2 ls1 ls2 :
  sameStacking T0 T1 n1 n2 ->
  portsAgree (fun k => T0 k \/ k ∈ LNode.sourceLinks n1 ++ rest0)
             (fun k => T1 k \/ k ∈ LNode.targetLinks n1 ++ rest1) ls1 ls2 ->
  portsAgree (fun k => T0 k \/ k ∈ rest0) (fun k => T1 k \/ k ∈ rest1)
             (D3.stackNode ls1 n1) (D3.stackNode ls2 n2).
Proof.
  intros (Es & Et & Hy) (Hs & Ha & Hb).
  split; [by rewrite !stackNode_shape|].
  unfold D3.stackNode, D3.stackSource, D3.stackTarget. cbv zeta. rewrite <- Es, <- Et.
  assert (shape <$> (fold_left (D3.stack LLink.setY0) (LNode.sourceLinks n1)
                       (LNode.y0 n1, ls1)).2 =
          shape <$> (fold_left (D3.stack LLink.setY0) (LNode.sourceLinks n1)
                       (LNode.y0 n2, ls2)).2) as Hs'.
  { by rewrite !(fold_stack_shape _ setY0_shape). }
  destruct Hy as [Hy|[HT0 HT1]].
  - rewrite <- Hy. split.
    + apply (fold_stack_other _ _ setY1_shape setY1_y0); [by rewrite <- Hy in Hs'|].
      by apply (fold_stack_sync _ _ setY0_shape setY0_y0).
    + apply (fold_stack_sync _ _ setY1_shape setY1_y1); [by rewrite <- Hy in Hs'|].
      by apply (fold_stack_other _ _ setY0_shape setY0_y1).
  - split.
    + apply (fold_stack_other _ _ setY1_shape setY1_y0); [done|].
      apply (fold_stack_async LLink.setY0 LLink.y0).
      * intros k Hk. left. by apply HT0.
      * eapply fieldAgree_weaken; [|exact Ha]. intros k [?|Hk]; [by left|].
        apply elem_of_app in Hk as [?|?]; [left; by apply HT0 | by right].
    + apply (fold_stack_async LLink.setY1 LLink.y1).
      * intros k Hk. left. by apply HT1.
      * apply (fold_stack_other _ _ setY0_shape setY0_y1); [done|].
        eapply fieldAgree_weaken; [|exact Hb]. intros k [?|Hk]; [by left|].
        apply elem_of_app in Hk as [?|?]; [left; by apply HT1 | by right].
Qed.

(** Two runs of [update] on arrays of nodes that stack alike: the port
    positions agree wherever no exempt node has stacked. *)
Lemma fold_stackNode_sim (T0 T1 : nat -> Prop) ns1 ns2 ls1 ls2 :
  Forall2 (sameStacking T0 T1) ns1 ns2 ->
  portsAgree (fun k => T0 k \/ k ∈ pendingSources ns1)
             (fun k => T1 k \/ k ∈ pendingTargets ns1) ls1 ls2 ->
  portsAgree T0 T1 (fold_left D3.stackNode ns1 ls1) (fold_left D3.stackNode ns2 ls2).
Proof.
  intros HF. revert ls1 ls2.
  induction HF as [|n1 n2 ns1 ns2 Hn HF IH]; intros ls1 ls2 H; cbn.
  - eapply portsAgree_weaken; [| |exact H]; intros k [?|Hk]; try done;
      by apply elem_of_nil in Hk.
  - apply IH. by apply stackNode_sim.
Qed.

(** What the body of the loop of [update] leaves as it is. *)
Lemma stackNode_frame ls n k l l' :
  ls !! k = Some l -> D3.stackNode ls n !! k = Some l' ->
  (k ∉ LNode.sourceLinks n -> LLink.y0 l = LLink.y0 l') /\
  (k ∉ LNode.targetLinks n -> LLink.y1 l = LLink.y1 l').
Proof.
  unfold D3.stackNode, D3.stackSource, D3.stackTarget. cbv zeta. intros H H'.
  set (mid := fold_left (D3.stack LLink.setY0) (LNode.sourceLinks n) (LNode.y0 n, ls)) in *.
  assert (shape <$> mid.2 = shape <$> ls) as Hs by apply (fold_stack_shape _ setY0_shape).
  destruct (shape_lookup _ _ k l (eq_sym Hs) H) as (lm & Hm & _).
  destruct (fold_stack_frame _ LLink.y0 _ setY0_shape setY0_y1 _ (LNode.y0 n, ls) k l lm H Hm)
    as [Ha Hb].
  destruct (fold_stack_frame _ LLink.y1 _ setY1_shape setY1_y0 _ (LNode.y0 n, mid.2) k lm l'
              Hm H') as [Hc Hd].
  split; intros Hk; [rewrite Ha by done | rewrite Hb]; auto.
Qed.

Lemma fold_stackNode_frame ns ls :
  portsAgree (fun k => k ∈ pendingSources ns) (fun k => k ∈ pendingTargets ns)
    ls (fold_left D3.stackNode ns ls).
Proof.
  split; [by rewrite fold_stackNode_shape|].
  revert ls. induction ns as [|n ns IH]; intros ls.
  { split; intros k l1 l2 H1 H2 _; cbn in H2; congruence. }
  destruct (IH (D3.stackNode ls n)) as [IH0 IH1].
  split; intros k l l' H H' Hk; cbn in H';
    destruct (shape_lookup _ _ k l (eq_sym (stackNode_shape ls n)) H) as (lm & Hm & _);
    destruct (stackNode_frame ls n k l lm H Hm) as [Ha Hb];
    unfold pendingSources, pendingTargets in Hk; cbn in Hk;
    rewrite elem_of_app in Hk.
  - rewrite Ha by tauto. apply (IH0 k lm l' Hm H'). unfold pendingSources. tauto.
  - rewrite Hb by tauto. apply (IH1 k lm l' Hm H'). unfold pendingTargets. tauto.
Qed.

Lemma sameStacking_refl (T0 T1 : nat -> Prop) ns : Forall2 (sameStacking T0 T1) ns ns.
Proof.
  apply Forall2_same_length_lookup. split; [done|].
  intros j n n' H H'. rewrite H in H'. injection H' as <-.
  split; [done|]. split; [done|]. by left.
Qed.

(** Running [update] a second time changes nothing. *)
Lemma update_idempotent g : D3.update (D3.update g) = D3.update g.
Proof.
  unfold D3.update. cbn. f_equal. symmetry. apply portsAgree_eq.
  apply fold_stackNode_sim; [apply sameStacking_refl|].
  eapply portsAgree_weaken; [| |apply fold_stackNode_frame]; intros k Hk; by right.
Qed.

Lemma update_settled g : settled (D3.update g).
Proof. apply update_idempotent. Qed.



(** ** Dragging a node *)




Lemma sampleGraph_wellLinked : wellLinked sampleGraph.
Proof.
  intros j n k Hj. destruct j as [|[|[|j]]]; cbn in Hj; try discriminate;
    injection Hj as <-; cbn; split; intros Hk;
    repeat (apply elem_of_cons in Hk as [->|Hk]); try (by apply elem_of_nil in Hk);
    eexists; split; reflexivity.
Qed.

Lemma sampleGraph_settled : settled sampleGraph.
Proof. unfold settled. by_compute. Qed.


(** ** Saved positions *)

(** *** The plain object behind [dragState] *)




(** An assignment to [__proto__] changes what this key yields and adds no
    key. *)
Lemma set_proto s o :
  SankeyChart.get (SankeyChart.set "__proto__" s o) "__proto__" = SankeyChart.Position s /\
  SankeyChart.keyCount (SankeyChart.set "__proto__" s o) = SankeyChart.keyCount o.
Proof. done. Qed.

(** With [Object.prototype] for its prototype, the object yields its own
    entry for a key that [Object.prototype] does not have, and
    [undefined] if there is none. *)
Lemma get_ordinary o k :
  SankeyChart.proto o = None -> k ∉ SankeyChart.objectPrototypeNames ->
  SankeyChart.get o k =
    match SankeyChart.own o !! k with
    | Some s => SankeyChart.Position s
    | None => SankeyChart.Undefined
    end.
Proof.
  intros Hp Hk. unfold SankeyChart.get, SankeyChart.inherited. rewrite Hp.
  rewrite bool_decide_eq_false_2.
  - by rewrite (bool_decide_eq_false_2 (k ∈ _)) by done.
  - intros ->. apply Hk. unfold SankeyChart.objectPrototypeNames. set_solver.
Qed.

(** Without a key of its own and with [Object.prototype] for its
    prototype, the object yields a saved position for no key. *)
Lemma get_no_keys o k :
  SankeyChart.keyCount o = 0%nat -> SankeyChart.proto o = None ->
  SankeyChart.get o k = SankeyChart.Undefined \/ SankeyChart.get o k = SankeyChart.Builtin.
Proof.
  intros Hk Hp. apply map_size_empty_iff in Hk.
  unfold SankeyChart.get, SankeyChart.inherited. rewrite Hp, Hk, lookup_empty.
  case_bool_decide; [by right|]. case_bool_decide; [by right | by left].
Qed.

(** *** The nodes after the saved positions have been put back *)


Lemma reapply_Undefined ds n :
  SankeyChart.get ds (LNode.id n) = SankeyChart.Undefined ->
  SankeyChart.reapply ds n = Some n.
Proof. intros H. unfold SankeyChart.reapply. by rewrite H. Qed.

Lemma reapply_Builtin ds n :
  SankeyChart.get ds (LNode.id n) = SankeyChart.Builtin ->
  SankeyChart.reapply ds n = None.
Proof. intros H. unfold SankeyChart.reapply. by rewrite H. Qed.

(** A node that the pass has placed keeps everything but its position. *)
Lemma reapply_frame ds n n' :
  SankeyChart.reapply ds n = Some n' ->
  LNode.id n' = LNode.id n /\ LNode.depth n' = LNode.depth n /\
  LNode.value n' = LNode.value n /\
  LNode.sourceLinks n' = LNode.sourceLinks n /\
  LNode.targetLinks n' = LNode.targetLinks n.
Proof.
  unfold SankeyChart.reapply.
  destruct (SankeyChart.get ds (LNode.id n)) as [|s|x|]; try discriminate.
  - by intros [= <-].
  - by intros [= <-].
  - destruct (Js.truthy x); [discriminate|]. by intros [= <-].
Qed.

(** A graph with the same lists of links at every node and the same shapes
    of links is as well linked as the first. *)
Lemma wellLinked_same_structure g g' :
  wellLinked g ->
  Forall2 (fun n n' => LNode.sourceLinks n' = LNode.sourceLinks n /\
                       LNode.targetLinks n' = LNode.targetLinks n)
          (Graph.nodes g) (Graph.nodes g') ->
  shape <$> Graph.links g = shape <$> Graph.links g' ->
  wellLinked g'.
Proof.
  intros Hw HF Hs j n' k Hn'.
  apply Forall2_same_length_lookup in HF as [Hlen HF].
  destruct (Graph.nodes g !! j) as [n|] eqn:Hn.
  2: { apply lookup_ge_None in Hn. apply lookup_lt_Some in Hn'. lia. }
  destruct (HF j n n' Hn Hn') as [Es Et]. rewrite Es, Et.
  destruct (Hw j n k Hn) as [H0 H1].
  split; intros Hk; [destruct (H0 Hk) as (l & Hl & Hj) | destruct (H1 Hk) as (l & Hl & Hj)];
    destruct (shape_lookup _ _ _ _ Hs Hl) as (l' & Hl' & Hsh);
    exists l'; (split; [done|]); unfold shape in Hsh; congruence.
Qed.

(** The listener keeps the graph well linked and its link positions up to
    date. *)
Lemma onDrag_preserves st i dx dy :
  wellLinked (SankeyChart.graph st) ->
  wellLinked (SankeyChart.graph (SankeyChart.onDrag st i dx dy)) /\
  (settled (SankeyChart.graph st) ->
   settled (SankeyChart.graph (SankeyChart.onDrag st i dx dy))).
Proof.
  intros Hw. unfold SankeyChart.onDrag.
  destruct (Graph.nodes (SankeyChart.graph st) !! i) as [d|] eqn:Hd; [|done].
  cbn [SankeyChart.graph]. split; [|intros _; apply update_settled].
  eapply wellLinked_same_structure; [exact Hw| |].
  - cbn. apply Forall2_same_length_lookup. split; [by rewrite length_insert|].
    intros j n n' Hn Hn'. destruct (decide (j = i)) as [->|Hne].
    + rewrite list_lookup_insert_eq in Hn' by (by eapply lookup_lt_Some).
      injection Hn' as <-. rewrite Hd in Hn. by injection Hn as <-.
    + rewrite list_lookup_insert_ne in Hn' by done. rewrite Hn in Hn'.
      by injection Hn' as <-.
  - cbn. by rewrite fold_stackNode_shape.
Qed.

(** What the layout pass returns when it lays a graph out. *)
Lemma layoutPass_Laid d3Sankey p ds g :
  SankeyChart.layoutPass d3Sankey p ds = Some (SankeyChart.Laid g) ->
  let fresh :=
    d3Sankey SankeyChart.NODE_WIDTH SankeyChart.NODE_PAD
      (Js.sub (Js.sub (SankeyChart.width p) SankeyChart.MARGIN_left)
         SankeyChart.MARGIN_right)
      (Js.sub (Js.sub (SankeyChart.height p) SankeyChart.MARGIN_top)
         SankeyChart.MARGIN_bottom)
      (GraphData.sankeyNodes (SankeyChart.data p))
      (GraphData.sankeyLinks (SankeyChart.data p)) in
  exists placed,
    mapM (SankeyChart.reapply ds) (Graph.nodes fresh) = Some placed /\
    g = (if (0 <? SankeyChart.keyCount ds)%nat
         then D3.update {| Graph.nodes := placed; Graph.links := Graph.links fresh |}
         else {| Graph.nodes := placed; Graph.links := Graph.links fresh |}).
Proof.
  unfold SankeyChart.layoutPass. case_bool_decide; [done|]. cbv zeta.
  destruct (mapM _ _) as [placed|]; [|done].
  intros [= <-]. by exists placed.
Qed.

(** The layout pass returns a well linked graph if the layout generator
    does, and one whose link positions are up to date unless an assignment
    to [__proto__] has replaced the prototype of [dragState]. *)
Lemma layoutPass_preserves d3Sankey p ds g :
  (forall nw np W H ids raw,
     wellLinked (d3Sankey nw np W H ids raw) /\ settled (d3Sankey nw np W H ids raw)) ->
  SankeyChart.layoutPass d3Sankey p ds = Some (SankeyChart.Laid g) ->
  wellLinked g /\ (SankeyChart.proto ds = None -> settled g).
Proof.
  intros Hd3 Hg. destruct (layoutPass_Laid _ _ _ _ Hg) as (placed & Hplaced & ->).
  match type of Hplaced with context [d3Sankey ?a ?b ?c ?d ?e ?f] =>
    destruct (Hd3 a b c d e f) as [Hw Hset]; set (fresh := d3Sankey a b c d e f) in *
  end.
  apply mapM_Some_1 in Hplaced.
  assert (wellLinked {| Graph.nodes := placed; Graph.links := Graph.links fresh |}) as Hw'.
  { eapply wellLinked_same_structure; [exact Hw| |done]. cbn.
    eapply Forall2_impl; [exact Hplaced|]. intros n n' Hn.
    by destruct (reapply_frame _ _ _ Hn) as (_ & _ & _ & ? & ?). }
  destruct (0 <? SankeyChart.keyCount ds)%nat eqn:E.
  - split; [|intros _; apply update_settled].
    eapply wellLinked_same_structure; [exact Hw'| |].
    + cbn. apply Forall2_same_length_lookup. split; [done|].
      intros j n n' Hn Hn'. rewrite Hn in Hn'. by injection Hn' as <-.
    + cbn. by rewrite fold_stackNode_shape.
  - split; [done|]. intros Hp. apply Nat.ltb_ge in E.
    assert (SankeyChart.keyCount ds = 0%nat) as Hk by lia.
    assert (placed = Graph.nodes fresh) as ->.
    { symmetry. apply list_eq_Forall2. eapply Forall2_impl; [exact Hplaced|].
      intros n n' Hn. cbv beta in Hn.
      destruct (get_no_keys ds (LNode.id n) Hk Hp) as [Hu|Hb].
      - rewrite (reapply_Undefined _ _ Hu) in Hn. by injection Hn.
      - by rewrite (reapply_Builtin _ _ Hb) in Hn. }
    by destruct fresh.
Qed.




(** * Further properties of the graph builder *)

(** ** Node ids *)

(** X2: the node ids of the returned graph are pairwise distinct, the
    entries of [nodeMeta] come in the order of [sankeyNodes], and every
    entry carries its own key as [id]; both revisions. *)
Theorem node_ids_distinct
    (nts : Js.number -> string) (rawValues : list (list cell)) (gL gS : GraphData.t) :
  LossRouting.parseExcelData nts rawValues = Return gL ->
  SignCategory.parseExcelData nts rawValues = Return gS ->
  (NoDup (GraphData.sankeyNodes gL) /\
   (GraphData.nodeMeta gL).*1 = GraphData.sankeyNodes gL /\
   forall id m, (id, m) ∈ GraphData.nodeMeta gL -> NodeMeta.id m = id) /\
  (NoDup (GraphData.sankeyNodes gS) /\
   (GraphData.nodeMeta gS).*1 = GraphData.sankeyNodes gS /\
   forall id m, (id, m) ∈ GraphData.nodeMeta gS -> NodeMeta.id m = id).
Proof.
  intros HL HS. split.
  - destruct (loss_parse_inv _ _ _ HL) as (Hlen & _ & _ & Hk).
    split; [|split; [done|]].
    + rewrite LossRoutingFacts.loss_parseExcelData_Return in HL by done.
      injection HL as <-. cbn.
      apply (LossRoutingFacts.loss_tallied_processRows nts (dataRows nts rawValues)).
    + intros id m Hin. by destruct (loss_node _ _ _ _ _ HL Hin) as (? & _).
  - destruct (sign_parse_inv _ _ _ HS) as (Hlen & _ & _ & Hk).
    split; [|split; [done|]].
    + rewrite SignCategoryFacts.sign_parseExcelData_Return in HS by done.
      injection HS as <-. cbn.
      apply (SignCategoryFacts.sign_tallied_processRows nts (dataRows nts rawValues)).
    + intros id m Hin. by destruct (sign_node _ _ _ _ _ HS Hin) as (? & _).
Qed.

Lemma node_ids_distinct_chain :
  exists gL gS,
    LossRouting.parseExcelData showNumber chainRows = Return gL /\
    SignCategory.parseExcelData showNumber chainRows = Return gS /\
    NoDup (GraphData.sankeyNodes gL) /\ NoDup (GraphData.sankeyNodes gS) /\
    GraphData.sankeyNodes gS = ["A"; "B"; "C"]%string.
Proof.
  eexists. eexists. split; [reflexivity|]. split; [reflexivity|].
  destruct (node_ids_distinct showNumber chainRows _ _ eq_refl eq_refl)
    as ((HL & _) & (HS & _)).
  split; [exact HL|]. split; [exact HS|]. reflexivity.
Defined.

(** The ends of the edges on the chain. *)
Lemma edges_end_in_nodes_chain :
  exists gL gS,
    LossRouting.parseExcelData showNumber chainRows = Return gL /\
    SignCategory.parseExcelData showNumber chainRows = Return gS /\
    (forall l, l ∈ GraphData.linkMeta gS ->
       LinkMeta.sourceId l ∈ GraphData.sankeyNodes gS /\
       LinkMeta.targetId l ∈ GraphData.sankeyNodes gS).
Proof.
  eexists. eexists. split; [reflexivity|]. split; [reflexivity|].
  apply (edges_end_in_nodes showNumber chainRows _ _ eq_refl eq_refl).
Defined.

(** ** One edge per accepted row *)

(** X3: the graph has exactly one edge per accepted row, in the order of
    the rows, and rows that repeat a pair of labels are not merged.  The
    i-th edge starts at the trimmed source label of the i-th accepted row
    and, in the sign-as-category revision, ends at its trimmed target
    label; the i-th link handed to the layout joins the same two nodes. *)
Theorem one_edge_per_accepted_row
    (nts : Js.number -> string) (rawValues : list (list cell)) (gL gS : GraphData.t) :
  LossRouting.parseExcelData nts rawValues = Return gL ->
  SignCategory.parseExcelData nts rawValues = Return gS ->
  length (GraphData.linkMeta gL) = length (accepted (dataRows nts rawValues)) /\
  length (GraphData.linkMeta gS) = length (accepted (dataRows nts rawValues)) /\
  length (GraphData.sankeyLinks gL) = length (GraphData.linkMeta gL) /\
  length (GraphData.sankeyLinks gS) = length (GraphData.linkMeta gS) /\
  (forall i row,
     accepted (dataRows nts rawValues) !! i = Some row ->
     exists lL rL lS rS,
       GraphData.linkMeta gL !! i = Some lL /\ GraphData.sankeyLinks gL !! i = Some rL /\
       GraphData.linkMeta gS !! i = Some lS /\ GraphData.sankeyLinks gS !! i = Some rS /\
       LinkMeta.sourceId lL = srcOf nts row /\
       LinkMeta.sourceId lS = srcOf nts row /\
       LinkMeta.targetId lS = tgtOf nts row /\
       SankeyLink.source rL = LinkMeta.sourceId lL /\
       SankeyLink.target rL = LinkMeta.targetId lL /\
       SankeyLink.source rS = LinkMeta.sourceId lS /\
       SankeyLink.target rS = LinkMeta.targetId lS).
Proof.
  intros HL HS.
  destruct (loss_parse_inv _ _ _ HL) as (_ & EL & -> & _).
  destruct (sign_parse_inv _ _ _ HS) as (_ & ES & -> & _).
  rewrite EL, ES, !length_fmap. repeat split; try done.
  intros i row Hrow.
  exists (lossLinkOf nts row), (rendered (lossLinkOf nts row)),
         (signLinkOf nts row), (rendered (signLinkOf nts row)).
  rewrite !list_lookup_fmap, Hrow. cbn. done.
Qed.

Lemma one_edge_per_accepted_row_repeated :
  exists gL gS,
    LossRouting.parseExcelData showNumber [headerRow; plainRow; plainRow] = Return gL /\
    SignCategory.parseExcelData showNumber [headerRow; plainRow; plainRow] = Return gS /\
    length (GraphData.linkMeta gL) = 2%nat /\ length (GraphData.linkMeta gS) = 2%nat.
Proof.
  eexists. eexists. split; [reflexivity|]. split; [reflexivity|].
  destruct (one_edge_per_accepted_row showNumber [headerRow; plainRow; plainRow] _ _
              eq_refl eq_refl) as (HL & HS & _).
  split; [exact HL | exact HS].
Defined.

(** ** Signs of the recorded numbers *)

Lemma magnitude_not_negative x : JsFacts.magnitude x -> Js.ltb x Js.zero = false.
Proof.
  intros H. apply JsFacts.magnitude_cases in H as [-> | [-> | (q & -> & Hq)]];
    try reflexivity.
  unfold Js.ltb, Js.zero. destruct (q ?= Q2Qc 0)%Qc eqn:E; try reflexivity.
  apply Qclt_alt in E. exfalso. by apply (Qcle_not_lt _ _ Hq).
Qed.

Lemma floored_positive x : Js.ltb Js.zero (Js.orElse (Js.abs x) Js.milli) = true.
Proof.
  unfold Js.orElse. destruct (Js.truthy (Js.abs x)) eqn:E; [|reflexivity].
  destruct x as [q| | |]; try reflexivity; try discriminate.
  cbn in *. apply negb_true_iff, bool_decide_eq_false in E.
  destruct (Q2Qc 0 ?= Qcabs q)%Qc eqn:C; try reflexivity.
  - apply Qceq_alt in C. congruence.
  - apply Qcgt_alt in C. exfalso.
    apply (Qcle_not_lt _ _ (Qcabs_nonneg q)). exact C.
Qed.

(** X4: every link handed to the layout has a strictly positive value,
    whatever the cells of its row hold; both revisions. *)
Theorem rendered_values_positive
    (nts : Js.number -> string) (rawValues : list (list cell)) (gL gS : GraphData.t) :
  LossRouting.parseExcelData nts rawValues = Return gL ->
  SignCategory.parseExcelData nts rawValues = Return gS ->
  forall r, r ∈ GraphData.sankeyLinks gL \/ r ∈ GraphData.sankeyLinks gS ->
            Js.ltb Js.zero (SankeyLink.value r) = true.
Proof.
  intros HL HS r Hr.
  destruct (loss_parse_inv _ _ _ HL) as (_ & EL & ER & _).
  destruct (sign_parse_inv _ _ _ HS) as (_ & ES & ER' & _).
  rewrite ER, ER', EL, ES in Hr.
  destruct Hr as [Hr|Hr];
    apply list_elem_of_fmap in Hr as (l & -> & Hl);
    apply list_elem_of_fmap in Hl as (row & -> & _); apply floored_positive.
Qed.

Lemma rendered_values_positive_zero_amount :
  exists gL gS r,
    LossRouting.parseExcelData showNumber [headerRow; zeroAmountRow] = Return gL /\
    SignCategory.parseExcelData showNumber [headerRow; zeroAmountRow] = Return gS /\
    GraphData.sankeyLinks gS = [r] /\
    Js.ltb Js.zero (SankeyLink.value r) = true.
Proof.
  eexists. eexists. eexists.
  split; [reflexivity|]. split; [reflexivity|]. split; [reflexivity|].
  apply (rendered_values_positive showNumber [headerRow; zeroAmountRow] _ _ eq_refl eq_refl).
  right. apply list_elem_of_here.
Defined.

(** X5: no recorded value or prior of an edge and no total of a node is
    negative; both revisions. *)
Theorem recorded_numbers_not_negative
    (nts : Js.number -> string) (rawValues : list (list cell)) (gL gS : GraphData.t) :
  LossRouting.parseExcelData nts rawValues = Return gL ->
  SignCategory.parseExcelData nts rawValues = Return gS ->
  (forall l, l ∈ GraphData.linkMeta gL \/ l ∈ GraphData.linkMeta gS ->
     Js.ltb (LinkMeta.value l) Js.zero = false /\
     Js.ltb (LinkMeta.prior l) Js.zero = false) /\
  (forall id m, (id, m) ∈ GraphData.nodeMeta gL \/ (id, m) ∈ GraphData.nodeMeta gS ->
     Js.ltb (NodeMeta.totalValue m) Js.zero = false /\
     Js.ltb (NodeMeta.totalPrior m) Js.zero = false).
Proof.
  intros HL HS. split.
  - intros l Hl.
    destruct (loss_parse_inv _ _ _ HL) as (_ & EL & _).
    destruct (sign_parse_inv _ _ _ HS) as (_ & ES & _).
    rewrite EL, ES in Hl.
    destruct Hl as [Hl|Hl].
    + apply loss_links_magnitude in Hl as [? ?]. split; by apply magnitude_not_negative.
    + apply sign_links_magnitude in Hl as [? ?]. split; by apply magnitude_not_negative.
  - intros id m [Hin|Hin].
    + destruct (loss_node_magnitude _ _ _ _ _ HL Hin).
      split; by apply magnitude_not_negative.
    + destruct (sign_node_magnitude _ _ _ _ _ HS Hin).
      split; by apply magnitude_not_negative.
Qed.

Lemma recorded_numbers_not_negative_mixed :
  exists gL gS,
    LossRouting.parseExcelData showNumber mixedRows = Return gL /\
    SignCategory.parseExcelData showNumber mixedRows = Return gS /\
    (forall l, l ∈ GraphData.linkMeta gL \/ l ∈ GraphData.linkMeta gS ->
       Js.ltb (LinkMeta.value l) Js.zero = false /\
       Js.ltb (LinkMeta.prior l) Js.zero = false).
Proof.
  eexists. eexists. split; [reflexivity|]. split; [reflexivity|].
  apply (recorded_numbers_not_negative showNumber mixedRows _ _ eq_refl eq_refl).
Defined.

(** ** Which cells of a row are read *)

Lemma processRow_same_cells nts row row' :
  row !! 0%nat = row' !! 0%nat -> row !! 1%nat = row' !! 1%nat ->
  row !! 2%nat = row' !! 2%nat ->
  orZero (row !! 3%nat) = orZero (row' !! 3%nat) ->
  (forall st, LossRouting.processRow nts st row = LossRouting.processRow nts st row') /\
  (forall st, SignCategory.processRow nts st row = SignCategory.processRow nts st row').
Proof.
  intros H0 H1 H2 H3.
  split; intros st; unfold LossRouting.processRow, SignCategory.processRow, skipped;
    by rewrite H0, H1, H2, H3.
Qed.

Lemma hasHeader_take nts row : hasHeader nts (take 4 row) = hasHeader nts row.
Proof. unfold hasHeader. by rewrite lookup_take_lt by lia. Qed.

Lemma dataRows_take nts rawValues :
  dataRows nts (take 4 <$> rawValues) = take 4 <$> dataRows nts rawValues.
Proof.
  destruct rawValues as [|first rest]; [done|].
  rewrite fmap_cons, !dataRows_cons, hasHeader_take.
  by destruct (hasHeader nts first).
Qed.

Lemma fold_left_fmap_same {A B} (f : A -> B -> A) (h : B -> B) (xs : list B) (a : A) :
  (forall a x, f a (h x) = f a x) ->
  fold_left f (h <$> xs) a = fold_left f xs a.
Proof.
  intros H. revert a. induction xs as [|x xs IH]; intros a; cbn; [done|].
  by rewrite H, IH.
Qed.

(** X6: only the first four cells of a row are read, and a row without a
    fourth cell is read as a row whose prior amount is 0: cutting every row
    of the grid down to four cells gives the same result, and so does
    adding the number 0 to a row of three; both revisions. *)
Theorem only_four_cells_read (nts : Js.number -> string) :
  (forall rawValues,
     LossRouting.parseExcelData nts (take 4 <$> rawValues) =
       LossRouting.parseExcelData nts rawValues /\
     SignCategory.parseExcelData nts (take 4 <$> rawValues) =
       SignCategory.parseExcelData nts rawValues) /\
  (forall a b c stL stS,
     LossRouting.processRow nts stL [a; b; c] =
       LossRouting.processRow nts stL [a; b; c; CNumber Js.zero] /\
     SignCategory.processRow nts stS [a; b; c] =
       SignCategory.processRow nts stS [a; b; c; CNumber Js.zero]).
Proof.
  split.
  - intros rawValues.
    assert (forall row,
      (forall st, LossRouting.processRow nts st (take 4 row) =
                  LossRouting.processRow nts st row) /\
      (forall st, SignCategory.processRow nts st (take 4 row) =
                  SignCategory.processRow nts st row)) as Hrow.
    { intros row. apply processRow_same_cells; by rewrite lookup_take_lt by lia. }
    unfold LossRouting.parseExcelData, SignCategory.parseExcelData.
    rewrite length_fmap, dataRows_take.
    unfold LossRouting.processRows, SignCategory.processRows.
    rewrite !(fold_left_fmap_same _ (take 4)); [done| |].
    + intros st row. apply Hrow.
    + intros st row. apply Hrow.
  - intros a b c stL stS. split; by apply processRow_same_cells.
Qed.

(** ** The header row *)

(** X7: a header row in front of two or more data rows changes nothing:
    the result is that of the data rows alone, as long as their first row
    is not taken for a header itself; both revisions. *)
Theorem header_row_changes_nothing
    (nts : Js.number -> string) (header first : list cell) (rest : list (list cell)) :
  hasHeader nts header = true ->
  hasHeader nts first = false ->
  (1 <= length rest)%nat ->
  LossRouting.parseExcelData nts (header :: first :: rest) =
    LossRouting.parseExcelData nts (first :: rest) /\
  SignCategory.parseExcelData nts (header :: first :: rest) =
    SignCategory.parseExcelData nts (first :: rest).
Proof.
  intros Hh Hf Hlen.
  unfold LossRouting.parseExcelData, SignCategory.parseExcelData.
  rewrite !dataRows_cons, Hh, Hf. cbn [length].
  destruct (Nat.ltb_spec (S (S (length rest))) 2) as [?|_]; [lia|].
  destruct (Nat.ltb_spec (S (length rest)) 2) as [?|_]; [lia|]. done.
Qed.

Lemma header_row_changes_nothing_sample :
  hasHeader showNumber headerRow = true /\
  hasHeader showNumber plainRow = false /\
  (1 <= length [negativePriorRow])%nat /\
  SignCategory.parseExcelData showNumber (headerRow :: plainRow :: [negativePriorRow]) =
    SignCategory.parseExcelData showNumber (plainRow :: [negativePriorRow]).
Proof.
  split; [reflexivity|]. split; [reflexivity|]. split; [cbn; lia|].
  apply (header_row_changes_nothing showNumber headerRow plainRow [negativePriorRow]);
    [reflexivity | reflexivity | cbn; lia].
Defined.

(** ** Labels of white space *)

(** X8: a label cell that holds white space only does not make the loop
    skip its row; the row yields an edge, and the id of the node is the
    empty string; both revisions. *)
Theorem blank_label_gives_empty_id
    (nts : Js.number -> string) (row : list cell) (s : string) :
  row !! 0%nat = Some (CString s) ->
  s <> ""%string ->
  Js.trim s = ""%string ->
  truthy (row !! 1%nat) = true ->
  skipped row = false /\
  srcOf nts row = ""%string /\
  (forall st, exists l,
     LossRouting.linkMeta (LossRouting.processRow nts st row) =
       LossRouting.linkMeta st ++ [l] /\
     LinkMeta.sourceId l = ""%string /\
     is_Some (OMap.get "" (LossRouting.nodeTotals (LossRouting.processRow nts st row)))) /\
  (forall st, exists l,
     SignCategory.linkMeta (SignCategory.processRow nts st row) =
       SignCategory.linkMeta st ++ [l] /\
     LinkMeta.sourceId l = ""%string /\
     is_Some (OMap.get "" (SignCategory.nodeTotals (SignCategory.processRow nts st row)))).
Proof.
  intros H0 Hs Ht H1.
  assert (skipped row = false) as Hsk.
  { unfold skipped. rewrite H0, H1. cbn. by rewrite bool_decide_eq_false_2. }
  assert (srcOf nts row = ""%string) as Hsrc.
  { unfold srcOf. by rewrite H0. }
  split; [done|]. split; [done|]. split; intros st.
  - exists (lossLinkOf nts row). split; [|split].
    + by rewrite LossRoutingFacts.loss_processRow_accepted.
    + exact Hsrc.
    + rewrite LossRoutingFacts.loss_get_processRow by done. cbv zeta.
      unfold leaves. cbn [LinkMeta.sourceId lossLinkOf]. rewrite Hsrc.
      rewrite (bool_decide_eq_true_2 (""%string = ""%string)) by done. cbn [orb].
      destruct (OMap.get "" (LossRouting.nodeTotals st)); by eexists.
  - exists (signLinkOf nts row). split; [|split].
    + by rewrite SignCategoryFacts.sign_processRow_accepted.
    + exact Hsrc.
    + rewrite SignCategoryFacts.sign_get_processRow by done. cbv zeta.
      rewrite Hsrc.
      rewrite (bool_decide_eq_true_2 (""%string = ""%string)) by done. cbn [orb].
      destruct (OMap.get "" (SignCategory.nodeTotals st)); by eexists.
Qed.

Lemma blank_label_gives_empty_id_sample :
  blankLabelRow !! 0%nat = Some (CString "  ") /\
  "  "%string <> ""%string /\
  Js.trim "  " = ""%string /\
  truthy (blankLabelRow !! 1%nat) = true /\
  skipped blankLabelRow = false /\
  srcOf showNumber blankLabelRow = ""%string.
Proof.
  split; [reflexivity|]. split; [discriminate|]. split; [reflexivity|].
  split; [reflexivity|].
  destruct (blank_label_gives_empty_id showNumber blankLabelRow "  " eq_refl
              ltac:(discriminate) eq_refl eq_refl) as (Hsk & Hsrc & _).
  split; [exact Hsk | exact Hsrc].
Defined.

(** ** The label and the colour of a loss node *)

Lemma replace_unfold pat rep s :
  Js.replace pat rep s =
  if Js.startsWith pat s then (rep ++ Js.dropChars (String.length pat) s)%string
  else match s with
       | String c s' => String c (Js.replace pat rep s')
       | EmptyString => EmptyString
       end.
Proof. by destruct s. Qed.

Lemma dropChars_app p s : Js.dropChars (String.length p) (p ++ s)%string = s.
Proof. induction p as [|c p IH]; [by destruct s | exact IH]. Qed.

Lemma replace_prefix p s : Js.replace p "" (p ++ s)%string = s.
Proof. by rewrite replace_unfold, startsWith_app, dropChars_app. Qed.

Lemma loss_node_meta nts rawValues g id m :
  LossRouting.parseExcelData nts rawValues = Return g ->
  (id, m) ∈ GraphData.nodeMeta g ->
  exists t, m = LossRouting.metaOf id t.
Proof.
  intros H Hin. destruct (loss_parse_inv _ _ _ H) as (Hlen & _).
  rewrite LossRoutingFacts.loss_parseExcelData_Return in H by done.
  injection H as <-. cbn in Hin.
  apply list_elem_of_fmap in Hin as ([id' t] & [= -> ->] & _). by exists t.
Qed.

Lemma node_of_id (g : GraphData.t) id :
  GraphData.sankeyNodes g = (GraphData.nodeMeta g).*1 ->
  id ∈ GraphData.sankeyNodes g -> exists m, (id, m) ∈ GraphData.nodeMeta g.
Proof.
  intros -> Hin. apply list_elem_of_fmap in Hin as ([id' m] & -> & Hin). by exists m.
Qed.

Lemma loss_link_ends nts rawValues g l :
  LossRouting.parseExcelData nts rawValues = Return g ->
  l ∈ GraphData.linkMeta g ->
  LinkMeta.sourceId l ∈ GraphData.sankeyNodes g /\
  LinkMeta.targetId l ∈ GraphData.sankeyNodes g.
Proof.
  intros H. destruct (loss_parse_inv _ _ _ H) as (Hlen & _).
  rewrite LossRoutingFacts.loss_parseExcelData_Return in H by done.
  injection H as <-. cbn. intros Hl.
  destruct (LossRoutingFacts.loss_tallied_processRows nts (dataRows nts rawValues))
    as [_ Hst].
  apply (mentioned_has_entry
           (LossRouting.linkMeta (LossRouting.processRows nts (dataRows nts rawValues)))).
  - intros id Hid. specialize (Hst id).
    apply OMapFacts.get_None_keys in Hid. by rewrite Hid in Hst.
  - unfold LossRouting.processRows. by rewrite LossRoutingFacts.loss_linkMeta_fold.
Qed.

(** X9: in the loss-routing revision a node whose id is the loss prefix
    followed by [t] is shown as [t (loss)] in the cost colours, every other
    node under its own id in the colours of its keyword class; and every
    accepted row with a negative amount has such a node for its target. *)
Theorem loss_node_shown_as_loss
    (nts : Js.number -> string) (rawValues : list (list cell)) (g : GraphData.t) :
  LossRouting.parseExcelData nts rawValues = Return g ->
  (forall id m,
     (id, m) ∈ GraphData.nodeMeta g ->
     (forall t, id = (LossRouting.lossPrefix ++ t)%string ->
        NodeMeta.name m = (t ++ " (loss)")%string /\
        NodeMeta.fillColor m = fill (COLORS cost) /\
        NodeMeta.accentColor m = accent (COLORS cost)) /\
     (Js.startsWith LossRouting.lossPrefix id = false ->
        NodeMeta.name m = id /\
        NodeMeta.fillColor m = fill (COLORS (LossRouting.classifyId id)) /\
        NodeMeta.accentColor m = accent (COLORS (LossRouting.classifyId id)))) /\
  (forall row,
     row ∈ accepted (dataRows nts rawValues) ->
     Js.ltb (valOf nts row) Js.zero = true ->
     exists m,
       ((LossRouting.lossPrefix ++ tgtOf nts row)%string, m) ∈ GraphData.nodeMeta g /\
       NodeMeta.name m = (tgtOf nts row ++ " (loss)")%string /\
       NodeMeta.fillColor m = fill (COLORS cost)).
Proof.
  intros H.
  assert (forall id m,
     (id, m) ∈ GraphData.nodeMeta g ->
     (forall t, id = (LossRouting.lossPrefix ++ t)%string ->
        NodeMeta.name m = (t ++ " (loss)")%string /\
        NodeMeta.fillColor m = fill (COLORS cost) /\
        NodeMeta.accentColor m = accent (COLORS cost)) /\
     (Js.startsWith LossRouting.lossPrefix id = false ->
        NodeMeta.name m = id /\
        NodeMeta.fillColor m = fill (COLORS (LossRouting.classifyId id)) /\
        NodeMeta.accentColor m = accent (COLORS (LossRouting.classifyId id)))) as Hnode.
  { intros id m Hin. destruct (loss_node_meta _ _ _ _ _ H Hin) as (t0 & ->).
    unfold LossRouting.metaOf. cbv zeta. cbn [NodeMeta.name NodeMeta.fillColor NodeMeta.accentColor].
    split.
    - intros t ->. rewrite startsWith_app, replace_prefix. done.
    - intros ->. done. }
  split; [exact Hnode|].
  intros row Hrow Hneg.
  destruct (loss_parse_inv _ _ _ H) as (_ & El & _ & Hk).
  assert (lossLinkOf nts row ∈ GraphData.linkMeta g) as Hl.
  { rewrite El. apply list_elem_of_fmap. by exists row. }
  destruct (loss_link_ends _ _ _ _ H Hl) as [_ Ht].
  unfold lossLinkOf in Ht. cbn in Ht. rewrite Hneg in Ht.
  destruct (node_of_id g _ Hk Ht) as (m & Hm).
  exists m. split; [exact Hm|].
  destruct (Hnode _ _ Hm) as [Hloss _].
  destruct (Hloss (tgtOf nts row) eq_refl) as (? & ? & _). done.
Qed.

Lemma loss_node_shown_as_loss_sample :
  exists g m,
    LossRouting.parseExcelData showNumber [headerRow; lossRow] = Return g /\
    lossRow ∈ accepted (dataRows showNumber [headerRow; lossRow]) /\
    Js.ltb (valOf showNumber lossRow) Js.zero = true /\
    ("__loss__X"%string, m) ∈ GraphData.nodeMeta g /\
    NodeMeta.name m = "X (loss)"%string.
Proof.
  eexists.
  destruct (loss_node_shown_as_loss showNumber [headerRow; lossRow] _ eq_refl) as [_ Hrow].
  destruct (Hrow lossRow (list_elem_of_here _ _) eq_refl) as (m & Hm & Hname & _).
  exists m. split; [reflexivity|]. split; [apply list_elem_of_here|].
  split; [reflexivity|]. split; [exact Hm | exact Hname].
Defined.

(** ** The colour of a node in the sign-as-category revision *)

Lemma total_filter_snoc {A} (P : A -> Prop) `{!forall x, Decision (P x)}
    (f : A -> Js.number) (xs : list A) (x : A) :
  total (f <$> filter P (xs ++ [x])) =
  if decide (P x) then Js.add (total (f <$> filter P xs)) (f x)
  else total (f <$> filter P xs).
Proof.
  rewrite filter_app. destruct (decide (P x)) as [HP|HP].
  - rewrite (filter_cons_True P x []) by done. rewrite filter_nil, fmap_app. cbn.
    apply total_snoc.
  - rewrite (filter_cons_False P x []) by done. by rewrite filter_nil, app_nil_r.
Qed.

Lemma total_filter_none {A} (P : A -> Prop) `{!forall x, Decision (P x)}
    (f : A -> Js.number) (xs : list A) :
  (forall x, x ∈ xs -> ~ P x) -> total (f <$> filter P xs) = Js.zero.
Proof.
  intros Hnone. replace (filter P xs) with (@nil A); [done|].
  symmetry. induction xs as [|x xs IH]; [done|].
  rewrite filter_cons_False by (apply Hnone, list_elem_of_here).
  apply IH. intros y Hy. apply Hnone. by apply list_elem_of_further.
Qed.

Lemma sign_processRows_snoc nts rows row :
  SignCategory.processRows nts (rows ++ [row]) =
  SignCategory.processRow nts (SignCategory.processRows nts rows) row.
Proof. unfold SignCategory.processRows. by rewrite fold_left_app. Qed.

(** The two signed accumulators of an entry hold the signed sums of the
    rows read so far. *)
Lemma sign_net_sums nts rows id t :
  OMap.get id (SignCategory.nodeTotals (SignCategory.processRows nts rows)) = Some t ->
  SignCategory.rawSum t = netIn nts rows id /\
  SignCategory.rawOutSum t = netOut nts rows id.
Proof.
  revert t. induction rows as [|row rows IH] using rev_ind; intros t Ht; [done|].
  rewrite sign_processRows_snoc in Ht.
  unfold netIn, netOut. rewrite accepted_app.
  destruct (skipped row) eqn:Hs.
  { rewrite SignCategoryFacts.sign_processRow_skipped in Ht by done.
    unfold accepted at 2 4. rewrite filter_cons_False by (by rewrite Hs).
    rewrite filter_nil, app_nil_r. by apply IH. }
  replace (accepted [row]) with [row]
    by (unfold accepted; by rewrite filter_cons_True, filter_nil).
  rewrite !total_filter_snoc.
  rewrite SignCategoryFacts.sign_get_processRow in Ht by done. cbv zeta in Ht.
  destruct (OMap.get id (SignCategory.nodeTotals (SignCategory.processRows nts rows)))
    as [t0|] eqn:Hg.
  - destruct (IH t0 eq_refl) as [Hin Hout]. unfold netIn, netOut in Hin, Hout.
    cbn in Ht. injection Ht as <-. cbn. rewrite Hin, Hout.
    split; [destruct (decide (tgtOf nts row = id)) | destruct (decide (srcOf nts row = id))];
      by rewrite ?bool_decide_eq_true_2, ?bool_decide_eq_false_2 by done.
  - destruct (SignCategoryFacts.sign_tallied_processRows nts rows) as [_ Hst].
    specialize (Hst id). rewrite Hg in Hst.
    unfold SignCategory.processRows in Hst.
    rewrite SignCategoryFacts.sign_linkMeta_fold in Hst. cbn in Hst.
    assert (forall r, r ∈ accepted rows -> srcOf nts r <> id /\ tgtOf nts r <> id) as Hno.
    { intros r Hr. apply (Hst (signLinkOf nts r)). apply list_elem_of_fmap. by exists r. }
    rewrite !total_filter_none by (intros r Hr; by apply Hno).
    destruct (bool_decide (srcOf nts row = id) || bool_decide (tgtOf nts row = id)) eqn:E;
      [|done].
    cbn in Ht. injection Ht as <-. cbn.
    split; [destruct (decide (tgtOf nts row = id)) | destruct (decide (srcOf nts row = id))];
      rewrite ?bool_decide_eq_true_2, ?bool_decide_eq_false_2 by done;
      by rewrite ?JsFacts.add_zero_l.
Qed.

(** X10: in the sign-as-category revision the colours of a node follow
    the sign of a signed sum: a node with a positive incoming flow is in
    the cost colours exactly when the signed amounts of the rows that end
    in it add up to a negative number; a node without one but with a
    positive outgoing flow is judged by the rows that start from it; every
    other node is in the profit colours. *)
Theorem node_colour_follows_signed_sum
    (nts : Js.number -> string) (rawValues : list (list cell)) (g : GraphData.t)
    (id : string) (m : NodeMeta.t) :
  SignCategory.parseExcelData nts rawValues = Return g ->
  (id, m) ∈ GraphData.nodeMeta g ->
  NodeMeta.name m = id /\
  NodeMeta.fillColor m =
    fill (COLORS (signClass (flowIn (GraphData.linkMeta g) id)
                            (flowOut (GraphData.linkMeta g) id)
                            (netIn nts (dataRows nts rawValues) id)
                            (netOut nts (dataRows nts rawValues) id))) /\
  NodeMeta.accentColor m =
    accent (COLORS (signClass (flowIn (GraphData.linkMeta g) id)
                              (flowOut (GraphData.linkMeta g) id)
                              (netIn nts (dataRows nts rawValues) id)
                              (netOut nts (dataRows nts rawValues) id))).
Proof.
  intros H Hin. destruct (sign_parse_inv _ _ _ H) as (Hlen & _).
  rewrite SignCategoryFacts.sign_parseExcelData_Return in H by done.
  injection H as <-. cbn in *.
  apply list_elem_of_fmap in Hin as ([id' t] & [= -> ->] & Hin).
  destruct (SignCategoryFacts.sign_tallied_processRows nts (dataRows nts rawValues))
    as [Hnd Hst].
  pose proof (OMapFacts.elem_get _ _ _ Hnd Hin) as Hget.
  specialize (Hst id'). rewrite Hget in Hst.
  unfold SignCategory.processRows in Hst.
  rewrite SignCategoryFacts.sign_linkMeta_fold in Hst. cbn in Hst.
  destruct Hst as (Hi & Ho & _).
  destruct (sign_net_sums _ _ _ _ Hget) as [Hn Hno].
  unfold signClass. rewrite <- Hi, <- Ho, <- Hn, <- Hno. done.
Qed.

Lemma node_colour_follows_signed_sum_mixed :
  exists g m,
    SignCategory.parseExcelData showNumber mixedRows = Return g /\
    ("Result"%string, m) ∈ GraphData.nodeMeta g /\
    netIn showNumber (dataRows showNumber mixedRows) "Result" = Js.ofZ (-40) /\
    NodeMeta.fillColor m = fill (COLORS cost).
Proof.
  eexists. eexists. split; [reflexivity|].
  assert (netIn showNumber (dataRows showNumber mixedRows) "Result" = Js.ofZ (-40)) as Hn
    by by_compute.
  split; [|split; [exact Hn|]].
  - apply list_elem_of_further, list_elem_of_here.
  - match goal with |- NodeMeta.fillColor ?m = _ =>
      destruct (node_colour_follows_signed_sum showNumber mixedRows _ "Result" m eq_refl)
        as (_ & Hf & _)
    end.
    + apply list_elem_of_further, list_elem_of_here.
    + rewrite Hf. by_compute.
Defined.

(** * Number formatting *)

(** ** Strings *)

Lemma string_app_assoc (a b c : string) : ((a ++ b) ++ c = a ++ (b ++ c))%string.
Proof.
  induction a as [|x a IH]; [done|].
  change (String x ((a ++ b) ++ c) = String x (a ++ (b ++ c)))%string. by rewrite IH.
Qed.

Lemma string_app_nil_r (a : string) : (a ++ "" = a)%string.
Proof.
  induction a as [|x a IH]; [done|].
  change (String x (a ++ "") = String x a)%string. by rewrite IH.
Qed.

Lemma every_app p (a b : string) : every p (a ++ b)%string = every p a && every p b.
Proof.
  induction a as [|x a IH]; [done|].
  change (p x && every p (a ++ b)%string = p x && every p a && every p b).
  by rewrite IH, andb_assoc.
Qed.

Lemma every_impl (p q : ascii -> bool) s :
  (forall c, p c = true -> q c = true) -> every p s = true -> every q s = true.
Proof.
  intros Hpq. induction s as [|x s IH]; [done|]. cbn.
  intros [Hx Hs]%andb_true_iff. by rewrite (Hpq _ Hx), (IH Hs).
Qed.

Lemma takeChars_dropChars n s : (JsFixed.takeChars n s ++ Js.dropChars n s)%string = s.
Proof.
  revert s. induction n as [|n IH]; intros [|c s]; try done.
  change (String c (JsFixed.takeChars n s ++ Js.dropChars n s)%string = String c s).
  by rewrite IH.
Qed.

Lemma length_dropChars n s : String.length (Js.dropChars n s) = (String.length s - n)%nat.
Proof. revert s. induction n as [|n IH]; intros [|c s]; try done. cbn. apply IH. Qed.

Lemma length_takeChars n s :
  String.length (JsFixed.takeChars n s) = Nat.min n (String.length s).
Proof.
  revert s. induction n as [|n IH]; intros [|c s]; try done. cbn. by rewrite IH.
Qed.

Lemma length_zeros k : String.length (JsFixed.zeros k) = k.
Proof. induction k as [|k IH]; [done|]. cbn. by rewrite IH. Qed.

Lemma allDigits_zeros k : allDigits (JsFixed.zeros k) = true.
Proof. induction k as [|k IH]; [done|]. exact IH. Qed.

Lemma allDigits_uint d : allDigits (DecimalString.NilEmpty.string_of_uint d) = true.
Proof. induction d; try done; exact IHd. Qed.

Lemma allDigits_digitsOf n : allDigits (JsFixed.digitsOf n) = true.
Proof. apply allDigits_uint. Qed.

Lemma digitsOf_not_empty n : JsFixed.digitsOf n <> ""%string.
Proof.
  unfold JsFixed.digitsOf. destruct n as [|p]; [done|]. cbn.
  pose proof (DecimalPos.Unsigned.to_uint_nonnil p) as H.
  by destruct (Pos.to_uint p).
Qed.

(** The text between the sign and the suffix: an integer part that is not
    empty and, after the separator, exactly [f] digits. *)
Lemma pointed_split f m :
  allDigits m = true -> m <> ""%string ->
  exists ip fp,
    JsFixed.pointed f m = (ip ++ pointOf f ++ fp)%string /\
    ip <> ""%string /\ allDigits ip = true /\ allDigits fp = true /\
    String.length fp = f /\
    exists k, (JsFixed.zeros k ++ m = ip ++ fp)%string.
Proof.
  intros Hm Hne. destruct f as [|f'].
  - exists m, ""%string. cbn. rewrite !string_app_nil_r. repeat split; try done.
    by exists 0%nat.
  - set (f := S f'). unfold JsFixed.pointed. fold f.
    set (k := String.length m).
    assert (exists j m', (if (k <=? f)%nat then ((f + 1)%nat, (JsFixed.zeros (f + 1 - k) ++ m)%string) else (k, m)) = (String.length m', m') /\
              (f < String.length m')%nat /\ allDigits m' = true /\ m' = (JsFixed.zeros j ++ m)%string)
      as (j & m' & -> & Hlen & Hd & Hj).
    { destruct (k <=? f)%nat eqn:E.
      - apply Nat.leb_le in E. exists (f + 1 - k)%nat, (JsFixed.zeros (f + 1 - k) ++ m)%string.
        rewrite string_length_app, length_zeros. fold k.
        unfold allDigits. rewrite every_app. fold (allDigits m).
        rewrite Hm. replace (f + 1 - k + k)%nat with (f + 1)%nat by lia.
        repeat split; [lia|]. fold (allDigits (JsFixed.zeros (f + 1 - k))).
        by rewrite allDigits_zeros.
      - apply Nat.leb_gt in E. exists 0%nat, m. repeat split; done. }
    exists (JsFixed.takeChars (String.length m' - f) m'), (Js.dropChars (String.length m' - f) m').
    pose proof (takeChars_dropChars (String.length m' - f) m') as Hsplit.
    assert (allDigits (JsFixed.takeChars (String.length m' - f) m') = true /\
            allDigits (Js.dropChars (String.length m' - f) m') = true) as [Ha Hb].
    { rewrite <- Hsplit in Hd. unfold allDigits in *. rewrite every_app in Hd.
      by apply andb_true_iff in Hd. }
    repeat split; try done.
    + intros E. apply (f_equal String.length) in E. rewrite length_takeChars in E.
      cbn in E. lia.
    + rewrite length_dropChars. lia.
    + exists j. by rewrite Hsplit, Hj.
Qed.

Lemma startsWith_char c x s :
  Js.startsWith (String c "") (String x s) = bool_decide (c = x).
Proof.
  unfold Js.startsWith. cbn. destruct (ascii_dec c x) as [->|Hne].
  - rewrite bool_decide_eq_true_2 by done. by destruct s.
  - by rewrite bool_decide_eq_false_2.
Qed.

Lemma replace_lacks c rep s : lacks c s = true -> Js.replace (String c "") rep s = s.
Proof.
  induction s as [|x s IH]; [done|]. unfold lacks. cbn [every].
  intros [Hx Hs]%andb_true_iff. rewrite replace_unfold, startsWith_char.
  apply negb_true_iff, bool_decide_eq_false in Hx.
  rewrite bool_decide_eq_false_2 by congruence. f_equal. by apply IH.
Qed.

Lemma replace_first c rep a b :
  lacks c a = true ->
  Js.replace (String c "") rep (a ++ String c b)%string = (a ++ rep ++ b)%string.
Proof.
  induction a as [|x a IH].
  - intros _. change ("" ++ String c b)%string with (String c b).
    rewrite replace_unfold, startsWith_char, bool_decide_eq_true_2 by done.
    cbn [String.length Js.dropChars]. done.
  - unfold lacks. cbn [every]. intros [Hx Hs]%andb_true_iff.
    change (String x a ++ String c b)%string with (String x (a ++ String c b)).
    rewrite replace_unfold, startsWith_char.
    apply negb_true_iff, bool_decide_eq_false in Hx.
    rewrite bool_decide_eq_false_2 by congruence.
    change (String x a ++ rep ++ b)%string with (String x (a ++ rep ++ b)).
    f_equal. by apply IH.
Qed.

Lemma lacks_app c (a b : string) : lacks c (a ++ b)%string = lacks c a && lacks c b.
Proof. apply every_app. Qed.

Lemma digits_lack c s : Js.isDigit c = false -> allDigits s = true -> lacks c s = true.
Proof.
  intros Hc. apply every_impl. intros x Hx. apply negb_true_iff, bool_decide_eq_false.
  intros ->. congruence.
Qed.

Lemma minusOf_cases x : minusOf x = ""%string \/ minusOf x = "-"%string.
Proof. unfold minusOf. destruct (Js.ltb x Js.zero); auto. Qed.

Lemma lacks_minusOf c x : c <> "-"%char -> lacks c (minusOf x) = true.
Proof.
  intros Hc. destruct (minusOf_cases x) as [-> | ->]; [done|].
  unfold lacks. cbn. by rewrite bool_decide_eq_false_2.
Qed.

(** ** [toFixed] *)

Lemma chars_app (a b : string) :
  list_ascii_of_string (a ++ b)%string = list_ascii_of_string a ++ list_ascii_of_string b.
Proof.
  induction a as [|x a IH]; [done|].
  change (x :: list_ascii_of_string (a ++ b)%string =
          x :: (list_ascii_of_string a ++ list_ascii_of_string b)).
  by rewrite IH.
Qed.

Lemma digitsValue_step (ds : list ascii) acc :
  fold_left (fun acc c => 10 * acc + Js.digitValue c)%Z ds acc =
  (acc * 10 ^ Z.of_nat (length ds) +
   fold_left (fun acc c => 10 * acc + Js.digitValue c)%Z ds 0)%Z.
Proof.
  revert acc. induction ds as [|c ds IH]; intros acc.
  - cbn. lia.
  - cbn [fold_left length]. rewrite IH, (IH (10 * 0 + Js.digitValue c)%Z).
    rewrite Nat2Z.inj_succ, Z.pow_succ_r by lia. lia.
Qed.

Lemma digitsValue_uint_acc d acc :
  fold_left (fun acc c => 10 * acc + Js.digitValue c)%Z
    (list_ascii_of_string (DecimalString.NilEmpty.string_of_uint d)) (Z.pos acc) =
  Z.pos (Pos.of_uint_acc d acc).
Proof.
  revert acc. induction d; intros acc; [done|..];
    cbn [DecimalString.NilEmpty.string_of_uint list_ascii_of_string fold_left Pos.of_uint_acc];
    rewrite <- IHd; f_equal; unfold Js.digitValue; cbn; lia.
Qed.

Lemma digitsValue_uint d :
  Js.digitsValue (list_ascii_of_string (DecimalString.NilEmpty.string_of_uint d)) =
  Z.of_N (N.of_uint d).
Proof.
  unfold Js.digitsValue, N.of_uint.
  induction d; [done|..];
    cbn [DecimalString.NilEmpty.string_of_uint list_ascii_of_string fold_left Pos.of_uint];
    try exact IHd; apply (digitsValue_uint_acc d).
Qed.

Lemma digitsValue_digitsOf n :
  Js.digitsValue (list_ascii_of_string (JsFixed.digitsOf n)) = Z.of_N n.
Proof. unfold JsFixed.digitsOf. by rewrite digitsValue_uint, DecimalN.Unsigned.of_to. Qed.

Lemma digitsValue_zeros k (m : string) :
  Js.digitsValue (list_ascii_of_string (JsFixed.zeros k ++ m)%string) =
  Js.digitsValue (list_ascii_of_string m).
Proof. induction k as [|k IH]; [done|]. exact IH. Qed.

Lemma toFixed_shape nts f q :
  (f <= 100)%nat -> JsFixed.fixedRange (Js.Fin q) = true ->
  exists ip fp,
    JsFixed.toFixed nts f (Js.Fin q) =
      Return (minusOf (Js.Fin q) ++ ip ++ pointOf f ++ fp)%string /\
    ip <> ""%string /\ allDigits ip = true /\ allDigits fp = true /\
    String.length fp = f /\
    Js.digitsValue (list_ascii_of_string (ip ++ fp)%string) =
      Z.of_N (JsFixed.nearest f (Qcabs q)).
Proof.
  intros Hf Hr. unfold JsFixed.toFixed.
  rewrite (proj2 (Nat.ltb_ge _ _)) by lia. rewrite Hr. cbv zeta.
  destruct (pointed_split f (JsFixed.digitsOf (JsFixed.nearest f (Qcabs q)))
              (allDigits_digitsOf _) (digitsOf_not_empty _))
    as (ip & fp & -> & Hne & Hip & Hfp & Hlen & k & Hk).
  exists ip, fp. repeat split; try done.
  by rewrite <- Hk, digitsValue_zeros, digitsValue_digitsOf.
Qed.

Lemma fixedComma_shape nts f q :
  (f <= 100)%nat -> JsFixed.fixedRange (Js.Fin q) = true ->
  exists ip fp,
    fixedComma nts f (Js.Fin q) =
      Return (minusOf (Js.Fin q) ++ ip ++ commaOf f ++ fp)%string /\
    ip <> ""%string /\ allDigits ip = true /\ allDigits fp = true /\
    String.length fp = f /\
    Js.digitsValue (list_ascii_of_string (ip ++ fp)%string) =
      Z.of_N (JsFixed.nearest f (Qcabs q)).
Proof.
  intros Hf Hr.
  destruct (toFixed_shape nts f q Hf Hr) as (ip & fp & E & Hne & Hip & Hfp & Hlen & Hv).
  exists ip, fp. repeat split; try done.
  unfold fixedComma. rewrite E. f_equal.
  assert (lacks "." (minusOf (Js.Fin q) ++ ip)%string = true) as Hl.
  { rewrite lacks_app, lacks_minusOf by done. by rewrite digits_lack. }
  destruct f as [|f'].
  - destruct fp; [|done]. cbn [pointOf commaOf].
    change ("" ++ "")%string with ""%string. rewrite string_app_nil_r.
    by apply replace_lacks.
  - cbn [pointOf commaOf]. rewrite <- !string_app_assoc.
    change ((minusOf (Js.Fin q) ++ ip) ++ ".")%string
      with ((minusOf (Js.Fin q) ++ ip) ++ String "." "")%string.
    rewrite (string_app_assoc _ (String "." "") fp).
    change (String "." "" ++ fp)%string with (String "." fp).
    rewrite replace_first by done.
    by rewrite !string_app_assoc.
Qed.

Lemma includes_lacks c s : lacks c s = true -> Js.includes (String c "") s = false.
Proof.
  induction s as [|x s IH]; [done|]. unfold lacks. cbn [every].
  intros [Hx Hs]%andb_true_iff.
  change (Js.startsWith (String c "") (String x s) || Js.includes (String c "") s = false).
  rewrite startsWith_char, (IH Hs).
  apply negb_true_iff, bool_decide_eq_false in Hx.
  by rewrite bool_decide_eq_false_2 by congruence.
Qed.

Lemma lacks_commaOf c f : c <> ","%char -> lacks c (commaOf f) = true.
Proof.
  intros Hc. destruct f; [done|]. unfold lacks. cbn. by rewrite bool_decide_eq_false_2.
Qed.

(** X11: for at most 100 decimals and a value whose scaled magnitude is
    below 10^21, [formatValue] returns, in this order, a minus sign if the
    scaled value is negative, one or more digits, a comma followed by
    exactly [decimals] digits if [decimals] is not 0, and the suffix of
    the scale; the text holds no period.  The loss-routing revision prints
    what this one prints for one decimal. *)
Theorem formatValue_decimal_comma
    (nts : Js.number -> string) (value : Js.number) (scale : SankeyChart.ScaleMode)
    (decimals : nat) :
  (decimals <= 100)%nat ->
  JsFixed.fixedRange (scaledBy scale value) = true ->
  exists ip fp,
    formatValue nts value scale decimals =
      Return (minusOf (scaledBy scale value) ++ ip ++ commaOf decimals ++ fp ++
              suffixOf scale)%string /\
    ip <> ""%string /\ allDigits ip = true /\ allDigits fp = true /\
    String.length fp = decimals /\
    Js.includes "."
      (minusOf (scaledBy scale value) ++ ip ++ commaOf decimals ++ fp ++
       suffixOf scale)%string = false /\
    formatValue1 nts value scale = formatValue nts value scale 1.
Proof.
  intros Hd Hr.
  destruct (scaledBy scale value) as [q| | |] eqn:Eq; try discriminate.
  destruct (fixedComma_shape nts decimals q Hd Hr)
    as (ip & fp & E & Hne & Hip & Hfp & Hlen & _).
  exists ip, fp. repeat split; try done.
  - unfold formatValue. rewrite Eq, E. by rewrite !string_app_assoc.
  - apply includes_lacks.
    rewrite !lacks_app, lacks_minusOf, lacks_commaOf by done.
    rewrite !digits_lack by done. by destruct scale.
Qed.

Lemma formatValue_decimal_comma_billions :
  exists ip fp,
    formatValue showNumber (Js.ofZ 1500000000) SankeyChart.B 1 =
      Return ("" ++ ip ++ "," ++ fp ++ "B")%string /\
    ip <> ""%string /\ String.length fp = 1%nat.
Proof.
  destruct (formatValue_decimal_comma showNumber (Js.ofZ 1500000000) SankeyChart.B 1)
    as (ip & fp & E & Hne & _ & _ & Hlen & _); [lia | reflexivity |].
  exists ip, fp. split; [exact E|]. split; [exact Hne | exact Hlen].
Defined.

Lemma geb_finite q :
  JsFixed.geb (Js.Fin q) Js.zero = negb (Js.ltb (Js.Fin q) Js.zero).
Proof. reflexivity. Qed.

(** X12: [formatYoy] prints nothing for [null].  For at most 100 decimals
    and a percentage below 10^21 in magnitude it returns a sign, which is
    [+] exactly when the percentage is not negative and [-] otherwise (also
    when the digits that follow are all zero), one or more digits, a comma
    followed by exactly [decimals] digits if [decimals] is not 0, and the
    text [% Y/Y].  The loss-routing revision prints what this one prints
    for no decimals. *)
Theorem formatYoy_always_signed
    (nts : Js.number -> string) (pct : Js.number) (decimals : nat) :
  (decimals <= 100)%nat ->
  JsFixed.fixedRange pct = true ->
  exists ip fp,
    formatYoy nts (Some pct) decimals =
      Return ((if JsFixed.geb pct Js.zero then "+" else "-") ++ ip ++
              commaOf decimals ++ fp ++ "% Y/Y")%string /\
    ip <> ""%string /\ allDigits ip = true /\ allDigits fp = true /\
    String.length fp = decimals /\
    formatYoy nts None decimals = Return ""%string /\
    formatYoy1 nts (Some pct) = formatYoy nts (Some pct) 0 /\
    formatYoy1 nts None = Return ""%string.
Proof.
  intros Hd Hr. destruct pct as [q| | |]; try discriminate.
  destruct (fixedComma_shape nts decimals q Hd Hr)
    as (ip & fp & E & Hne & Hip & Hfp & Hlen & _).
  exists ip, fp. repeat split; try done.
  unfold formatYoy. cbv zeta. rewrite E, geb_finite. unfold minusOf.
  destruct (Js.ltb (Js.Fin q) Js.zero); cbn [negb]; by rewrite !string_app_assoc.
Qed.

Lemma formatYoy_always_signed_small_loss :
  exists ip fp,
    formatYoy showNumber (Some (qc (-4) 10)) 0 =
      Return ("-" ++ ip ++ "" ++ fp ++ "% Y/Y")%string /\
    formatYoy showNumber (Some (qc (-4) 10)) 0 = Return "-0% Y/Y"%string.
Proof.
  destruct (formatYoy_always_signed showNumber (qc (-4) 10) 0)
    as (ip & fp & E & _); [lia | reflexivity |].
  exists ip, fp. split; [exact E | reflexivity].
Defined.

(** ** Reading a printed number back *)

Lemma isDigit_elem c :
  Js.isDigit c = true ->
  c ∈ ["0"; "1"; "2"; "3"; "4"; "5"; "6"; "7"; "8"; "9"]%char.
Proof.
  unfold Js.isDigit. cbv zeta. intros [H1 H2]%andb_true_iff.
  apply N.leb_le in H1, H2. rewrite <- (ascii_N_embedding c).
  assert (N_of_ascii c = 48 \/ N_of_ascii c = 49 \/ N_of_ascii c = 50 \/
          N_of_ascii c = 51 \/ N_of_ascii c = 52 \/ N_of_ascii c = 53 \/
          N_of_ascii c = 54 \/ N_of_ascii c = 55 \/ N_of_ascii c = 56 \/
          N_of_ascii c = 57)%N as Hc by lia.
  destruct_or!; rewrite Hc; set_solver.
Qed.

Ltac by_digit H :=
  apply isDigit_elem in H;
  repeat (apply elem_of_cons in H as [->|H]); try reflexivity;
  by apply elem_of_nil in H.

Lemma digit_not_space c : Js.isDigit c = true -> Js.isWhiteSpace c = false.
Proof. intros H. by_digit H. Qed.

Lemma parseFloat_digit c r :
  Js.isDigit c = true -> Js.parseFloat (String c r) = Js.scanUnsigned (String c r).
Proof. intros H. by_digit H. Qed.

Lemma not_Infinity c r :
  Js.isDigit c = true -> Js.startsWith "Infinity" (String c r) = false.
Proof. intros H. by_digit H. Qed.

Lemma trim_no_space s :
  every (fun c => negb (Js.isWhiteSpace c)) s = true ->
  Js.trim s = s /\ Js.removeWhiteSpace s = s.
Proof.
  intros H. split.
  - unfold Js.trim. assert (Js.trimStart s = s) as ->.
    { destruct s as [|c s]; [done|]. cbn in *.
      apply andb_true_iff in H as [Hc _]. apply negb_true_iff in Hc. by rewrite Hc. }
    induction s as [|c s IH]; [done|]. cbn [every] in H.
    apply andb_true_iff in H as [Hc Hs]. apply negb_true_iff in Hc.
    cbn [Js.trimEnd]. rewrite (IH Hs). destruct s; [by rewrite Hc | done].
  - induction s as [|c s IH]; [done|]. cbn [every] in H.
    apply andb_true_iff in H as [Hc Hs]. apply negb_true_iff in Hc.
    cbn [Js.removeWhiteSpace]. by rewrite Hc, (IH Hs).
Qed.

Lemma spanDigits_app a r :
  allDigits a = true -> Js.spanDigits r = ([], r) ->
  Js.spanDigits (a ++ r)%string = (list_ascii_of_string a, r).
Proof.
  intros Ha Hr. induction a as [|c a IH]; [exact Hr|].
  unfold allDigits in Ha. cbn [every] in Ha. apply andb_true_iff in Ha as [Hc Ha].
  change (String c a ++ r)%string with (String c (a ++ r)).
  cbn [Js.spanDigits list_ascii_of_string]. by rewrite Hc, (IH Ha).
Qed.

Lemma tenTo_power f :
  Qpower (inject_Z 10) (- Z.of_nat f) == / JsFixed.tenTo f.
Proof.
  unfold JsFixed.tenTo. rewrite Qpower_opp. apply Qinv_comp.
  symmetry. apply Zpower_Qpower. lia.
Qed.

(** What [parseFloat] makes of the digits [ip], a decimal point, the [f]
    digits [fp] and a suffix of the scale. *)
Lemma scanUnsigned_fixed ip fp f scale :
  ip <> ""%string -> allDigits ip = true -> allDigits fp = true ->
  String.length fp = f ->
  Js.scanUnsigned (ip ++ pointOf f ++ fp ++ suffixOf scale)%string =
  Js.Fin (Q2Qc (inject_Z (Js.digitsValue (list_ascii_of_string (ip ++ fp)%string)) /
                JsFixed.tenTo f)).
Proof.
  intros Hne Hip Hfp Hlen.
  assert (Js.spanDigits (suffixOf scale) = ([], suffixOf scale)) as Hs by by destruct scale.
  assert (Js.scanExponent (suffixOf scale) = 0%Z) as He by by destruct scale.
  assert (length (list_ascii_of_string fp) = f) as Hlen'.
  { rewrite <- Hlen. clear. induction fp as [|c fp IH]; [done|]. cbn. by rewrite IH. }
  unfold Js.scanUnsigned.
  assert (Js.startsWith "Infinity" (ip ++ pointOf f ++ fp ++ suffixOf scale)%string = false)
    as ->.
  { destruct ip as [|c ip]; [done|]. unfold allDigits in Hip. cbn [every] in Hip.
    apply andb_true_iff in Hip as [Hc _]. by apply not_Infinity. }
  assert (list_ascii_of_string ip <> []) as Hne'.
  { destruct ip; [done|]. discriminate. }
  assert (forall ds e,
            ds = list_ascii_of_string ip ++ list_ascii_of_string fp ->
            e = (- Z.of_nat f)%Z ->
            Js.Fin (Q2Qc (inject_Z (Js.digitsValue ds) * Qpower (inject_Z 10) e)) =
            Js.Fin (Q2Qc (inject_Z (Js.digitsValue (list_ascii_of_string (ip ++ fp)%string)) /
                          JsFixed.tenTo f))) as Hval.
  { intros ds e -> ->. f_equal. apply Qc_is_canon. cbn [this Q2Qc].
    rewrite !Qred_correct, chars_app. unfold Qdiv. by rewrite tenTo_power. }
  destruct f as [|f'].
  - destruct fp; [|done]. cbn [pointOf].
    change ("" ++ "" ++ suffixOf scale)%string with (suffixOf scale).
    rewrite (spanDigits_app ip _ Hip Hs).
    assert ((match suffixOf scale with
             | String "." r => Js.spanDigits r
             | _ => ([], suffixOf scale)
             end) = ([], suffixOf scale)) as -> by by destruct scale.
    destruct (list_ascii_of_string ip) as [|c cs] eqn:Ec; [done|].
    rewrite He. apply Hval; [done | cbn; lia].
  - cbn [pointOf].
    change ("." ++ fp ++ suffixOf scale)%string with (String "." (fp ++ suffixOf scale)).
    rewrite (spanDigits_app ip (String "." (fp ++ suffixOf scale)) Hip eq_refl).
    rewrite (spanDigits_app fp _ Hfp Hs).
    destruct (list_ascii_of_string ip) as [|c cs] eqn:Ec; [done|].
    rewrite He, Hlen'. apply Hval; [done | lia].
Qed.

Lemma orElse_finite q : Js.orElse (Js.Fin q) Js.zero = Js.Fin q.
Proof.
  unfold Js.orElse, Js.truthy. case_bool_decide as E; [|done]. by rewrite E.
Qed.

Lemma every_minusOf (p : ascii -> bool) x : p "-"%char = true -> every p (minusOf x) = true.
Proof. intros Hp. destruct (minusOf_cases x) as [-> | ->]; [done|]. cbn. by rewrite Hp. Qed.

Lemma every_commaOf (p : ascii -> bool) f : p ","%char = true -> every p (commaOf f) = true.
Proof. intros Hp. destruct f; [done|]. cbn. by rewrite Hp. Qed.

(** [parseNum] applied to the text that [formatValue] prints for the
    scaled value [q]. *)
Lemma parseNum_fixedComma nts f q scale :
  (f <= 100)%nat -> JsFixed.fixedRange (Js.Fin q) = true ->
  exists s,
    fixedComma nts f (Js.Fin q) = Return s /\
    parseNum nts (Some (CString (s ++ suffixOf scale)%string)) = roundedTo f (Js.Fin q).
Proof.
  intros Hf Hr.
  destruct (fixedComma_shape nts f q Hf Hr) as (ip & fp & E & Hne & Hip & Hfp & Hlen & Hv).
  eexists. split; [exact E|].
  unfold parseNum, normalize, ToString.
  set (out := ((minusOf (Js.Fin q) ++ ip ++ commaOf f ++ fp) ++ suffixOf scale)%string).
  assert (every (fun c => negb (Js.isWhiteSpace c)) out = true) as Hsp.
  { unfold out. rewrite !every_app, every_minusOf, every_commaOf by done.
    assert (forall s, allDigits s = true ->
                      every (fun c => negb (Js.isWhiteSpace c)) s = true) as Hd.
    { intros s. apply every_impl. intros c Hc. by rewrite digit_not_space. }
    rewrite !Hd by done. by destruct scale. }
  destruct (trim_no_space out Hsp) as [-> ->].
  assert (Js.replace "," "." out =
          (minusOf (Js.Fin q) ++ ip ++ pointOf f ++ fp ++ suffixOf scale)%string) as ->.
  { unfold out.
    assert (lacks "," (minusOf (Js.Fin q) ++ ip)%string = true) as Hl.
    { rewrite lacks_app, lacks_minusOf by done. by rewrite digits_lack. }
    destruct f as [|f'].
    - destruct fp; [|done]. cbn [commaOf pointOf]. rewrite !string_app_assoc.
      apply replace_lacks. rewrite !lacks_app in *. apply andb_true_iff in Hl as [-> ->].
      by destruct scale.
    - cbn [commaOf pointOf]. rewrite !string_app_assoc, <- (string_app_assoc _ ip).
      change ("," ++ fp ++ suffixOf scale)%string with (String "," (fp ++ suffixOf scale)).
      rewrite replace_first by done. by rewrite !string_app_assoc. }
  pose proof (scanUnsigned_fixed ip fp f scale Hne Hip Hfp Hlen) as Hscan.
  rewrite Hv in Hscan. unfold roundedTo, minusOf. cbv zeta.
  destruct (Js.ltb (Js.Fin q) Js.zero).
  - change (Js.parseFloat ("-" ++ ip ++ pointOf f ++ fp ++ suffixOf scale)%string)
      with (Js.neg (Js.scanUnsigned (ip ++ pointOf f ++ fp ++ suffixOf scale)%string)).
    rewrite Hscan. cbn [Js.neg]. apply orElse_finite.
  - change ("" ++ ip ++ pointOf f ++ fp ++ suffixOf scale)%string
      with (ip ++ pointOf f ++ fp ++ suffixOf scale)%string.
    destruct ip as [|c ip]; [done|].
    unfold allDigits in Hip. cbn [every] in Hip. apply andb_true_iff in Hip as [Hc _].
    change (String c ip ++ pointOf f ++ fp ++ suffixOf scale)%string
      with (String c (ip ++ pointOf f ++ fp ++ suffixOf scale)) in *.
    rewrite (parseFloat_digit _ _ Hc), Hscan. apply orElse_finite.
Qed.

(** ** Rounding *)

From Stdlib Require Import Qabs Lqa.

Lemma tenTo_positive f : (0 < JsFixed.tenTo f)%Q.
Proof.
  unfold JsFixed.tenTo. change 0%Q with (inject_Z 0). rewrite <- Zlt_Qlt.
  apply Z.pow_pos_nonneg; lia.
Qed.

Lemma nearest_floor f (a : Q) :
  (0 <= a)%Q ->
  Z.of_N (JsFixed.nearest f a) = Qfloor (a * JsFixed.tenTo f + (1 # 2))%Q.
Proof.
  intros Ha. unfold JsFixed.nearest. rewrite Z2N.id; [done|].
  rewrite <- (Qfloor_Z 0). apply Qfloor_resp_le.
  pose proof (tenTo_positive f) as HT.
  assert (0 <= a * JsFixed.tenTo f)%Q by (apply Qmult_le_0_compat; lra).
  change (inject_Z 0) with 0%Q. lra.
Qed.

(** ** Reading a printed value back *)

Lemma replace_point x ip fp f :
  allDigits ip = true -> allDigits fp = true -> String.length fp = f ->
  Js.replace "." "," (minusOf x ++ ip ++ pointOf f ++ fp)%string =
  (minusOf x ++ ip ++ commaOf f ++ fp)%string.
Proof.
  intros Hip Hfp Hlen.
  assert (lacks "." (minusOf x ++ ip)%string = true) as Hl.
  { rewrite lacks_app, lacks_minusOf by done. by rewrite digits_lack. }
  destruct f as [|f'].
  - destruct fp; [|done]. cbn [pointOf commaOf].
    change ("" ++ "")%string with ""%string. rewrite string_app_nil_r.
    by apply replace_lacks.
  - cbn [pointOf commaOf]. rewrite <- !string_app_assoc.
    change ((minusOf x ++ ip) ++ ".")%string
      with ((minusOf x ++ ip) ++ String "." "")%string.
    rewrite (string_app_assoc _ (String "." "") fp).
    change (String "." "" ++ fp)%string with (String "." fp).
    rewrite replace_first by done.
    by rewrite !string_app_assoc.
Qed.

(** The text that [parseNum] hands to [parseFloat]. *)
Lemma normalize_comma nts x ip fp f scale :
  allDigits ip = true -> allDigits fp = true -> String.length fp = f ->
  normalize nts (Some (CString ((minusOf x ++ ip ++ commaOf f ++ fp) ++ suffixOf scale)%string)) =
  ((minusOf x ++ ip ++ pointOf f ++ fp) ++ suffixOf scale)%string.
Proof.
  intros Hip Hfp Hlen. unfold normalize, ToString.
  set (out := ((minusOf x ++ ip ++ commaOf f ++ fp) ++ suffixOf scale)%string).
  assert (every (fun c => negb (Js.isWhiteSpace c)) out = true) as Hsp.
  { unfold out. rewrite !every_app, every_minusOf, every_commaOf by done.
    assert (forall s, allDigits s = true ->
                      every (fun c => negb (Js.isWhiteSpace c)) s = true) as Hd.
    { intros s. apply every_impl. intros c Hc. by rewrite digit_not_space. }
    rewrite !Hd by done. by destruct scale. }
  destruct (trim_no_space out Hsp) as [-> ->]. unfold out.
  assert (lacks "," (minusOf x ++ ip)%string = true) as Hl.
  { rewrite lacks_app, lacks_minusOf by done. by rewrite digits_lack. }
  destruct f as [|f'].
  - destruct fp; [|done]. cbn [commaOf pointOf].
    apply replace_lacks. rewrite !lacks_app in *. apply andb_true_iff in Hl as [-> ->].
    by destruct scale.
  - cbn [commaOf pointOf]. rewrite !string_app_assoc, <- (string_app_assoc _ ip).
    change ("," ++ fp ++ suffixOf scale)%string with (String "," (fp ++ suffixOf scale)).
    rewrite replace_first by done. by rewrite !string_app_assoc.
Qed.

(** [parseFloat] does not read the suffix of the scale. *)
Lemma parseFloat_suffix x ip fp f scale :
  ip <> ""%string -> allDigits ip = true -> allDigits fp = true ->
  String.length fp = f ->
  Js.parseFloat ((minusOf x ++ ip ++ pointOf f ++ fp) ++ suffixOf scale)%string =
  Js.parseFloat (minusOf x ++ ip ++ pointOf f ++ fp)%string.
Proof.
  intros Hne Hip Hfp Hlen.
  pose proof (scanUnsigned_fixed ip fp f scale Hne Hip Hfp Hlen) as Hscan.
  pose proof (scanUnsigned_fixed ip fp f SankeyChart.Raw Hne Hip Hfp Hlen) as Hraw.
  cbn [suffixOf] in Hraw. rewrite string_app_nil_r in Hraw.
  rewrite !string_app_assoc.
  destruct (minusOf_cases x) as [-> | ->].
  - change ("" ++ ?s)%string with s.
    destruct ip as [|c ip]; [done|].
    unfold allDigits in Hip. cbn [every] in Hip. apply andb_true_iff in Hip as [Hc _].
    change (String c ip ++ ?s)%string with (String c (ip ++ s)) in *.
    rewrite !(parseFloat_digit _ _ Hc). by rewrite Hscan, Hraw.
  - change (Js.parseFloat ("-" ++ ip ++ pointOf f ++ fp ++ suffixOf scale)%string)
      with (Js.neg (Js.scanUnsigned (ip ++ pointOf f ++ fp ++ suffixOf scale)%string)).
    change (Js.parseFloat ("-" ++ ip ++ pointOf f ++ fp)%string)
      with (Js.neg (Js.scanUnsigned (ip ++ pointOf f ++ fp)%string)).
    by rewrite Hscan, Hraw.
Qed.

(** X13: [parseNum] undoes the decimal comma of [formatValue].  For at
    most 100 decimals and a scaled value below 10^21 in magnitude,
    [toFixed] returns a text [s]; [formatValue] returns [s] with its
    period turned into a comma, followed by the suffix of the scale;
    [parseNum] applied to this text hands [s] followed by the suffix to
    [parseFloat], and the number it returns is the one that [parseFloat]
    reads from [s] itself (0 if that is 0). *)
Theorem parseNum_reads_formatValue
    (nts : Js.number -> string) (value : Js.number) (scale : SankeyChart.ScaleMode)
    (decimals : nat) :
  (decimals <= 100)%nat ->
  JsFixed.fixedRange (scaledBy scale value) = true ->
  exists s : string,
    JsFixed.toFixed nts decimals (scaledBy scale value) = Return s /\
    formatValue nts value scale decimals =
      Return (Js.replace "." "," s ++ suffixOf scale)%string /\
    normalize nts (Some (CString (Js.replace "." "," s ++ suffixOf scale)%string)) =
      (s ++ suffixOf scale)%string /\
    parseNum nts (Some (CString (Js.replace "." "," s ++ suffixOf scale)%string)) =
      Js.orElse (Js.parseFloat s) Js.zero.
Proof.
  intros Hd Hr.
  destruct (scaledBy scale value) as [q| | |] eqn:Eq; try discriminate.
  destruct (toFixed_shape nts decimals q Hd Hr)
    as (ip & fp & E & Hne & Hip & Hfp & Hlen & _).
  eexists. split; [exact E|].
  rewrite (replace_point _ _ _ _ Hip Hfp Hlen).
  pose proof (normalize_comma nts (Js.Fin q) ip fp decimals scale Hip Hfp Hlen) as Hn.
  split; [|split; [exact Hn|]].
  - unfold formatValue, fixedComma. rewrite Eq, E.
    by rewrite (replace_point _ _ _ _ Hip Hfp Hlen).
  - unfold parseNum. rewrite Hn. f_equal.
    by apply parseFloat_suffix.
Qed.

Lemma parseNum_reads_formatValue_thousands :
  exists s : string,
    JsFixed.toFixed showNumber 2 (scaledBy SankeyChart.K (Js.ofZ (-1234))) = Return s /\
    s = "-1.23"%string /\
    formatValue showNumber (Js.ofZ (-1234)) SankeyChart.K 2 = Return "-1,23K"%string /\
    parseNum showNumber (Some (CString "-1,23K")) =
      Js.orElse (Js.parseFloat "-1.23") Js.zero.
Proof.
  destruct (parseNum_reads_formatValue showNumber (Js.ofZ (-1234)) SankeyChart.K 2)
    as (s & E & Ef & _ & Hp); [lia | reflexivity |].
  assert (s = "-1.23"%string) as ->.
  { assert (Return s = Return "-1.23"%string) as H by (rewrite <- E; reflexivity).
    by injection H. }
  exists "-1.23"%string. split; [exact E|]. split; [reflexivity|].
  split; [exact Ef | exact Hp].
Defined.

(** ** Whole numbers *)

Lemma Qfloor_half (k : Z) : Qfloor (inject_Z k + (1 # 2)) = k.
Proof.
  unfold Qfloor, inject_Z, Qplus. cbn [Qnum Qden].
  symmetry. apply (Z.div_unique _ _ _ 1); lia.
Qed.

Lemma tenTo_mult (k : Z) f :
  (inject_Z k * JsFixed.tenTo f == inject_Z (k * 10 ^ Z.of_nat f))%Q.
Proof. unfold JsFixed.tenTo. by rewrite inject_Z_mult. Qed.

Lemma Qabs_inject (z : Z) : Qabs (inject_Z z) = inject_Z (Z.abs z).
Proof. reflexivity. Qed.

Lemma Qcabs_ofZ z : (this (Qcabs (Q2Qc (inject_Z z))) == inject_Z (Z.abs z))%Q.
Proof.
  change (this (Qcabs (Q2Qc (inject_Z z)))) with (Qabs (Qred (inject_Z z))).
  by rewrite Qred_correct.
Qed.

Lemma fixedRange_ofZ z :
  (Z.abs z < 10 ^ 21)%Z -> JsFixed.fixedRange (Js.ofZ z) = true.
Proof.
  intros Hz. unfold JsFixed.fixedRange, Js.ofZ. apply negb_true_iff.
  destruct (Qle_bool _ _) eqn:E; [|done]. apply Qle_bool_iff in E.
  rewrite Qcabs_ofZ in E. unfold JsFixed.tenTo in E. rewrite <- Zle_Qle in E.
  change (Z.of_nat 21) with 21%Z in E. lia.
Qed.

Lemma roundedTo_ofZ f z : roundedTo f (Js.ofZ z) = Js.ofZ z.
Proof.
  unfold roundedTo, Js.ofZ. cbv zeta. f_equal.
  pose proof (tenTo_positive f) as HT.
  assert (Z.of_N (JsFixed.nearest f (Qcabs (Q2Qc (inject_Z z)))) =
          (Z.abs z * 10 ^ Z.of_nat f)%Z) as ->.
  { rewrite nearest_floor by apply Qabs_nonneg.
    rewrite <- (Qfloor_half (Z.abs z * 10 ^ Z.of_nat f)). apply Qfloor_comp.
    by rewrite Qcabs_ofZ, tenTo_mult. }
  assert (Q2Qc (inject_Z (Z.abs z * 10 ^ Z.of_nat f) / JsFixed.tenTo f) =
          Q2Qc (inject_Z (Z.abs z))) as ->.
  { apply Qc_is_canon. cbn [this Q2Qc]. rewrite !Qred_correct, <- tenTo_mult.
    field. lra. }
  unfold Js.ltb, Js.zero.
  destruct (Q2Qc (inject_Z z) ?= Q2Qc 0)%Qc eqn:C.
  - apply Qceq_alt in C. rewrite C.
    apply (f_equal this) in C. cbn [this Q2Qc] in C.
    apply Qc_is_canon. cbn [this Q2Qc]. rewrite !Qred_correct.
    assert (inject_Z z == 0)%Q as Hz by (rewrite <- (Qred_correct (inject_Z z)), C; done).
    unfold Qeq in Hz. cbn in Hz. assert (z = 0%Z) as -> by lia. reflexivity.
  - apply Qclt_alt in C. unfold Qclt in C. cbn [this Q2Qc] in C.
    rewrite !Qred_correct in C. change 0%Q with (inject_Z 0) in C. rewrite <- Zlt_Qlt in C.
    apply Qc_is_canon. cbn [this Q2Qc Qcopp]. rewrite !Qred_correct.
    rewrite <- inject_Z_opp. by replace (- Z.abs z)%Z with z by lia.
  - apply Qcgt_alt in C. unfold Qclt in C. cbn [this Q2Qc] in C.
    rewrite !Qred_correct in C. change 0%Q with (inject_Z 0) in C. rewrite <- Zlt_Qlt in C.
    by replace (Z.abs z) with z by lia.
Qed.

(** X14: a whole number below 10^21 in magnitude that [formatValue] prints
    without scaling, with any number of decimals up to 100, is read back
    by [parseNum] as the same number. *)
Theorem whole_number_round_trip
    (nts : Js.number -> string) (z : Z) (decimals : nat) :
  (decimals <= 100)%nat ->
  (Z.abs z < 10 ^ 21)%Z ->
  exists out : string,
    formatValue nts (Js.ofZ z) SankeyChart.Raw decimals = Return out /\
    parseNum nts (Some (CString out)) = Js.ofZ z.
Proof.
  intros Hd Hz.
  destruct (parseNum_fixedComma nts decimals (Q2Qc (inject_Z z)) SankeyChart.Raw Hd
              (fixedRange_ofZ z Hz)) as (s & Es & Hp).
  exists (s ++ suffixOf SankeyChart.Raw)%string. split.
  - unfold formatValue. cbn [scaledBy]. unfold Js.ofZ. by rewrite Es.
  - rewrite Hp. apply roundedTo_ofZ.
Qed.

Lemma whole_number_round_trip_negative :
  exists out : string,
    formatValue showNumber (Js.ofZ (-140)) SankeyChart.Raw 2 = Return out /\
    parseNum showNumber (Some (CString out)) = Js.ofZ (-140).
Proof. apply (whole_number_round_trip showNumber (-140) 2); [lia | reflexivity]. Defined.

(** * The nodes of the graph are the labels of the rows *)

Lemma keys_is_Some {V} (m : list (string * V)) id :
  id ∈ OMap.keys m <-> is_Some (OMap.get id m).
Proof.
  destruct (OMap.get id m) as [v|] eqn:E.
  - split; [by eauto|]. intros _.
    destruct (decide (id ∈ OMap.keys m)) as [?|Hn]; [done|].
    apply OMapFacts.get_None_keys in Hn. congruence.
  - split; [|by intros [? ?]]. intros Hin.
    by apply OMapFacts.get_None_keys in E.
Qed.

Lemma loss_processRows_snoc nts rows row :
  LossRouting.processRows nts (rows ++ [row]) =
  LossRouting.processRow nts (LossRouting.processRows nts rows) row.
Proof. unfold LossRouting.processRows. by rewrite fold_left_app. Qed.

Lemma sign_keys_rows nts rows id :
  is_Some (OMap.get id (SignCategory.nodeTotals (SignCategory.processRows nts rows))) <->
  exists row, row ∈ accepted rows /\ (srcOf nts row = id \/ tgtOf nts row = id).
Proof.
  induction rows as [|row rows IH] using rev_ind.
  - cbn. split; [by intros [? ?]|]. intros (row & Hrow & _). by apply elem_of_nil in Hrow.
  - rewrite sign_processRows_snoc, accepted_app.
    destruct (skipped row) eqn:E.
    + rewrite SignCategoryFacts.sign_processRow_skipped by done.
      rewrite accepted_cons, E. cbn [accepted filter]. rewrite app_nil_r. exact IH.
    + rewrite SignCategoryFacts.sign_get_processRow by done. cbv zeta.
      rewrite accepted_cons, E. rewrite fmap_is_Some.
      change (accepted []) with (@nil (list cell)).
      split.
      * destruct (OMap.get id _) as [t|] eqn:Eg.
        -- intros _. destruct (proj1 IH) as (r & Hr & Hid); [by eauto|].
           exists r. split; [|done]. apply elem_of_app. by left.
        -- intros Hs. exists row. split; [apply elem_of_app; right; apply list_elem_of_here|].
           destruct (bool_decide (srcOf nts row = id)) eqn:Es.
           ++ left. by apply bool_decide_eq_true in Es.
           ++ destruct (bool_decide (tgtOf nts row = id)) eqn:Et.
              ** right. by apply bool_decide_eq_true in Et.
              ** cbn in Hs. by destruct Hs.
      * intros (r & Hr & Hid). apply elem_of_app in Hr as [Hr|Hr].
        -- destruct (proj2 IH) as [t ->]; [by eauto|]. by eauto.
        -- apply list_elem_of_singleton in Hr as ->.
           destruct (OMap.get id _) as [t|]; [by eauto|].
           destruct Hid as [<- | <-].
           ++ rewrite bool_decide_eq_true_2 by done. by eauto.
           ++ rewrite (bool_decide_eq_true_2 (tgtOf nts row = tgtOf nts row)) by done.
              rewrite orb_true_r. by eauto.
Qed.

Lemma loss_keys_rows nts rows id :
  is_Some (OMap.get id (LossRouting.nodeTotals (LossRouting.processRows nts rows))) <->
  exists row, row ∈ accepted rows /\
    (srcOf nts row = id \/ tgtOf nts row = id \/
     (Js.ltb (valOf nts row) Js.zero = true /\
      id = (LossRouting.lossPrefix ++ tgtOf nts row)%string)).
Proof.
  assert (forall row,
            leaves id (lossLinkOf nts row) || bool_decide (tgtOf nts row = id) ||
              enters id (lossLinkOf nts row) = true <->
            (srcOf nts row = id \/ tgtOf nts row = id \/
             (Js.ltb (valOf nts row) Js.zero = true /\
              id = (LossRouting.lossPrefix ++ tgtOf nts row)%string))) as Hrow.
  { intros row. unfold leaves, enters, lossLinkOf.
    cbn [LinkMeta.sourceId LinkMeta.targetId].
    rewrite !orb_true_iff, !bool_decide_eq_true.
    destruct (Js.ltb (valOf nts row) Js.zero); split.
    - intros [[H|H]|H]; [by left | by right; left | by right; right].
    - intros [H|[H|[_ H]]]; [by left; left | by left; right | by right].
    - intros [[H|H]|H]; [by left | by right; left | by right; left].
    - intros [H|[H|[H _]]]; [by left; left | by left; right | done]. }
  induction rows as [|row rows IH] using rev_ind.
  - cbn. split; [by intros [? ?]|]. intros (row & Hr & _). by apply elem_of_nil in Hr.
  - rewrite loss_processRows_snoc, accepted_app.
    destruct (skipped row) eqn:E.
    + rewrite LossRoutingFacts.loss_processRow_skipped by done.
      rewrite accepted_cons, E. cbn [accepted filter]. rewrite app_nil_r. exact IH.
    + rewrite LossRoutingFacts.loss_get_processRow by done. cbv zeta.
      rewrite accepted_cons, E. rewrite fmap_is_Some.
      change (accepted []) with (@nil (list cell)).
      split.
      * destruct (OMap.get id _) as [t|] eqn:Eg.
        -- intros _. destruct (proj1 IH) as (r & Hr & Hid); [by eauto|].
           exists r. split; [|done]. apply elem_of_app. by left.
        -- intros Hs. exists row. split; [apply elem_of_app; right; apply list_elem_of_here|].
           apply Hrow. destruct (_ || _ || _); [done|]. by destruct Hs.
      * intros (r & Hr & Hid). apply elem_of_app in Hr as [Hr|Hr].
        -- destruct (proj2 IH) as [t ->]; [by eauto|]. by eauto.
        -- apply list_elem_of_singleton in Hr as ->.
           destruct (OMap.get id _) as [t|]; [by eauto|].
           apply Hrow in Hid. rewrite Hid. by eauto.
Qed.

(** X15: the nodes of the graph are exactly the trimmed labels of the rows
    that are not skipped.  In the sign-as-category revision a text is a
    node id exactly when it is the source or the target label of such a
    row.  In the loss-routing revision it is one exactly when it is the
    source label, the target label (also of a row whose amount is
    negative, whose edge does not end there), or the loss prefix followed
    by the target label of a row with a negative amount. *)
Theorem node_ids_are_the_row_labels
    (nts : Js.number -> string) (rawValues : list (list cell)) (gL gS : GraphData.t) :
  LossRouting.parseExcelData nts rawValues = Return gL ->
  SignCategory.parseExcelData nts rawValues = Return gS ->
  (forall id,
     id ∈ GraphData.sankeyNodes gS <->
     exists row, row ∈ accepted (dataRows nts rawValues) /\
                 (srcOf nts row = id \/ tgtOf nts row = id)) /\
  (forall id,
     id ∈ GraphData.sankeyNodes gL <->
     exists row, row ∈ accepted (dataRows nts rawValues) /\
                 (srcOf nts row = id \/ tgtOf nts row = id \/
                  (Js.ltb (valOf nts row) Js.zero = true /\
                   id = (LossRouting.lossPrefix ++ tgtOf nts row)%string))).
Proof.
  intros HL HS.
  destruct (loss_parse_inv _ _ _ HL) as (HlenL & _).
  destruct (sign_parse_inv _ _ _ HS) as (HlenS & _).
  rewrite LossRoutingFacts.loss_parseExcelData_Return in HL by done.
  rewrite SignCategoryFacts.sign_parseExcelData_Return in HS by done.
  injection HL as <-. injection HS as <-. cbn [GraphData.sankeyNodes].
  split; intros id; rewrite keys_is_Some.
  - apply sign_keys_rows.
  - apply loss_keys_rows.
Qed.

Lemma node_ids_are_the_row_labels_loss :
  exists gL gS,
    LossRouting.parseExcelData showNumber [headerRow; lossRow] = Return gL /\
    SignCategory.parseExcelData showNumber [headerRow; lossRow] = Return gS /\
    GraphData.sankeyNodes gL = ["A"; "X"; "__loss__X"]%string /\
    LinkMeta.targetId <$> GraphData.linkMeta gL = ["__loss__X"]%string /\
    ("X"%string ∈ GraphData.sankeyNodes gL <->
     exists row, row ∈ accepted (dataRows showNumber [headerRow; lossRow]) /\
                 (srcOf showNumber row = "X"%string \/ tgtOf showNumber row = "X"%string \/
                  (Js.ltb (valOf showNumber row) Js.zero = true /\
                   "X"%string = (LossRouting.lossPrefix ++ tgtOf showNumber row)%string))).
Proof.
  eexists. eexists. split; [reflexivity|]. split; [reflexivity|].
  split; [reflexivity|]. split; [reflexivity|].
  apply (node_ids_are_the_row_labels showNumber [headerRow; lossRow] _ _ eq_refl eq_refl).
Defined.

(** * The task pane: loading the selection *)

(** X16: a selection of fewer than two rows leaves the chart that was
    shown in place and reports the message of the parser; a failure to
    read the selection leaves it in place as well.  In both cases the
    loading flag ends up false. *)
Theorem short_selection_keeps_chart
    (nts : Js.number -> string) (rawValues : list (list cell)) (st : Taskpane.state) :
  (length rawValues < 2)%nat ->
  Taskpane.loadData nts (Taskpane.Values rawValues) st =
    {| Taskpane.graphData := Taskpane.graphData st; Taskpane.loading := false;
       Taskpane.error := Some selectionError |} /\
  (forall message,
     Taskpane.loadData nts (Taskpane.Rejected message) st =
       {| Taskpane.graphData := Taskpane.graphData st; Taskpane.loading := false;
          Taskpane.error := Some (default Taskpane.fallbackMessage message) |}).
Proof.
  intros Hlen. split; [|done].
  unfold Taskpane.loadData, Taskpane.tryBody.
  by rewrite SignCategoryFacts.sign_parseExcelData_Throw.
Qed.

Lemma short_selection_keeps_chart_one_row :
  Taskpane.loadData showNumber (Taskpane.Values [plainRow])
    {| Taskpane.graphData := Some sampleData; Taskpane.loading := false;
       Taskpane.error := None |} =
  {| Taskpane.graphData := Some sampleData; Taskpane.loading := false;
     Taskpane.error := Some selectionError |}.
Proof.
  apply (short_selection_keeps_chart showNumber [plainRow]
           {| Taskpane.graphData := Some sampleData; Taskpane.loading := false;
              Taskpane.error := None |}).
  cbn. lia.
Defined.

(** X17: a selection of two rows or more is never refused, whatever its
    cells hold: the parsed graph replaces the chart, no error is shown and
    the loading flag ends up false.  If every data row is skipped, the
    graph has no node and no edge, and the chart draws nothing. *)
Theorem long_selection_always_loads
    (nts : Js.number -> string) (rawValues : list (list cell)) (st : Taskpane.state) :
  (2 <= length rawValues)%nat ->
  exists g,
    SignCategory.parseExcelData nts rawValues = Return g /\
    Taskpane.loadData nts (Taskpane.Values rawValues) st =
      {| Taskpane.graphData := Some g; Taskpane.loading := false;
         Taskpane.error := None |} /\
    (accepted (dataRows nts rawValues) = [] ->
     GraphData.sankeyNodes g = [] /\ GraphData.linkMeta g = [] /\
     forall d3Sankey s m d ds,
       SankeyChart.layoutPass d3Sankey (propsOf g s m d) ds = None).
Proof.
  intros Hlen.
  pose proof (SignCategoryFacts.sign_parseExcelData_Return nts rawValues Hlen) as E.
  cbv zeta in E. eexists. split; [exact E|]. split.
  - unfold Taskpane.loadData, Taskpane.tryBody. by rewrite E.
  - intros Hacc. cbn [GraphData.sankeyNodes GraphData.linkMeta].
    assert (OMap.keys (SignCategory.nodeTotals
              (SignCategory.processRows nts (dataRows nts rawValues))) = []) as Hk.
    { destruct (OMap.keys _) as [|id ks] eqn:Ek; [done|].
      assert (id ∈ OMap.keys (SignCategory.nodeTotals
                (SignCategory.processRows nts (dataRows nts rawValues)))) as Hid
        by (rewrite Ek; apply list_elem_of_here).
      apply keys_is_Some, sign_keys_rows in Hid as (row & Hrow & _).
      rewrite Hacc in Hrow. by apply elem_of_nil in Hrow. }
    rewrite Hk, Hacc. split; [done|]. split; [done|].
    intros d3Sankey s m d ds. unfold SankeyChart.layoutPass.
    cbn [propsOf SankeyChart.data GraphData.sankeyNodes]. done.
Qed.

Lemma long_selection_always_loads_skipped_rows :
  exists g,
    SignCategory.parseExcelData showNumber skippedRows = Return g /\
    Taskpane.loadData showNumber (Taskpane.Values skippedRows)
      {| Taskpane.graphData := None; Taskpane.loading := false; Taskpane.error := None |} =
      {| Taskpane.graphData := Some g; Taskpane.loading := false;
         Taskpane.error := None |} /\
    accepted (dataRows showNumber skippedRows) = [] /\
    GraphData.sankeyNodes g = [].
Proof.
  destruct (long_selection_always_loads showNumber skippedRows
              {| Taskpane.graphData := None; Taskpane.loading := false;
                 Taskpane.error := None |}) as (g & E & Hload & Hempty); [cbn; lia|].
  exists g. split; [exact E|]. split; [exact Hload|].
  split; [reflexivity|]. by apply Hempty.
Defined.

(** * The label lines of the chart *)

Lemma fixedComma_returns nts f x :
  (f <= 100)%nat -> exists s, fixedComma nts f x = Return s.
Proof.
  intros Hf. unfold fixedComma, JsFixed.toFixed.
  rewrite (proj2 (Nat.ltb_ge _ _)) by lia.
  destruct x as [q| | |]; [|by eauto..].
  cbv zeta. destruct (JsFixed.fixedRange (Js.Fin q)); by eauto.
Qed.

Lemma decimalsOf_small m : (SankeyLabels.decimalsOf m <= 100)%nat.
Proof. destruct m; cbn; lia. Qed.

(** X18: whatever the properties and the node, neither metric line of a
    label throws, at most one of the two has a text, and a percentage line
    that has a text sits where the value line would (y = 14).  A node
    without a percentage has an empty percentage line in grey. *)
Theorem at_most_one_metric_line
    (nts : Js.number -> string) (p : SankeyChart.Props) (d : LNode.t) :
  (exists v y,
     SankeyLabels.valueLine nts p d = Return v /\
     SankeyLabels.yoyLine nts p d = Return y /\
     (v = ""%string \/ y = ""%string) /\
     (y <> ""%string -> SankeyLabels.yoyLineY p = SankeyLabels.valueLineY) /\
     (SankeyChart.displayMode p = SankeyChart.Blank -> v = ""%string /\ y = ""%string)) /\
  (SankeyLabels.pctOf p d = None ->
   SankeyLabels.yoyLine nts p d = Return ""%string /\
   SankeyLabels.yoyLineFill p d = "#999"%string).
Proof.
  split.
  - unfold SankeyLabels.valueLine, SankeyLabels.yoyLine, SankeyLabels.yoyLineY.
    destruct (SankeyChart.displayMode p).
    + exists ""%string, ""%string. repeat split; auto; done.
    + unfold formatValue.
      destruct (fixedComma_returns nts (SankeyLabels.decimalsOf (SankeyChart.decimals p))
                  (scaledBy (SankeyChart.scale p)
                     (match SankeyLabels.metaOf p d with
                      | Some m => NodeMeta.totalValue m
                      | None => LNode.value d
                      end)) (decimalsOf_small _)) as [s ->].
      eexists. exists ""%string. repeat split; auto; done.
    + unfold formatYoy. destruct (SankeyLabels.pctOf p d) as [pct|].
      * destruct (fixedComma_returns nts (SankeyLabels.decimalsOf (SankeyChart.decimals p))
                    pct (decimalsOf_small _)) as [s ->].
        exists ""%string. eexists. repeat split; auto; done.
      * exists ""%string, ""%string. repeat split; auto; done.
  - intros Hp. unfold SankeyLabels.yoyLine, SankeyLabels.yoyLineFill. rewrite Hp.
    by destruct (SankeyChart.displayMode p).
Qed.

(** X19: in the display mode [YOY] the colour of the percentage line
    agrees with the sign it prints: for a percentage below 10^21 in
    magnitude the text starts with [+] and is green, or it starts with [-]
    and is red. *)
Theorem yoy_colour_matches_sign
    (nts : Js.number -> string) (p : SankeyChart.Props) (d : LNode.t) (pct : Js.number) :
  SankeyChart.displayMode p = SankeyChart.YOY ->
  SankeyLabels.pctOf p d = Some pct ->
  JsFixed.fixedRange pct = true ->
  exists rest,
    (SankeyLabels.yoyLine nts p d = Return ("+" ++ rest)%string /\
     JsFixed.geb pct Js.zero = true /\
     SankeyLabels.yoyLineFill p d = "#2E7D32"%string) \/
    (SankeyLabels.yoyLine nts p d = Return ("-" ++ rest)%string /\
     Js.ltb pct Js.zero = true /\
     SankeyLabels.yoyLineFill p d = "#C62828"%string).
Proof.
  intros Hm Hp Hr. unfold SankeyLabels.yoyLine, SankeyLabels.yoyLineFill.
  rewrite Hm, Hp. destruct pct as [q| | |]; try discriminate.
  destruct (fixedComma_shape nts (SankeyLabels.decimalsOf (SankeyChart.decimals p)) q
              (decimalsOf_small _) Hr) as (ip & fp & E & _).
  unfold formatYoy. cbv zeta. rewrite E, geb_finite. unfold minusOf.
  eexists. destruct (Js.ltb (Js.Fin q) Js.zero); cbn [negb].
  - right. split; [|done]. change ("" ++ ?s)%string with s. rewrite string_app_assoc.
    change ("-" ++ ?s)%string with (String "-" s). reflexivity.
  - left. split; [|done]. reflexivity.
Qed.

Lemma yoy_colour_matches_sign_chain :
  SignCategory.parseExcelData showNumber chainRows = Return chainGraph /\
  SankeyLabels.pctOf
    (propsOf chainGraph SankeyChart.Raw SankeyChart.YOY SankeyChart.Decimals1) nodeB =
    Some (Js.ofZ 25) /\
  exists rest,
    (SankeyLabels.yoyLine showNumber
       (propsOf chainGraph SankeyChart.Raw SankeyChart.YOY SankeyChart.Decimals1) nodeB =
       Return ("+" ++ rest)%string /\
     JsFixed.geb (Js.ofZ 25) Js.zero = true /\
     SankeyLabels.yoyLineFill
       (propsOf chainGraph SankeyChart.Raw SankeyChart.YOY SankeyChart.Decimals1) nodeB =
       "#2E7D32"%string) \/
    (SankeyLabels.yoyLine showNumber
       (propsOf chainGraph SankeyChart.Raw SankeyChart.YOY SankeyChart.Decimals1) nodeB =
       Return ("-" ++ rest)%string /\
     Js.ltb (Js.ofZ 25) Js.zero = true /\
     SankeyLabels.yoyLineFill
       (propsOf chainGraph SankeyChart.Raw SankeyChart.YOY SankeyChart.Decimals1) nodeB =
       "#C62828"%string).
Proof.
  split; [reflexivity|].
  assert (SankeyLabels.pctOf
            (propsOf chainGraph SankeyChart.Raw SankeyChart.YOY SankeyChart.Decimals1)
            nodeB = Some (Js.ofZ 25)) as Hp by by_compute.
  split; [exact Hp|].
  exact (yoy_colour_matches_sign showNumber
           (propsOf chainGraph SankeyChart.Raw SankeyChart.YOY SankeyChart.Decimals1)
           nodeB (Js.ofZ 25) eq_refl Hp eq_refl).
Defined.

(** * The layout pass and saved positions *)

(** X20: saved positions of ids that the fresh layout does not have are
    ignored.  If the data has a node and [dragState] yields [undefined]
    for the id of every node of the fresh layout, the layout pass returns
    the nodes of the fresh layout as they are; the whole graph is the
    fresh layout if [dragState] has no key at all, or if the link
    positions of the fresh layout are those that [update] computes. *)
Theorem stale_positions_are_ignored
    (d3Sankey : Js.number -> Js.number -> Js.number -> Js.number ->
                list string -> list SankeyLink.t -> Graph.t)
    (p : SankeyChart.Props) (ds : SankeyChart.dict) (fresh : Graph.t) :
  GraphData.sankeyNodes (SankeyChart.data p) <> [] ->
  fresh = d3Sankey SankeyChart.NODE_WIDTH SankeyChart.NODE_PAD
            (Js.sub (Js.sub (SankeyChart.width p) SankeyChart.MARGIN_left)
                    SankeyChart.MARGIN_right)
            (Js.sub (Js.sub (SankeyChart.height p) SankeyChart.MARGIN_top)
                    SankeyChart.MARGIN_bottom)
            (GraphData.sankeyNodes (SankeyChart.data p))
            (GraphData.sankeyLinks (SankeyChart.data p)) ->
  (forall n, n ∈ Graph.nodes fresh ->
             SankeyChart.get ds (LNode.id n) = SankeyChart.Undefined) ->
  exists g,
    SankeyChart.layoutPass d3Sankey p ds = Some (SankeyChart.Laid g) /\
    Graph.nodes g = Graph.nodes fresh /\
    (SankeyChart.keyCount ds = 0%nat -> g = fresh) /\
    (settled fresh -> g = fresh).
Proof.
  intros Hne -> Hstale. unfold SankeyChart.layoutPass.
  rewrite bool_decide_eq_false_2 by (by destruct (GraphData.sankeyNodes _)).
  cbv zeta.
  match goal with |- context [d3Sankey ?a ?b ?c ?d ?e ?f] =>
    set (fresh := d3Sankey a b c d e f) in *
  end.
  assert (mapM (SankeyChart.reapply ds) (Graph.nodes fresh) = Some (Graph.nodes fresh))
    as ->.
  { apply mapM_Some_2, Forall2_same_length_lookup. split; [done|].
    intros j n n' Hn Hn'. rewrite Hn in Hn'. injection Hn' as <-.
    apply reapply_Undefined, Hstale. by eapply list_elem_of_lookup_2. }
  assert ({| Graph.nodes := Graph.nodes fresh; Graph.links := Graph.links fresh |} = fresh)
    as -> by by destruct fresh.
  eexists. split; [reflexivity|].
  destruct (0 <? SankeyChart.keyCount ds)%nat eqn:E.
  - split; [done|]. split.
    + intros Hk. rewrite Hk in E. discriminate.
    + intros Hs. exact Hs.
  - done.
Qed.

Lemma stale_positions_are_ignored_sample :
  exists g,
    SankeyChart.layoutPass sampleLayout (sampleProps SankeyChart.K SankeyChart.Decimals1)
      (SankeyChart.set "Z"
         {| SankeyChart.x0 := Js.ofZ 5; SankeyChart.y0 := Js.ofZ 5 |} ∅) =
      Some (SankeyChart.Laid g) /\
    Graph.nodes g = sampleNodes.
Proof.
  destruct (stale_positions_are_ignored sampleLayout
              (sampleProps SankeyChart.K SankeyChart.Decimals1)
              (SankeyChart.set "Z"
                 {| SankeyChart.x0 := Js.ofZ 5; SankeyChart.y0 := Js.ofZ 5 |} ∅)
              sampleGraph) as (g & E & Hn & _).
  - done.
  - reflexivity.
  - intros n Hn. cbn in Hn.
    repeat (apply elem_of_cons in Hn as [->|Hn]); try reflexivity.
    by apply elem_of_nil in Hn.
  - exists g. split; [exact E | exact Hn].
Defined.

(** X30: a node whose label names a property of [Object.prototype], such
    as [constructor] or [toString], is spoiled by the layout pass although
    nothing has been dragged: [dragState.current[id]] then yields the
    inherited function (for [__proto__], the prototype object), which is
    truthy and has no [x0] and no [y0], so the node is given [undefined]
    for both. *)
Theorem prototype_named_node_is_spoiled
    (d3Sankey : Js.number -> Js.number -> Js.number -> Js.number ->
                list string -> list SankeyLink.t -> Graph.t)
    (p : SankeyChart.Props) (fresh : Graph.t) (n : LNode.t) :
  GraphData.sankeyNodes (SankeyChart.data p) <> [] ->
  fresh = d3Sankey SankeyChart.NODE_WIDTH SankeyChart.NODE_PAD
            (Js.sub (Js.sub (SankeyChart.width p) SankeyChart.MARGIN_left)
                    SankeyChart.MARGIN_right)
            (Js.sub (Js.sub (SankeyChart.height p) SankeyChart.MARGIN_top)
                    SankeyChart.MARGIN_bottom)
            (GraphData.sankeyNodes (SankeyChart.data p))
            (GraphData.sankeyLinks (SankeyChart.data p)) ->
  n ∈ Graph.nodes fresh ->
  LNode.id n ∈ SankeyChart.objectPrototypeNames ->
  SankeyChart.get ∅ (LNode.id n) = SankeyChart.Builtin /\
  SankeyChart.reapply ∅ n = None /\
  SankeyChart.layoutPass d3Sankey p ∅ = Some SankeyChart.Spoiled.
Proof.
  intros Hne -> Hn Hid.
  assert (SankeyChart.get ∅ (LNode.id n) = SankeyChart.Builtin) as Hget.
  { unfold SankeyChart.get, SankeyChart.inherited. cbn.
    case_bool_decide; [done|]. rewrite lookup_empty.
    by rewrite bool_decide_eq_true_2. }
  split; [exact Hget|]. split; [by apply reapply_Builtin|].
  unfold SankeyChart.layoutPass.
  rewrite bool_decide_eq_false_2 by (by destruct (GraphData.sankeyNodes _)).
  cbv zeta. rewrite (mapM_None_2 (SankeyChart.reapply ∅)); [done|].
  apply Exists_exists. exists n. split; [done | by apply reapply_Builtin].
Qed.

Lemma prototype_named_node_is_spoiled_constructor :
  SankeyChart.layoutPass constructorLayout
    (sampleProps SankeyChart.K SankeyChart.Decimals1) ∅ = Some SankeyChart.Spoiled.
Proof.
  apply (prototype_named_node_is_spoiled constructorLayout
           (sampleProps SankeyChart.K SankeyChart.Decimals1) constructorGraph nodeK).
  - done.
  - reflexivity.
  - apply list_elem_of_further, list_elem_of_further, list_elem_of_here.
  - unfold SankeyChart.objectPrototypeNames. apply list_elem_of_here.
Defined.

(** * The earlier chart: the clamped drag *)

Lemma ltb_finite a b : Js.ltb (Js.Fin a) (Js.Fin b) = true <-> (a < b)%Qc.
Proof.
  cbn. rewrite Qclt_alt. destruct (a ?= b)%Qc; split; done.
Qed.

Lemma ltb_finite_false a b : Js.ltb (Js.Fin a) (Js.Fin b) = false <-> (b <= a)%Qc.
Proof.
  split.
  - intros H. apply Qcnot_lt_le. intros Hlt. apply ltb_finite in Hlt. congruence.
  - intros H. destruct (Js.ltb (Js.Fin a) (Js.Fin b)) eqn:E; [|done].
    apply ltb_finite in E. by apply Qcle_not_lt in H.
Qed.

(** The clamp [Math.max(0, Math.min(m, t))] on finite numbers. *)
Lemma clamp_finite (m t : Qc) :
  exists c : Qc,
    Js.max Js.zero (Js.min (Js.Fin m) (Js.Fin t)) = Js.Fin c /\
    (0 <= c)%Qc /\
    ((0 <= m)%Qc -> (c <= m)%Qc) /\
    ((m < 0)%Qc -> c = 0%Qc) /\
    ((0 <= t)%Qc -> (t <= m)%Qc -> c = t).
Proof.
  unfold Js.max, Js.min, Js.zero.
  change (Q2Qc 0) with 0%Qc.
  destruct (Js.ltb (Js.Fin t) (Js.Fin m)) eqn:E1.
  - apply ltb_finite in E1.
    destruct (Js.ltb (Js.Fin 0%Qc) (Js.Fin t)) eqn:E2.
    + apply ltb_finite in E2. exists t.
      split; [reflexivity|]. split; [by apply Qclt_le_weak|].
      split; [intros _; by apply Qclt_le_weak|].
      split; [|done].
      intros Hm. exfalso. apply (Qclt_not_le _ _ E2).
      apply Qclt_le_weak. by apply (Qclt_trans _ m).
    + apply ltb_finite_false in E2. exists 0%Qc.
      split; [reflexivity|]. split; [apply Qcle_refl|].
      split; [done|]. split; [done|].
      intros H0 _. by apply Qcle_antisym.
  - apply ltb_finite_false in E1.
    destruct (Js.ltb (Js.Fin 0%Qc) (Js.Fin m)) eqn:E2.
    + apply ltb_finite in E2. exists m.
      split; [reflexivity|]. split; [by apply Qclt_le_weak|].
      split; [intros _; apply Qcle_refl|].
      split.
      * intros Hm. exfalso. apply (Qclt_not_le _ _ E2). by apply Qclt_le_weak.
      * intros _ Ht. by apply Qcle_antisym.
    + apply ltb_finite_false in E2. exists 0%Qc.
      split; [reflexivity|]. split; [apply Qcle_refl|].
      split; [done|]. split; [done|].
      intros H0 Ht. apply Qcle_antisym; [done|].
      by apply (Qcle_trans _ m).
Qed.

(** X21: the vertical drag of the earlier chart keeps a node on the
    canvas.  For finite coordinates the dragged node keeps its height and
    its horizontal position, its top is not above 0, its bottom is not
    below the height [H] of the canvas if the node fits on it, and a node
    taller than the canvas is put at the top; a movement that stays inside
    these bounds is followed exactly.  No other node and no link
    changes. *)
Theorem v1_drag_stays_on_canvas
    (H : Js.number) (g : Graph.t) (i : nat) (dy : Js.number) (d : LNode.t)
    (Hq top bottom dq : Qc) :
  Graph.nodes g !! i = Some d ->
  H = Js.Fin Hq -> LNode.y0 d = Js.Fin top -> LNode.y1 d = Js.Fin bottom ->
  dy = Js.Fin dq ->
  exists (d' : LNode.t) (ny0 : Qc),
    Graph.nodes (SankeyChartV1.onDrag H g i dy) !! i = Some d' /\
    LNode.y0 d' = Js.Fin ny0 /\
    LNode.y1 d' = Js.Fin (ny0 + (bottom - top)) /\
    (0 <= ny0)%Qc /\
    ((bottom - top <= Hq)%Qc -> (ny0 + (bottom - top) <= Hq)%Qc) /\
    ((Hq < bottom - top)%Qc -> ny0 = 0%Qc) /\
    ((0 <= top + dq)%Qc -> (top + dq + (bottom - top) <= Hq)%Qc -> ny0 = (top + dq)%Qc) /\
    LNode.x0 d' = LNode.x0 d /\ LNode.x1 d' = LNode.x1 d /\
    (forall j, j <> i ->
       Graph.nodes (SankeyChartV1.onDrag H g i dy) !! j = Graph.nodes g !! j) /\
    Graph.links (SankeyChartV1.onDrag H g i dy) = Graph.links g.
Proof.
  intros Hd -> Htop Hbottom ->. unfold SankeyChartV1.onDrag. rewrite Hd. cbv zeta.
  rewrite Htop, Hbottom.
  change (Js.sub (Js.Fin bottom) (Js.Fin top)) with (Js.Fin (bottom - top)).
  change (Js.sub (Js.Fin Hq) (Js.Fin (bottom - top))) with (Js.Fin (Hq - (bottom - top))).
  change (Js.add (Js.Fin top) (Js.Fin dq)) with (Js.Fin (top + dq)).
  destruct (clamp_finite (Hq - (bottom - top)) (top + dq))
    as (c & -> & H0 & Hfit & Htall & Hfree).
  cbn [Graph.nodes Graph.links].
  eexists. exists c. split.
  { apply list_lookup_insert_eq. by eapply lookup_lt_Some. }
  cbn [LNode.moveTo LNode.y0 LNode.y1 LNode.x0 LNode.x1].
  repeat split; try done.
  - intros Hle.
    assert (c <= Hq - (bottom - top))%Qc as Hc.
    { apply Hfit. unfold Qcminus. rewrite <- (Qcplus_opp_r (bottom + - top)).
      apply Qcplus_le_compat; [done | apply Qcle_refl]. }
    assert (Hq = (Hq - (bottom - top)) + (bottom - top))%Qc as E by ring.
    rewrite E. apply Qcplus_le_compat; [done | apply Qcle_refl].
  - intros Hlt. apply Htall.
    apply Qclt_minus_iff. apply Qclt_minus_iff in Hlt.
    assert (0 + - (Hq - (bottom - top)) = bottom - top + - Hq)%Qc as -> by ring.
    exact Hlt.
  - intros Hge Hle. apply Hfree; [done|].
    assert (top + dq = (top + dq + (bottom - top)) - (bottom - top))%Qc as E by ring.
    rewrite E. unfold Qcminus. apply Qcplus_le_compat; [done | apply Qcle_refl].
  - intros j Hj. by apply list_lookup_insert_ne.
Qed.

Lemma v1_drag_stays_on_canvas_sample :
  exists (d' : LNode.t) (ny0 : Qc),
    Graph.nodes (SankeyChartV1.onDrag (Js.ofZ 40) sampleGraph 2 (Js.ofZ 100)) !! 2%nat =
      Some d' /\
    LNode.y0 d' = Js.Fin ny0 /\
    (0 <= ny0)%Qc /\
    (ny0 + (Q2Qc (inject_Z 44) - Q2Qc (inject_Z 24)) <= Q2Qc (inject_Z 40))%Qc.
Proof.
  destruct (v1_drag_stays_on_canvas (Js.ofZ 40) sampleGraph 2 (Js.ofZ 100) nodeC
              (Q2Qc (inject_Z 40)) (Q2Qc (inject_Z 24)) (Q2Qc (inject_Z 44))
              (Q2Qc (inject_Z 100)) eq_refl eq_refl eq_refl eq_refl eq_refl)
    as (d' & ny0 & E & Hy & _ & H0 & Hfit & _).
  exists d', ny0. split; [exact E|]. split; [exact Hy|]. split; [exact H0|].
  apply Hfit. by vm_compute.
Defined.

(** X22: the links do not follow a node that the earlier chart drags.
    The ends of a link as d3-sankey draws it are the right edge of its
    source at [link.y0] and the left edge of its target at [link.y1]; the
    drag changes neither the horizontal position of a node nor a link, so
    every link has the same ends after the drag as before. *)
Theorem v1_drag_moves_no_link
    (H : Js.number) (g : Graph.t) (i : nat) (dy : Js.number) (l : LLink.t) :
  D3.ports (SankeyChartV1.onDrag H g i dy) l = D3.ports g l.
Proof.
  unfold SankeyChartV1.onDrag.
  destruct (Graph.nodes g !! i) as [d|] eqn:Hd; [|done].
  cbv zeta. unfold D3.ports. cbn [Graph.nodes].
  set (d' := LNode.moveTo _ _ _ _ d).
  assert (forall j, (fun n => (LNode.x0 n, LNode.x1 n)) <$> (<[i := d']> (Graph.nodes g) !! j) =
                    (fun n => (LNode.x0 n, LNode.x1 n)) <$> (Graph.nodes g !! j)) as Hx.
  { intros j. destruct (decide (j = i)) as [->|Hj].
    - rewrite list_lookup_insert_eq by (by eapply lookup_lt_Some). by rewrite Hd.
    - by rewrite list_lookup_insert_ne. }
  pose proof (Hx (LLink.source l)) as Hs. pose proof (Hx (LLink.target l)) as Ht.
  destruct (<[i := d']> (Graph.nodes g) !! LLink.source l) as [s'|],
           (Graph.nodes g !! LLink.source l) as [s|]; try done.
  destruct (<[i := d']> (Graph.nodes g) !! LLink.target l) as [t'|],
           (Graph.nodes g !! LLink.target l) as [t|]; try done.
  cbn in *. congruence.
Qed.

(** * Keyword classes of the loss-routing revision *)

Lemma lowerChar_idempotent c : Js.lowerChar (Js.lowerChar c) = Js.lowerChar c.
Proof. destruct c as [[] [] [] [] [] [] [] []]; reflexivity. Qed.

Lemma toLowerCase_idempotent s : Js.toLowerCase (Js.toLowerCase s) = Js.toLowerCase s.
Proof.
  induction s as [|c s IH]; [done|]. cbn [Js.toLowerCase].
  by rewrite lowerChar_idempotent, IH.
Qed.

Lemma toLowerCase_app (a b : string) :
  Js.toLowerCase (a ++ b)%string = (Js.toLowerCase a ++ Js.toLowerCase b)%string.
Proof.
  induction a as [|c a IH]; [done|].
  change (String (Js.lowerChar c) (Js.toLowerCase (a ++ b)%string) =
          String (Js.lowerChar c) (Js.toLowerCase a ++ Js.toLowerCase b)%string).
  by rewrite IH.
Qed.

Lemma prefix_app_r k (s y : string) :
  String.prefix k s = true -> String.prefix k (s ++ y)%string = true.
Proof.
  revert s. induction k as [|c k IH]; intros s.
  - intros _. by destruct (s ++ y)%string.
  - destruct s as [|x s]; [done|].
    change (String x s ++ y)%string with (String x (s ++ y)).
    cbn [String.prefix]. destruct (ascii_dec c x); [apply IH | done].
Qed.

Lemma includes_unfold k s :
  Js.includes k s =
  Js.startsWith k s || match s with String _ s' => Js.includes k s' | EmptyString => false end.
Proof. by destruct s. Qed.

Lemma includes_app_r k (s y : string) :
  Js.includes k s = true -> Js.includes k (s ++ y)%string = true.
Proof.
  induction s as [|x s IH].
  - rewrite includes_unfold, orb_false_r. intros Hk.
    rewrite includes_unfold. apply orb_true_iff. left.
    by apply (prefix_app_r k "" y).
  - rewrite includes_unfold. intros [Hk|Hk]%orb_true_iff.
    + rewrite includes_unfold. apply orb_true_iff. left. by apply prefix_app_r.
    + change (String x s ++ y)%string with (String x (s ++ y)).
      rewrite includes_unfold. apply orb_true_iff. right. by apply IH.
Qed.

Lemma includes_app_l k (x s : string) :
  Js.includes k s = true -> Js.includes k (x ++ s)%string = true.
Proof.
  intros Hk. induction x as [|c x IH]; [done|].
  change (String c x ++ s)%string with (String c (x ++ s)).
  rewrite includes_unfold. apply orb_true_iff. by right.
Qed.

Lemma keyword_in_context (kws : list string) (x id y : string) :
  existsb (fun k => Js.includes k (Js.toLowerCase id)) kws = true ->
  existsb (fun k => Js.includes k (Js.toLowerCase (x ++ id ++ y)%string)) kws = true.
Proof.
  rewrite !existsb_exists. intros (k & Hk & Hin). exists k. split; [done|].
  rewrite !toLowerCase_app. by apply includes_app_l, includes_app_r.
Qed.

(** X23: the keyword class of a label does not depend on upper and lower
    case, and text around a label can only move its class towards cost: a
    label that holds a cost label is a cost label, and a label that holds
    a profit label is never neutral. *)
Theorem classifyId_case_and_context (id x y : string) :
  LossRouting.classifyId (Js.toLowerCase id) = LossRouting.classifyId id /\
  (LossRouting.classifyId id = cost ->
   LossRouting.classifyId (x ++ id ++ y)%string = cost) /\
  (LossRouting.classifyId id = profit ->
   LossRouting.classifyId (x ++ id ++ y)%string <> neutral).
Proof.
  unfold LossRouting.classifyId. cbv zeta. rewrite toLowerCase_idempotent.
  split; [done|].
  pose proof (keyword_in_context LossRouting.COST_KW x id y) as Hc.
  pose proof (keyword_in_context LossRouting.PROFIT_KW x id y) as Hp.
  destruct (existsb _ LossRouting.COST_KW) eqn:Ec.
  - rewrite Hc by done. done.
  - destruct (existsb _ LossRouting.PROFIT_KW) eqn:Ep; [|done].
    rewrite Hp by done. split; [done|]. intros _.
    match goal with |- (if ?b then _ else _) <> _ => by destruct b end.
Qed.

(** * White space in a numeric text *)

Lemma removeWhiteSpace_trimStart s :
  Js.removeWhiteSpace (Js.trimStart s) = Js.removeWhiteSpace s.
Proof.
  induction s as [|c s IH]; [done|]. cbn [Js.trimStart Js.removeWhiteSpace].
  destruct (Js.isWhiteSpace c) eqn:Ec; [done|].
  cbn [Js.removeWhiteSpace]. by rewrite Ec.
Qed.

Lemma removeWhiteSpace_trimEnd s :
  Js.removeWhiteSpace (Js.trimEnd s) = Js.removeWhiteSpace s.
Proof.
  induction s as [|c s IH]; [done|]. cbn [Js.trimEnd].
  destruct (Js.trimEnd s) as [|c' t] eqn:Et.
  - cbn [Js.removeWhiteSpace] in *. rewrite <- IH.
    by destruct (Js.isWhiteSpace c) eqn:Ec; cbn [Js.removeWhiteSpace]; rewrite ?Ec.
  - cbn [Js.removeWhiteSpace] in *. by rewrite IH.
Qed.

Lemma removeWhiteSpace_no_space s :
  every (fun c => negb (Js.isWhiteSpace c)) (Js.removeWhiteSpace s) = true.
Proof.
  induction s as [|c s IH]; [done|]. cbn [Js.removeWhiteSpace].
  destruct (Js.isWhiteSpace c) eqn:Ec; [done|]. cbn [every]. by rewrite Ec, IH.
Qed.

(** X24: white space anywhere in a text cell is ignored when it is read
    as a number: [parseNum] gives the same number for a text and for the
    text without its white space. *)
Theorem parseNum_ignores_white_space (nts : Js.number -> string) (s : string) :
  parseNum nts (Some (CString s)) =
  parseNum nts (Some (CString (Js.removeWhiteSpace s))).
Proof.
  unfold parseNum, normalize, ToString. do 3 f_equal.
  destruct (trim_no_space _ (removeWhiteSpace_no_space s)) as [-> ->].
  unfold Js.trim. by rewrite removeWhiteSpace_trimEnd, removeWhiteSpace_trimStart.
Qed.

(** * Totals and colours of the nodes *)

Lemma sign_node_meta nts rawValues g id m :
  SignCategory.parseExcelData nts rawValues = Return g ->
  (id, m) ∈ GraphData.nodeMeta g ->
  exists t, m = SignCategory.metaOf id t.
Proof.
  intros H Hin. destruct (sign_parse_inv _ _ _ H) as (Hlen & _).
  rewrite SignCategoryFacts.sign_parseExcelData_Return in H by done.
  injection H as <-. cbn in Hin.
  apply list_elem_of_fmap in Hin as ([id' t] & [= -> ->] & _). by exists t.
Qed.

(** X25: the sign-as-category revision never uses the neutral palette:
    every node is filled and accented in the profit or in the cost colours,
    and every edge has the cost link colour if the amount of its row is
    negative and the profit link colour otherwise. *)
Theorem sign_revision_never_neutral
    (nts : Js.number -> string) (rawValues : list (list cell)) (g : GraphData.t) :
  SignCategory.parseExcelData nts rawValues = Return g ->
  (forall id m,
     (id, m) ∈ GraphData.nodeMeta g ->
     exists cls,
       (cls = profit \/ cls = cost) /\
       NodeMeta.fillColor m = fill (COLORS cls) /\
       NodeMeta.accentColor m = accent (COLORS cls) /\
       NodeMeta.fillColor m <> fill (COLORS neutral) /\
       NodeMeta.accentColor m <> accent (COLORS neutral)) /\
  (forall i row l,
     accepted (dataRows nts rawValues) !! i = Some row ->
     GraphData.linkMeta g !! i = Some l ->
     LinkMeta.linkColor l =
       link (COLORS (if Js.ltb (valOf nts row) Js.zero then cost else profit)) /\
     LinkMeta.linkColor l <> link (COLORS neutral)).
Proof.
  intros H. split.
  - intros id m Hin. destruct (sign_node_meta _ _ _ _ _ H Hin) as [t ->].
    unfold SignCategory.metaOf. cbv zeta.
    cbn [NodeMeta.fillColor NodeMeta.accentColor].
    match goal with |- context [fill (COLORS ?c)] => set (cls := c) end.
    exists cls.
    assert (cls = profit \/ cls = cost) as Hc.
    { unfold cls. destruct (Js.gtb _ _); [destruct (Js.ltb _ _); auto|].
      destruct (Js.gtb _ _); [destruct (Js.ltb _ _); auto | auto]. }
    split; [done|]. split; [done|]. split; [done|].
    destruct Hc as [-> | ->]; split; discriminate.
  - intros i row l Hrow Hl.
    destruct (sign_parse_inv _ _ _ H) as (_ & El & _).
    rewrite El, list_lookup_fmap, Hrow in Hl. injection Hl as <-.
    cbn [signLinkOf LinkMeta.linkColor]. split; [done|].
    destruct (Js.ltb (valOf nts row) Js.zero); discriminate.
Qed.

Lemma sign_revision_never_neutral_mixed :
  exists g,
    SignCategory.parseExcelData showNumber mixedRows = Return g /\
    LinkMeta.linkColor <$> GraphData.linkMeta g =
      [link (COLORS profit); link (COLORS cost)] /\
    forall id m, (id, m) ∈ GraphData.nodeMeta g ->
                 NodeMeta.fillColor m <> fill (COLORS neutral).
Proof.
  eexists. split; [reflexivity|]. split; [reflexivity|].
  intros id m Hin.
  destruct (sign_revision_never_neutral showNumber mixedRows _ eq_refl) as [Hnodes _].
  destruct (Hnodes id m Hin) as (cls & _ & _ & _ & Hf & _). exact Hf.
Defined.

(** X26: in the sign-as-category revision the total of a node is the
    larger of the flow into it and the flow out of it, for the current
    amounts and for the prior amounts: the outgoing flow for a node that no
    edge enters, the incoming flow for a node that no edge leaves. *)
Theorem sign_totals_take_larger_direction
    (nts : Js.number -> string) (rawValues : list (list cell)) (g : GraphData.t)
    (id : string) (m : NodeMeta.t) :
  SignCategory.parseExcelData nts rawValues = Return g ->
  (id, m) ∈ GraphData.nodeMeta g ->
  NodeMeta.totalValue m =
    Js.max (flowIn (GraphData.linkMeta g) id) (flowOut (GraphData.linkMeta g) id) /\
  NodeMeta.totalPrior m =
    Js.max (priorIn (GraphData.linkMeta g) id) (priorOut (GraphData.linkMeta g) id) /\
  ((forall l, l ∈ GraphData.linkMeta g -> LinkMeta.targetId l <> id) ->
   NodeMeta.totalValue m = flowOut (GraphData.linkMeta g) id) /\
  ((forall l, l ∈ GraphData.linkMeta g -> LinkMeta.sourceId l <> id) ->
   NodeMeta.totalValue m = flowIn (GraphData.linkMeta g) id).
Proof.
  intros H Hin.
  destruct (sign_node _ _ _ _ _ H Hin) as (_ & Hv & Hp & _).
  destruct (sign_totalValue_larger_direction _ _ _ _ _ H Hin) as (_ & Hout & Hinw).
  repeat split; done.
Qed.

Lemma sign_totals_take_larger_direction_chain :
  exists g m,
    SignCategory.parseExcelData showNumber chainRows = Return g /\
    ("B"%string, m) ∈ GraphData.nodeMeta g /\
    NodeMeta.totalValue m =
      Js.max (flowIn (GraphData.linkMeta g) "B") (flowOut (GraphData.linkMeta g) "B") /\
    NodeMeta.totalValue m = Js.ofZ 100.
Proof.
  eexists. eexists. split; [reflexivity|].
  assert (forall (A : Type) (x y z : A), y ∈ [x; y; z]) as Hmid
    by (intros; apply list_elem_of_further, list_elem_of_here).
  split; [apply Hmid|]. split; [|by_compute].
  match goal with |- NodeMeta.totalValue ?m = _ =>
    destruct (sign_totals_take_larger_direction showNumber chainRows _ "B" m eq_refl (Hmid _ _ _ _))
      as (Hv & _)
  end.
  exact Hv.
Defined.

(** X27: in the loss-routing revision the total of a node adds up both
    directions: the value of every edge that leaves the node and of every
    edge that enters it, in the order of the rows (an edge from a node to
    itself counts twice).  For a node that no edge enters this is the
    outgoing flow, for a node that no edge leaves the incoming flow. *)
Theorem loss_totals_add_both_directions
    (nts : Js.number -> string) (rawValues : list (list cell)) (g : GraphData.t)
    (id : string) (m : NodeMeta.t) :
  LossRouting.parseExcelData nts rawValues = Return g ->
  (id, m) ∈ GraphData.nodeMeta g ->
  NodeMeta.totalValue m = throughput LinkMeta.value (GraphData.linkMeta g) id /\
  NodeMeta.totalPrior m = throughput LinkMeta.prior (GraphData.linkMeta g) id /\
  ((forall l, l ∈ GraphData.linkMeta g -> LinkMeta.targetId l <> id) ->
   NodeMeta.totalValue m = flowOut (GraphData.linkMeta g) id) /\
  ((forall l, l ∈ GraphData.linkMeta g -> LinkMeta.sourceId l <> id) ->
   NodeMeta.totalValue m = flowIn (GraphData.linkMeta g) id).
Proof.
  intros H Hin.
  destruct (loss_node _ _ _ _ _ H Hin) as (_ & Hv & Hp & _).
  destruct (loss_totalValue_pure_source_or_sink _ _ _ _ _ H Hin) as (Hout & Hinw).
  repeat split; done.
Qed.

Lemma loss_totals_add_both_directions_chain :
  exists g m,
    LossRouting.parseExcelData showNumber chainRows = Return g /\
    ("B"%string, m) ∈ GraphData.nodeMeta g /\
    NodeMeta.totalValue m = throughput LinkMeta.value (GraphData.linkMeta g) "B" /\
    NodeMeta.totalValue m = Js.ofZ 160.
Proof.
  eexists. eexists. split; [reflexivity|].
  assert (forall (A : Type) (x y z : A), y ∈ [x; y; z]) as Hmid
    by (intros; apply list_elem_of_further, list_elem_of_here).
  split; [apply Hmid|]. split; [|by_compute].
  match goal with |- NodeMeta.totalValue ?m = _ =>
    destruct (loss_totals_add_both_directions showNumber chainRows _ "B" m eq_refl (Hmid _ _ _ _))
      as (Hv & _)
  end.
  exact Hv.
Defined.

(** * The labels show the numbers of the parser *)

Lemma sign_meta_lookup nts rawValues g id :
  SignCategory.parseExcelData nts rawValues = Return g ->
  id ∈ GraphData.sankeyNodes g ->
  exists m, OMap.get id (GraphData.nodeMeta g) = Some m /\ (id, m) ∈ GraphData.nodeMeta g.
Proof.
  intros H Hid. destruct (sign_parse_inv _ _ _ H) as (Hlen & _ & _ & Hk).
  assert (NoDup (OMap.keys (GraphData.nodeMeta g))) as Hnd.
  { unfold OMap.keys. rewrite <- Hk.
    rewrite SignCategoryFacts.sign_parseExcelData_Return in H by done.
    injection H as <-. cbn.
    apply (SignCategoryFacts.sign_tallied_processRows nts (dataRows nts rawValues)). }
  destruct (node_of_id g id Hk Hid) as [m Hm].
  exists m. split; [|done]. by apply OMapFacts.elem_get.
Qed.

(** X28: for a graph of the sign-as-category revision, the label of every
    laid-out node whose id is a node of the data is taken from the parser
    and not from the layout: the name line is the id, the value line (in
    the mode [Values]) prints the larger of the incoming and the outgoing
    flow of the recorded edges, whatever value the layout has given to the
    node, and the percentage is that of the node totals. *)
Theorem label_shows_parser_totals
    (nts : Js.number -> string) (rawValues : list (list cell)) (g : GraphData.t)
    (s : SankeyChart.ScaleMode) (mode : SankeyChart.DisplayMode)
    (dec : SankeyChart.DecimalMode) (d : LNode.t) :
  SignCategory.parseExcelData nts rawValues = Return g ->
  LNode.id d ∈ GraphData.sankeyNodes g ->
  let total := Js.max (flowIn (GraphData.linkMeta g) (LNode.id d))
                      (flowOut (GraphData.linkMeta g) (LNode.id d)) in
  let prior := Js.max (priorIn (GraphData.linkMeta g) (LNode.id d))
                      (priorOut (GraphData.linkMeta g) (LNode.id d)) in
  SankeyLabels.nameLine (propsOf g s mode dec) d = LNode.id d /\
  SankeyLabels.valueLine nts (propsOf g s SankeyChart.Values dec) d =
    formatValue nts total s (SankeyLabels.decimalsOf dec) /\
  SankeyLabels.pctOf (propsOf g s mode dec) d = nodeYoy total prior.
Proof.
  intros H Hid total prior.
  destruct (sign_meta_lookup _ _ _ _ H Hid) as (m & Hget & Hin).
  destruct (sign_node _ _ _ _ _ H Hin) as (_ & Hv & Hp & Hy).
  destruct (sign_node_meta _ _ _ _ _ H Hin) as [t Hm].
  unfold SankeyLabels.nameLine, SankeyLabels.valueLine, SankeyLabels.pctOf,
    SankeyLabels.metaOf.
  cbn [propsOf SankeyChart.data SankeyChart.displayMode SankeyChart.scale
       SankeyChart.decimals].
  rewrite Hget. cbn [mbind option_bind]. rewrite Hy, Hv, Hp.
  split; [by rewrite Hm|]. done.
Qed.

Lemma label_shows_parser_totals_chain :
  SignCategory.parseExcelData showNumber chainRows = Return chainGraph /\
  LNode.value nodeB = Js.ofZ 10 /\
  SankeyLabels.valueLine showNumber
    (propsOf chainGraph SankeyChart.Raw SankeyChart.Values SankeyChart.Decimals0) nodeB =
    formatValue showNumber
      (Js.max (flowIn (GraphData.linkMeta chainGraph) "B")
              (flowOut (GraphData.linkMeta chainGraph) "B"))
      SankeyChart.Raw 0 /\
  SankeyLabels.valueLine showNumber
    (propsOf chainGraph SankeyChart.Raw SankeyChart.Values SankeyChart.Decimals0) nodeB =
    Return "100"%string.
Proof.
  split; [reflexivity|]. split; [reflexivity|]. split; [|reflexivity].
  assert ("B"%string ∈ GraphData.sankeyNodes chainGraph) as Hin
    by apply list_elem_of_further, list_elem_of_here.
  destruct (label_shows_parser_totals showNumber chainRows chainGraph SankeyChart.Raw
              SankeyChart.Values SankeyChart.Decimals0 nodeB eq_refl Hin) as (_ & Hv & _).
  exact Hv.
Defined.

(** * Invariants of the chart *)

(** X29: the chart keeps the laid-out graph consistent.  If d3-sankey
    returns graphs in which every link listed at a node is attached to this
    node and the link positions are those that [update] computes, then the
    graph that the layout pass lays out is such a graph, for any saved
    positions, as long as no assignment to [__proto__] has replaced the
    prototype of [dragState]; and so is the graph after any drag event. *)
Theorem chart_keeps_graph_consistent
    (d3Sankey : Js.number -> Js.number -> Js.number -> Js.number ->
                list string -> list SankeyLink.t -> Graph.t)
    (p : SankeyChart.Props) (ds : SankeyChart.dict) (g : Graph.t) :
  (forall nw np W H ids raw,
     wellLinked (d3Sankey nw np W H ids raw) /\ settled (d3Sankey nw np W H ids raw)) ->
  SankeyChart.proto ds = None ->
  SankeyChart.layoutPass d3Sankey p ds = Some (SankeyChart.Laid g) ->
  wellLinked g /\ settled g /\
  forall i dx dy,
    let st := SankeyChart.onDrag {| SankeyChart.graph := g; SankeyChart.dragState := ds |}
                i dx dy in
    wellLinked (SankeyChart.graph st) /\ settled (SankeyChart.graph st).
Proof.
  intros Hd3 Hp Hg.
  destruct (layoutPass_preserves d3Sankey p ds g Hd3 Hg) as [Hw Hs].
  split; [done|]. split; [by apply Hs|]. intros i dx dy st.
  destruct (onDrag_preserves {| SankeyChart.graph := g; SankeyChart.dragState := ds |}
              i dx dy Hw) as [Hw' Hs'].
  split; [exact Hw' | by apply Hs', Hs].
Qed.

Lemma chart_keeps_graph_consistent_sample :
  exists g,
    SankeyChart.layoutPass sampleLayout (sampleProps SankeyChart.K SankeyChart.Decimals1) ∅ =
      Some (SankeyChart.Laid g) /\
    wellLinked g /\ settled g.
Proof.
  eexists. split; [reflexivity|].
  destruct (chart_keeps_graph_consistent sampleLayout
              (sampleProps SankeyChart.K SankeyChart.Decimals1) ∅ sampleGraph)
    as (Hw & Hs & _).
  - intros. split; [apply sampleGraph_wellLinked | apply sampleGraph_settled].
  - reflexivity.
  - reflexivity.
  - split; [exact Hw | exact Hs].
Defined.
